(** * Library management (Odoo 18 module): borrowing lifecycle and fines

    A shallow embedding of the models [library.book], [library.member] and
    [library.borrowing.record] (src/models/book.py, member.py,
    borrowing_record.py), and the properties of the borrowing lifecycle and
    of the fine computation proved over it.

    The data:
    - a table is a finite map from the record id (a positive integer, as a
      PostgreSQL serial) to the row; a recordset is a list of ids;
    - a date is its day number (an integer), [a - b] is [(a - b).days];
    - a Python [float] is an IEEE binary64 number, the primitive [float];
    - [fields.Date.today()] is the argument [today] of every operation;
    - [ir.sequence] is an external collaborator: the value returned by
      [next_by_code] is an argument of [create].

    The methods:
    - a method is a computation in a state and exception monad over the
      database; nothing is undone when an exception is raised inside it,
      the rollback is done at the boundary of the call ([transaction]);
    - [super().create], [super().write] and [super().unlink] are the
      ORM's: they check the required columns, the foreign keys and the
      [_sql_constraints] when the row is stored, recompute the stored
      computed fields whose dependencies ([@api.depends]) are written, and
      run the Python constraints ([@api.constrains]) of the fields that the
      values name (all of them on creation). *)

From Stdlib Require Import ZArith String Ascii Floats.
From stdpp Require Import base option list gmap strings pretty sorting.

Local Open Scope string_scope.
Local Open Scope Z_scope.

(** ** Selection fields *)

(** [status] of library.borrowing.record. *)
Inductive Status := borrowed | returned | overdue.

(** [member_status] of library.member. *)
Inductive MemberStatus := active | inactive | pending.

#[global] Instance Status_eq_dec : EqDecision Status.
Proof. solve_decision. Defined.

#[global] Instance MemberStatus_eq_dec : EqDecision MemberStatus.
Proof. solve_decision. Defined.

(** [record.status.title()] *)
Definition status_title (s : Status) : string :=
  match s with
  | borrowed => "Borrowed"
  | returned => "Returned"
  | overdue => "Overdue"
  end.

(** ** Python values *)

(** The double quote character, for the messages that quote a name. *)
Definition dq : string := String (ascii_of_nat 34) EmptyString.

(** [str(n)] for an integer. *)
Definition str_int (n : Z) : string := pretty n.

(** [float(n)] for an integer, as in [n * x] with [x] a float. *)
Definition float_of_int (n : Z) : float :=
  if n <? 0 then PrimFloat.opp (PrimFloat.of_uint63 (Uint63.of_Z (- n)))
  else PrimFloat.of_uint63 (Uint63.of_Z n).

(** [n * x] for an integer [n] and a float [x]. *)
Definition int_mul_float (n : Z) (x : float) : float :=
  PrimFloat.mul (float_of_int n) x.

(** [x != y] on floats (IEEE comparison). *)
Definition float_ne (x y : float) : bool := negb (PrimFloat.eqb x y).

(** [x != y] on integers. *)
Definition int_ne (x y : Z) : bool := negb (x =? y).

(** *** [f'{x:.2f}']

    The exact value of a finite binary64 number is [m * 2^e]; the format
    rounds [100 * m * 2^e] to the nearest integer, ties to even, and prints
    it with two digits after the point. *)

Definition round_half_even (num den : Z) : Z :=
  let q := num / den in
  let r := num mod den in
  if 2 * r <? den then q
  else if den <? 2 * r then q + 1
  else if Z.even q then q else q + 1.

Definition two_digits (n : Z) : string :=
  if n <? 10 then "0" +:+ pretty n else pretty n.

Definition fixed2 (sign : bool) (hundredths : Z) : string :=
  (if sign then "-" else "") +:+ pretty (hundredths / 100) +:+ "."
    +:+ two_digits (hundredths mod 100).

Definition format_2f (x : float) : string :=
  match Prim2SF x with
  | S754_nan => "nan"
  | S754_infinity s => if s then "-inf" else "inf"
  | S754_zero s => fixed2 s 0
  | S754_finite s m e =>
      if 0 <=? e then fixed2 s (100 * Z.pos m * 2 ^ e)
      else fixed2 s (round_half_even (100 * Z.pos m) (2 ^ (- e)))
  end.

(** ** Rows *)

Module Book.
(** The fields of library.book that the lifecycle reads or writes;
    [available_copies] is the stored computed field, and [active] is the
    field by which the ORM archives a row: a search of the model leaves
    the rows that are not active out, unless its domain names the
    field. The fields that no method reads are left out, the required
    [category] among them, and [total_copies] is an integer without the
    bounds of the column. *)
Record t := mk {
  title : string;
  author : string;
  isbn : string;
  total_copies : Z;
  available_copies : Z;
  active : bool
}.

(** The values a caller passes to [create] or [write]. *)
Record vals := mk_vals {
  v_title : option string;
  v_author : option string;
  v_isbn : option string;
  v_total_copies : option Z;
  v_active : option bool
}.

Definition no_vals : vals := mk_vals None None None None None.

Definition apply (v : vals) (b : t) : t :=
  {| title := default (title b) (v_title v);
     author := default (author b) (v_author v);
     isbn := default (isbn b) (v_isbn v);
     total_copies := default (total_copies b) (v_total_copies v);
     available_copies := available_copies b;
     active := default (active b) (v_active v) |}.

Definition set_available_copies (n : Z) (b : t) : t :=
  {| title := title b; author := author b; isbn := isbn b;
     total_copies := total_copies b; available_copies := n;
     active := active b |}.
End Book.

Module Member.
(** The fields of library.member; [current_borrowed] is the stored
    computed field. *)
Record t := mk {
  sequence : string;
  name : string;
  email : string;
  phone : string;
  join_date : Z;
  max_borrow_limit : Z;
  current_borrowed : Z;
  member_status : MemberStatus
}.

Record vals := mk_vals {
  v_sequence : option string;
  v_name : option string;
  v_email : option string;
  v_phone : option string;
  v_join_date : option Z;
  v_max_borrow_limit : option Z;
  v_member_status : option MemberStatus
}.

Definition no_vals : vals := mk_vals None None None None None None None.

Definition apply (v : vals) (m : t) : t :=
  {| sequence := default (sequence m) (v_sequence v);
     name := default (name m) (v_name v);
     email := default (email m) (v_email v);
     phone := default (phone m) (v_phone v);
     join_date := default (join_date m) (v_join_date v);
     max_borrow_limit := default (max_borrow_limit m) (v_max_borrow_limit v);
     current_borrowed := current_borrowed m;
     member_status := default (member_status m) (v_member_status v) |}.

Definition set_max_borrow_limit (n : Z) (m : t) : t :=
  {| sequence := sequence m; name := name m; email := email m;
     phone := phone m; join_date := join_date m; max_borrow_limit := n;
     current_borrowed := current_borrowed m;
     member_status := member_status m |}.

Definition set_current_borrowed (n : Z) (m : t) : t :=
  {| sequence := sequence m; name := name m; email := email m;
     phone := phone m; join_date := join_date m;
     max_borrow_limit := max_borrow_limit m; current_borrowed := n;
     member_status := member_status m |}.
End Member.

Module BorrowingRecord.
(** The fields of library.borrowing.record; [days_overdue] is the stored
    computed field (declared [readonly=False], so it may be written). *)
Record t := mk {
  sequence : string;
  member_id : positive;
  book_id : positive;
  librarian_id : positive;
  borrow_date : Z;
  expected_return_date : Z;
  actual_return_date : option Z;
  status : Status;
  days_overdue : Z;
  fine_amount : float;
  fine_per_day : float
}.

Record vals := mk_vals {
  v_sequence : option string;
  v_member_id : option positive;
  v_book_id : option positive;
  v_librarian_id : option positive;
  v_borrow_date : option Z;
  v_expected_return_date : option Z;
  v_actual_return_date : option Z;
  v_status : option Status;
  v_days_overdue : option Z;
  v_fine_amount : option float;
  v_fine_per_day : option float
}.

Definition no_vals : vals :=
  mk_vals None None None None None None None None None None None.

Definition apply (v : vals) (r : t) : t :=
  {| sequence := default (sequence r) (v_sequence v);
     member_id := default (member_id r) (v_member_id v);
     book_id := default (book_id r) (v_book_id v);
     librarian_id := default (librarian_id r) (v_librarian_id v);
     borrow_date := default (borrow_date r) (v_borrow_date v);
     expected_return_date :=
       default (expected_return_date r) (v_expected_return_date v);
     actual_return_date :=
       match v_actual_return_date v with
       | Some d => Some d
       | None => actual_return_date r
       end;
     status := default (status r) (v_status v);
     days_overdue := default (days_overdue r) (v_days_overdue v);
     fine_amount := default (fine_amount r) (v_fine_amount v);
     fine_per_day := default (fine_per_day r) (v_fine_per_day v) |}.

Definition set_days_overdue (n : Z) (r : t) : t :=
  {| sequence := sequence r; member_id := member_id r;
     book_id := book_id r; librarian_id := librarian_id r;
     borrow_date := borrow_date r;
     expected_return_date := expected_return_date r;
     actual_return_date := actual_return_date r; status := status r;
     days_overdue := n; fine_amount := fine_amount r;
     fine_per_day := fine_per_day r |}.
End BorrowingRecord.

(** ** The database

    The rows of the four tables. The sequences that number the members
    and the records and that hand out the ids are not part of the state:
    [create] takes the number as an argument and picks an id that is not
    in the table, where PostgreSQL takes the next value of a serial and
    so never gives the id of a deleted row again. *)

Record Env := mk_env {
  books : gmap positive Book.t;
  members : gmap positive Member.t;
  librarians : gset positive;
  records : gmap positive BorrowingRecord.t
}.

Definition empty_env : Env := mk_env ∅ ∅ ∅ ∅.

Definition set_books (f : gmap positive Book.t → gmap positive Book.t)
    (env : Env) : Env :=
  mk_env (f (books env)) (members env) (librarians env) (records env).

Definition set_members
    (f : gmap positive Member.t → gmap positive Member.t) (env : Env) : Env :=
  mk_env (books env) (f (members env)) (librarians env) (records env).

Definition set_librarians (f : gset positive → gset positive)
    (env : Env) : Env :=
  mk_env (books env) (members env) (f (librarians env)) (records env).

Definition set_records
    (f : gmap positive BorrowingRecord.t → gmap positive BorrowingRecord.t)
    (env : Env) : Env :=
  mk_env (books env) (members env) (librarians env) (f (records env)).

(** ** Exceptions and the monad of the methods *)

Inductive Exception :=
  | ValidationError (msg : string)
  | MissingError (model : string) (id : positive)
  | IntegrityError (constraint : string).

Definition M (A : Type) : Type := Env → Env * (Exception + A).

#[global] Instance M_ret : MRet M := λ A a env, (env, inr a).

#[global] Instance M_bind : MBind M :=
  λ A B k m env,
    match m env with
    | (env', inr a) => k a env'
    | (env', inl e) => (env', inl e)
    end.

Definition raise {A} (e : Exception) : M A := λ env, (env, inl e).

(** [self.env], read. *)
Definition ask : M Env := λ env, (env, inr env).

Definition modify (f : Env → Env) : M unit := λ env, (f env, inr tt).

Definition when (b : bool) (m : M unit) : M unit := if b then m else mret tt.

(** [for x in xs: body(x)] *)
Fixpoint for_each {A} (xs : list A) (body : A → M unit) : M unit :=
  match xs with
  | [] => mret tt
  | x :: xs' => body x;; for_each xs' body
  end.

(** A loop that updates local variables [acc]. *)
Fixpoint for_fold {A S} (xs : list A) (acc : S) (body : S → A → M S) : M S :=
  match xs with
  | [] => mret acc
  | x :: xs' => acc' ← body acc x; for_fold xs' acc' body
  end.

(** [try: body except Exception as e: handler(e)] *)
Definition try_except {A} (body : M A) (handler : Exception → M A) : M A :=
  λ env,
    match body env with
    | (env', inr a) => (env', inr a)
    | (env', inl e) => handler e env'
    end.

(** A call from outside: the transaction is rolled back when the method
    raises. *)
Definition transaction {A} (m : M A) : M A :=
  λ env,
    match m env with
    | (env', inr a) => (env', inr a)
    | (_, inl e) => (env, inl e)
    end.

(** ** The ORM: searching a table *)

Section table.
Context {A : Type}.
Implicit Types (tbl : gmap positive A) (domain : positive → A → bool).

(** The rows matching [domain], in the order [le] ([_order]). *)
Definition search_rows (le : relation (positive * A)) `{!RelDecision le}
    domain tbl : list (positive * A) :=
  merge_sort le (filter (λ p, Is_true (domain p.1 p.2)) (map_to_list tbl)).

(** [Model.search(domain)]: a recordset. *)
Definition search (le : relation (positive * A)) `{!RelDecision le}
    domain tbl : list positive :=
  (search_rows le domain tbl).*1.

(** [Model.search_count(domain)] *)
Definition search_count (le : relation (positive * A)) `{!RelDecision le}
    domain tbl : Z :=
  Z.of_nat (length (search le domain tbl)).

(** A UNIQUE constraint on the column [key]: the value [v] of row [id]
    is held by another row. *)
Definition unique_violation `{EqDecision K} (key : A → K) tbl
    (id : positive) (v : K) : bool :=
  bool_decide (Exists (λ p, p.1 ≠ id ∧ key p.2 = v) (map_to_list tbl)).
End table.

(** The default [_order] of a model: by id. *)
Definition by_id {A} : relation (positive * A) := λ p q, (p.1 ≤ q.1)%positive.

#[global] Instance by_id_dec {A} : RelDecision (@by_id A).
Proof. intros p q. unfold by_id. apply _. Defined.

(** [_order = 'borrow_date desc'] of library.borrowing.record. *)
Definition by_borrow_date_desc : relation (positive * BorrowingRecord.t) :=
  λ p q, BorrowingRecord.borrow_date q.2 ≤ BorrowingRecord.borrow_date p.2.

#[global] Instance by_borrow_date_desc_dec : RelDecision by_borrow_date_desc.
Proof. intros p q. unfold by_borrow_date_desc. apply _. Defined.

(** [x or 'New'] for the value of [next_by_code] ([None] is [False]). *)
Definition or_New (x : option string) : string :=
  match x with
  | Some s => if decide (s = "") then "New" else s
  | None => "New"
  end.

(** ** library.book (src/models/book.py) *)

Module library_book.
Import Book.

(** [book.borrowing_record_ids]: One2many, inverse of [book_id]. *)
Definition borrowing_record_ids (env : Env) (book : positive)
    : list (positive * BorrowingRecord.t) :=
  search_rows by_borrow_date_desc
    (λ _ r, bool_decide (BorrowingRecord.book_id r = book)) (records env).

(** [_compute_available_copies], for the book [id] with row [book]. *)
Definition _compute_available_copies (env : Env) (id : positive)
    (book : Book.t) : Z :=
  let unavailable_count :=
    length (filter (λ r, BorrowingRecord.status r.2 ∈ [borrowed; overdue])
              (borrowing_record_ids env id)) in
  Z.max 0 (total_copies book - Z.of_nat unavailable_count).

(** The database after the ORM has recomputed the stored field of
    book [id]. *)
Definition available_copies_recomputed (id : positive) (env : Env) : Env :=
  set_books
    (alter (λ b, set_available_copies (_compute_available_copies env id b) b)
       id) env.

Definition recompute_available_copies (id : positive) : M unit :=
  modify (available_copies_recomputed id).

(** [_check_isbn_unique]; the model has the field [active], so the
    search finds the books that are not archived only. *)
Definition _check_isbn_unique_row (id : positive) : M unit :=
  env ← ask;
  match books env !! id with
  | None => raise (MissingError "library.book" id)
  | Some book =>
      if decide (isbn book = "") then mret tt
      else
        let existing_book :=
          head (search_rows by_id
                  (λ i b, bool_decide (isbn b = isbn book)
                          && bool_decide (i ≠ id)
                          && active b) (books env)) in
        match existing_book with
        | Some (_, existing) =>
            raise (ValidationError
              ("A book with ISBN " +:+ isbn book +:+ " already exists: "
               +:+ dq +:+ title existing +:+ dq +:+ " by "
               +:+ author existing +:+ "."))
        | None => mret tt
        end
  end.

Definition _check_isbn_unique (self : list positive) : M unit :=
  for_each self _check_isbn_unique_row.

(** [create] (the ORM's; the model does not override it): the required
    columns, the defaults ([total_copies] 1, [active] True), the row
    inserted under the UNIQUE(isbn) constraint, which is over all the
    rows, archived or not, the stored field computed, the Python
    constraints checked. *)
Definition create (v : vals) : M positive :=
  env ← ask;
  match v_title v, v_author v, v_isbn v with
  | Some t, Some a, Some i =>
      let id := fresh (dom (books env)) in
      if unique_violation isbn (books env) id i
      then raise (IntegrityError "unique_isbn")
      else
        modify (set_books
                  <[id := mk t a i (default 1 (v_total_copies v)) 0
                            (default true (v_active v))]>);;
        recompute_available_copies id;;
        _check_isbn_unique [id];;
        mret id
  | _, _, _ => raise (IntegrityError "not_null")
  end.

(** [write] (the ORM's), row by row. *)
Definition write_row (v : vals) (id : positive) : M unit :=
  env ← ask;
  match books env !! id with
  | None => raise (MissingError "library.book" id)
  | Some book =>
      let book' := apply v book in
      if bool_decide (is_Some (v_isbn v))
         && unique_violation isbn (books env) id (isbn book')
      then raise (IntegrityError "unique_isbn")
      else
        modify (set_books <[id := book']>);;
        when (bool_decide (is_Some (v_total_copies v)))
          (recompute_available_copies id);;
        when (bool_decide (is_Some (v_isbn v))) (_check_isbn_unique [id])
  end.

Definition write (self : list positive) (v : vals) : M bool :=
  for_each self (write_row v);;
  mret true.

(** [unlink] (the ORM's): [book_id] of a borrowing record is declared
    [ondelete='restrict']. *)
Definition unlink_row (id : positive) : M unit :=
  env ← ask;
  if bool_decide (borrowing_record_ids env id = [])
  then modify (set_books (delete id))
  else raise (IntegrityError "library_borrowing_record_book_id_fkey").

Definition unlink (self : list positive) : M bool :=
  for_each self unlink_row;;
  mret true.
End library_book.

(** ** library.member (src/models/member.py) *)

Module library_member.
Import Member.

(** [member.borrowing_ids]: One2many, inverse of [member_id]. *)
Definition borrowing_ids (env : Env) (member : positive)
    : list (positive * BorrowingRecord.t) :=
  search_rows by_borrow_date_desc
    (λ _ r, bool_decide (BorrowingRecord.member_id r = member))
    (records env).

(** [_compute_current_borrowed] *)
Definition _compute_current_borrowed (env : Env) (id : positive) : Z :=
  Z.of_nat
    (length (filter (λ b, BorrowingRecord.status b.2 = borrowed)
               (borrowing_ids env id))).

(** The database after the ORM has recomputed the stored field of
    member [id]; it is also what
    [member._recompute_field('current_borrowed')] asks for. *)
Definition current_borrowed_recomputed (id : positive) (env : Env) : Env :=
  set_members
    (alter (set_current_borrowed (_compute_current_borrowed env id)) id) env.

Definition recompute_current_borrowed (id : positive) : M unit :=
  modify (current_borrowed_recomputed id).

(** [_check_phone_unique] *)
Definition _check_phone_unique_row (id : positive) : M unit :=
  env ← ask;
  match members env !! id with
  | None => raise (MissingError "library.member" id)
  | Some record =>
      if decide (phone record = "") then mret tt
      else
        let existing_member :=
          head (search_rows by_id
                  (λ i m, bool_decide (phone m = phone record)
                          && bool_decide (i ≠ id)
                          && bool_decide (member_status m ≠ inactive))
                  (members env)) in
        match existing_member with
        | Some (_, existing) =>
            raise (ValidationError
              ("Phone number '" +:+ phone record
               +:+ "' is already registered to member: "
               +:+ name existing +:+ " (" +:+ sequence existing +:+ "). "
               +:+ "Please use a different phone number or contact "
               +:+ "administrator if this is an error."))
        | None => mret tt
        end
  end.

Definition _check_phone_unique (self : list positive) : M unit :=
  for_each self _check_phone_unique_row.

(** The message of [_check_status_change_borrowing_limit]; [label] is
    Inactive or Pending. *)
Definition status_change_message (record : t) (label : string) : string :=
  "Cannot change member " +:+ dq +:+ name record +:+ dq +:+ " to "
  +:+ label +:+ " status. Member currently has "
  +:+ str_int (current_borrowed record) +:+ " borrowed books, but "
  +:+ label +:+ " members can only have maximum 5 books. "
  +:+ "Please ensure member returns "
  +:+ str_int (current_borrowed record - 5)
  +:+ " books before changing status.".

(** [_check_status_change_borrowing_limit] *)
Definition _check_status_change_borrowing_limit_row (id : positive)
    : M unit :=
  env ← ask;
  match members env !! id with
  | None => raise (MissingError "library.member" id)
  | Some record =>
      if bool_decide (member_status record = inactive)
         && (5 <? current_borrowed record)
      then raise (ValidationError (status_change_message record "Inactive"))
      else if bool_decide (member_status record = pending)
              && (5 <? current_borrowed record)
      then raise (ValidationError (status_change_message record "Pending"))
      else mret tt
  end.

Definition _check_status_change_borrowing_limit (self : list positive)
    : M unit :=
  for_each self _check_status_change_borrowing_limit_row.

(** [_onchange_member_status], on the record of the form. *)
Definition _onchange_member_status (self : t) : t :=
  match member_status self with
  | active => set_max_borrow_limit 10 self
  | inactive => set_max_borrow_limit 5 self
  | pending => set_max_borrow_limit 5 self
  end.

(** [super().write(vals)]: row by row, the values stored under the
    UNIQUE(phone) constraint, then the Python constraints of the fields
    that [vals] names. *)
Definition orm_write_row (v : vals) (id : positive) : M unit :=
  env ← ask;
  match members env !! id with
  | None => raise (MissingError "library.member" id)
  | Some record =>
      let record' := apply v record in
      if bool_decide (is_Some (v_phone v))
         && unique_violation phone (members env) id (phone record')
      then raise (IntegrityError "unique_phone")
      else
        modify (set_members <[id := record']>);;
        when (bool_decide (is_Some (v_phone v))) (_check_phone_unique [id]);;
        when (bool_decide (is_Some (v_member_status v)))
          (_check_status_change_borrowing_limit [id])
  end.

Definition orm_write (self : list positive) (v : vals) : M bool :=
  for_each self (orm_write_row v);;
  mret true.

Definition vals_max_borrow_limit (n : Z) : vals :=
  mk_vals None None None None None (Some n) None.

(** [write] *)
Definition write_limit_of_status (id : positive) : M unit :=
  env ← ask;
  match members env !! id with
  | None => raise (MissingError "library.member" id)
  | Some record =>
      match member_status record with
      | active => orm_write [id] (vals_max_borrow_limit 10);; mret tt
      | inactive => orm_write [id] (vals_max_borrow_limit 5);; mret tt
      | pending => orm_write [id] (vals_max_borrow_limit 5);; mret tt
      end
  end.

Definition write (self : list positive) (v : vals) : M bool :=
  result ← orm_write self v;
  when (bool_decide (is_Some (v_member_status v)))
    (for_each self write_limit_of_status);;
  mret result.

(** [super().create(vals)]: the required columns, the defaults of the
    fields ([sequence] 'New', [join_date] today, [max_borrow_limit] 5,
    [member_status] active), the row inserted under UNIQUE(phone), the
    stored field computed, the Python constraints checked. *)
Definition orm_create (today : Z) (v : vals) : M positive :=
  env ← ask;
  match v_name v, v_email v, v_phone v with
  | Some n, Some e, Some p =>
      let id := fresh (dom (members env)) in
      if unique_violation phone (members env) id p
      then raise (IntegrityError "unique_phone")
      else
        modify (set_members
                  <[id := mk (default "New" (v_sequence v)) n e p
                            (default today (v_join_date v))
                            (default 5 (v_max_borrow_limit v)) 0
                            (default active (v_member_status v))]>);;
        recompute_current_borrowed id;;
        _check_phone_unique [id];;
        _check_status_change_borrowing_limit [id];;
        mret id
  | _, _, _ => raise (IntegrityError "not_null")
  end.

Definition set_v_sequence (s : string) (v : vals) : vals :=
  mk_vals (Some s) (v_name v) (v_email v) (v_phone v) (v_join_date v)
    (v_max_borrow_limit v) (v_member_status v).

Definition set_v_max_borrow_limit (n : Z) (v : vals) : vals :=
  mk_vals (v_sequence v) (v_name v) (v_email v) (v_phone v) (v_join_date v)
    (Some n) (v_member_status v).

(** [create]; [next_by_code] is the value the sequence would return. *)
Definition create (today : Z) (next_by_code : option string) (v : vals)
    : M positive :=
  let v :=
    if decide (default "New" (v_sequence v) = "New")
    then set_v_sequence (or_New next_by_code) v else v in
  let v :=
    match v_member_status v with
    | Some active => set_v_max_borrow_limit 10 v
    | Some pending => set_v_max_borrow_limit 5 v
    | Some inactive => set_v_max_borrow_limit 5 v
    | None => v
    end in
  orm_create today v.

(** [unlink] (the ORM's): [member_id] of a borrowing record is declared
    [ondelete='restrict']. *)
Definition unlink_row (id : positive) : M unit :=
  env ← ask;
  if bool_decide (borrowing_ids env id = [])
  then modify (set_members (delete id))
  else raise (IntegrityError "library_borrowing_record_member_id_fkey").

Definition unlink (self : list positive) : M bool :=
  for_each self unlink_row;;
  mret true.

(** [check_borrow_limit] *)
Definition check_borrow_limit (id : positive) : M unit :=
  env ← ask;
  match members env !! id with
  | None => raise (MissingError "library.member" id)
  | Some self =>
      if max_borrow_limit self <=? current_borrowed self
      then raise (ValidationError
        ("Member " +:+ dq +:+ name self +:+ dq
         +:+ " has reached the borrowing limit of "
         +:+ str_int (max_borrow_limit self) +:+ " books."))
      else mret tt
  end.

(** The fields that [_compute_statistics] sets; they are not stored. *)
Record statistics := mk_statistics {
  total_books_borrowed : Z;
  total_fines : float;
  overdue_books_count : Z;
  returned_books_count : Z
}.

(** The record of [cron_review_member_status]: the recordsets it finds
    and logs. *)
Record review := mk_review {
  members_with_overdue : list positive;
  inactive_members : list positive;
  pending_members : list positive;
  all_members : list positive;
  high_overdue_members : list positive
}.

Section statistics.
(** [sum] is the built-in of Python; on floats its rounding depends on
    the version of the interpreter, so it is left open here. *)
Variable sum : list float → float.

(** [_compute_statistics], for the member [id]. *)
Definition _compute_statistics (env : Env) (id : positive) : statistics :=
  let borrowings := borrowing_ids env id in
  {| total_books_borrowed := Z.of_nat (length borrowings);
     total_fines := sum (BorrowingRecord.fine_amount <$> borrowings.*2);
     overdue_books_count :=
       Z.of_nat
         (length (filter (λ b, BorrowingRecord.status b.2 = overdue)
                    borrowings));
     returned_books_count :=
       Z.of_nat
         (length (filter (λ b, BorrowingRecord.status b.2 = returned)
                    borrowings)) |}.

(** The search methods of the four fields; the result is the list
    [member_ids] of the domain [('id', 'in', member_ids)] that the method
    returns. *)
Definition _search_total_books_borrowed (env : Env) (operator : string)
    (value : Z) : list positive :=
  let members := search by_id (λ _ _, true) (members env) in
  let stat m := total_books_borrowed (_compute_statistics env m) in
  if decide (operator = "=") then filter (λ m, stat m = value) members
  else if decide (operator = ">") then filter (λ m, value < stat m) members
  else if decide (operator = "<") then filter (λ m, stat m < value) members
  else if decide (operator = ">=") then filter (λ m, value ≤ stat m) members
  else if decide (operator = "<=") then filter (λ m, stat m ≤ value) members
  else [].

Definition _search_total_fines (env : Env) (operator : string)
    (value : float) : list positive :=
  let members := search by_id (λ _ _, true) (members env) in
  let stat m := total_fines (_compute_statistics env m) in
  if decide (operator = "=")
  then filter (λ m, Is_true (PrimFloat.eqb (stat m) value)) members
  else if decide (operator = ">")
  then filter (λ m, Is_true (PrimFloat.ltb value (stat m))) members
  else if decide (operator = "<")
  then filter (λ m, Is_true (PrimFloat.ltb (stat m) value)) members
  else if decide (operator = ">=")
  then filter (λ m, Is_true (PrimFloat.leb value (stat m))) members
  else if decide (operator = "<=")
  then filter (λ m, Is_true (PrimFloat.leb (stat m) value)) members
  else [].

Definition _search_overdue_books_count (env : Env) (operator : string)
    (value : Z) : list positive :=
  let members := search by_id (λ _ _, true) (members env) in
  let stat m := overdue_books_count (_compute_statistics env m) in
  if decide (operator = "=") then filter (λ m, stat m = value) members
  else if decide (operator = ">") then filter (λ m, value < stat m) members
  else if decide (operator = "<") then filter (λ m, stat m < value) members
  else if decide (operator = ">=") then filter (λ m, value ≤ stat m) members
  else if decide (operator = "<=") then filter (λ m, stat m ≤ value) members
  else [].

Definition _search_returned_books_count (env : Env) (operator : string)
    (value : Z) : list positive :=
  let members := search by_id (λ _ _, true) (members env) in
  let stat m := returned_books_count (_compute_statistics env m) in
  if decide (operator = "=") then filter (λ m, stat m = value) members
  else if decide (operator = ">") then filter (λ m, value < stat m) members
  else if decide (operator = "<") then filter (λ m, stat m < value) members
  else if decide (operator = ">=") then filter (λ m, value ≤ stat m) members
  else if decide (operator = "<=") then filter (λ m, stat m ≤ value) members
  else [].

(** What [cron_review_member_status] finds; the domain on
    [overdue_books_count] is answered by the search method of the field. *)
Definition review_member_status (env : Env) : review :=
  let members_with_overdue :=
    search by_id
      (λ i m, bool_decide (i ∈ _search_overdue_books_count env ">" 0)
              && bool_decide (member_status m = active)) (members env) in
  let inactive_members :=
    search by_id
      (λ _ m, bool_decide (member_status m = inactive)
              && (current_borrowed m =? 0)) (members env) in
  let pending_members :=
    search by_id (λ _ m, bool_decide (member_status m = pending))
      (members env) in
  let high_overdue_members :=
    filter (λ m, 3 ≤ overdue_books_count (_compute_statistics env m))
      members_with_overdue in
  {| members_with_overdue := members_with_overdue;
     inactive_members := inactive_members;
     pending_members := pending_members;
     all_members := search by_id (λ _ _, true) (members env);
     high_overdue_members := high_overdue_members |}.

(** [cron_review_member_status]: the recordsets found are logged (the
    log is not part of the database), and nothing is written. *)
Definition cron_review_member_status : M bool :=
  try_except
    (env ← ask;
     let logged := review_member_status env in
     mret true)
    (λ e, mret false).
End statistics.
End library_member.

(** ** library.librarian (src/models/librarian.py)

    The lifecycle only refers to a librarian by id; of the model we keep
    the creation of a row (its format checks on [employee_id], [email] and
    [hire_date] accept or refuse the row, and do not touch other tables). *)

Module library_librarian.
Definition create : M positive :=
  env ← ask;
  let id := fresh (librarians env) in
  modify (set_librarians (λ s, {[id]} ∪ s));;
  mret id.
End library_librarian.

(** ** library.borrowing.record (src/models/borrowing_record.py) *)

(** What an action method returns to the client. *)
Inductive Action :=
  | display_notification (title message type : string) (sticky : bool)
  | act_window (name res_model : string) (res_id : positive)
      (view_mode target : string) (context : list (string * bool)).

Module library_borrowing_record.
Import BorrowingRecord.

(** [_compute_days_overdue], for one record. *)
Definition _compute_days_overdue (today : Z) (record : t) : Z :=
  if bool_decide (status record ∈ [borrowed; overdue]) then
    let reference_date := today in
    if expected_return_date record <? reference_date
    then reference_date - expected_return_date record
    else 0
  else
    match status record, actual_return_date record with
    | returned, Some actual =>
        if expected_return_date record <? actual
        then actual - expected_return_date record
        else 0
    | _, _ => 0
    end.

(** [member_name] and [book_title], the related fields, as an f-string
    shows them. *)
Definition member_name (env : Env) (record : t) : string :=
  match members env !! member_id record with
  | Some m => Member.name m
  | None => "False"
  end.

Definition book_title (env : Env) (record : t) : string :=
  match books env !! book_id record with
  | Some b => Book.title b
  | None => "False"
  end.

(** [_check_return_date] *)
Definition _check_return_date_row (id : positive) : M unit :=
  env ← ask;
  match records env !! id with
  | None => raise (MissingError "library.borrowing.record" id)
  | Some record =>
      if expected_return_date record <=? borrow_date record
      then raise (ValidationError
             "Expected return date must be after the borrow date.")
      else mret tt
  end.

Definition _check_return_date (self : list positive) : M unit :=
  for_each self _check_return_date_row.

(** [_check_actual_return_date] *)
Definition _check_actual_return_date_row (id : positive) : M unit :=
  env ← ask;
  match records env !! id with
  | None => raise (MissingError "library.borrowing.record" id)
  | Some record =>
      match actual_return_date record with
      | Some actual =>
          if actual <? borrow_date record
          then raise (ValidationError
                 "Actual return date cannot be before the borrow date.")
          else mret tt
      | None => mret tt
      end
  end.

Definition _check_actual_return_date (self : list positive) : M unit :=
  for_each self _check_actual_return_date_row.

(** The foreign keys: the references that [vals] gives exist. *)
Definition references_exist (env : Env) (v : vals) : bool :=
  from_option (λ m, bool_decide (is_Some (members env !! m))) true
    (v_member_id v)
  && from_option (λ b, bool_decide (is_Some (books env !! b))) true
       (v_book_id v)
  && from_option (λ l, bool_decide (l ∈ librarians env)) true
       (v_librarian_id v).

(** [vals] names a field [days_overdue] depends on. *)
Definition touches_days_overdue (v : vals) : bool :=
  bool_decide (is_Some (v_expected_return_date v))
  || bool_decide (is_Some (v_actual_return_date v))
  || bool_decide (is_Some (v_status v)).

(** [super().create(vals)]: the required columns, the defaults
    ([sequence] 'New', [borrow_date] today, [status] borrowed,
    [fine_amount] 0.0, [fine_per_day] 5.0), the foreign keys, the row
    inserted with [days_overdue] computed unless given, the stored fields
    of the book and of the member recomputed, the Python constraints.
    The ORM validates the constraints declared on a stored computed field
    when it recomputes the field: [_check_status_change_borrowing_limit]
    of library.member is declared on [current_borrowed], so it runs on
    the member once the new record is counted, which is at the flush,
    after the constraints of the record. *)
Definition orm_create (today : Z) (v : vals) : M positive :=
  env ← ask;
  match v_member_id v, v_book_id v, v_librarian_id v,
        v_expected_return_date v with
  | Some m, Some b, Some l, Some e =>
      let id := fresh (dom (records env)) in
      let row :=
        mk (default "New" (v_sequence v)) m b l
          (default today (v_borrow_date v)) e (v_actual_return_date v)
          (default borrowed (v_status v)) 0
          (default 0%float (v_fine_amount v))
          (default 5%float (v_fine_per_day v)) in
      let row :=
        set_days_overdue
          (default (_compute_days_overdue today row) (v_days_overdue v))
          row in
      if references_exist env v then
        modify (set_records <[id := row]>);;
        library_book.recompute_available_copies b;;
        library_member.recompute_current_borrowed m;;
        _check_actual_return_date [id];;
        _check_return_date [id];;
        library_member._check_status_change_borrowing_limit [m];;
        mret id
      else raise (IntegrityError "foreign_key")
  | _, _, _, _ => raise (IntegrityError "not_null")
  end.

Definition set_v_sequence (s : string) (v : vals) : vals :=
  mk_vals (Some s) (v_member_id v) (v_book_id v) (v_librarian_id v)
    (v_borrow_date v) (v_expected_return_date v) (v_actual_return_date v)
    (v_status v) (v_days_overdue v) (v_fine_amount v) (v_fine_per_day v).

Definition set_v_status (s : Status) (v : vals) : vals :=
  mk_vals (v_sequence v) (v_member_id v) (v_book_id v) (v_librarian_id v)
    (v_borrow_date v) (v_expected_return_date v) (v_actual_return_date v)
    (Some s) (v_days_overdue v) (v_fine_amount v) (v_fine_per_day v).

(** The message of [create] when the member's limit is reached. *)
Definition limit_message (member : Member.t) : string :=
  "Member " +:+ dq +:+ Member.name member +:+ dq
  +:+ " has reached the borrowing limit of "
  +:+ str_int (Member.max_borrow_limit member) +:+ " books.".

(** The message of [create] when no copy is available. *)
Definition unavailable_message (book : Book.t) : string :=
  "Book " +:+ dq +:+ Book.title book +:+ dq
  +:+ " is not available for borrowing.".

(** The count [create] compares with the limit:
    [search_count([('member_id', '=', m), ('status', '=', 'borrowed')])]. *)
Definition count_borrowed (env : Env) (m : positive) : Z :=
  search_count by_borrow_date_desc
    (λ _ r, bool_decide (member_id r = m)
            && bool_decide (status r = borrowed)) (records env).

(** [create]; [next_by_code] is the value the sequence would return. *)
Definition create (today : Z) (next_by_code : option string) (v : vals)
    : M positive :=
  let v :=
    if decide (default "" (v_sequence v) = "" ∨ v_sequence v = Some "New")
    then set_v_sequence (or_New next_by_code) v else v in
  match v_member_id v with
  | Some m =>
      env ← ask;
      match members env !! m with
      | None => raise (MissingError "library.member" m)
      | Some member =>
          let current_borrowed := count_borrowed env m in
          if Member.max_borrow_limit member <=? current_borrowed
          then raise (ValidationError (limit_message member))
          else mret tt
      end
  | None => mret tt
  end;;
  match v_book_id v with
  | Some b =>
      env ← ask;
      match books env !! b with
      | None => raise (MissingError "library.book" b)
      | Some book =>
          if Book.available_copies book <? 1
          then raise (ValidationError (unavailable_message book))
          else mret tt
      end
  | None => mret tt
  end;;
  let v :=
    match v_expected_return_date v with
    | Some expected_date =>
        if expected_date <? today then set_v_status overdue v else v
    | None => v
    end in
  record ← orm_create today v;
  env ← ask;
  match records env !! record with
  | Some r => library_member.recompute_current_borrowed (member_id r)
  | None => mret tt
  end;;
  mret record.

(** The row [old] after [vals] is written to it: [days_overdue] is
    recomputed when a field it depends on is written and it is not. *)
Definition written (today : Z) (v : vals) (old : t) : t :=
  let new := apply v old in
  if touches_days_overdue v && bool_decide (v_days_overdue v = None)
  then set_days_overdue (_compute_days_overdue today new) new
  else new.

(** [super().write(vals)]: row by row, the values stored, [days_overdue]
    recomputed when a field it depends on is written and it is not,
    the stored fields of the books and members concerned recomputed, the
    Python constraints of the fields that [vals] names. The validation of
    the constraint of the member at the recomputation of
    [current_borrowed] is modelled in [orm_create] only, not here and not
    in [orm_unlink_row]: a write that does not raise the count of a
    member (a return, the sweeps) and a deletion pass it wherever the
    pending and the inactive members have at most five borrowed books. *)
Definition orm_write_row (today : Z) (v : vals) (id : positive) : M unit :=
  env ← ask;
  match records env !! id with
  | None => raise (MissingError "library.borrowing.record" id)
  | Some old =>
      let new := written today v old in
      if references_exist env v then
        modify (set_records <[id := new]>);;
        when (bool_decide (is_Some (v_status v))
              || bool_decide (is_Some (v_book_id v)))
          (library_book.recompute_available_copies (book_id old);;
           library_book.recompute_available_copies (book_id new));;
        when (bool_decide (is_Some (v_status v))
              || bool_decide (is_Some (v_member_id v)))
          (library_member.recompute_current_borrowed (member_id old);;
           library_member.recompute_current_borrowed (member_id new));;
        when (bool_decide (is_Some (v_actual_return_date v))
              || bool_decide (is_Some (v_borrow_date v)))
          (_check_actual_return_date [id]);;
        when (bool_decide (is_Some (v_expected_return_date v))
              || bool_decide (is_Some (v_borrow_date v)))
          (_check_return_date [id])
      else raise (IntegrityError "foreign_key")
  end.

Definition orm_write (today : Z) (self : list positive) (v : vals)
    : M bool :=
  for_each self (orm_write_row today v);;
  mret true.

(** [record.member_id._recompute_field('current_borrowed')] *)
Definition recompute_member_of (id : positive) : M unit :=
  env ← ask;
  match records env !! id with
  | None => raise (MissingError "library.borrowing.record" id)
  | Some record =>
      library_member.recompute_current_borrowed (member_id record)
  end.

(** [write] *)
Definition write (today : Z) (self : list positive) (v : vals) : M bool :=
  result ← orm_write today self v;
  when (bool_decide (is_Some (v_status v)))
    (for_each self recompute_member_of);;
  mret result.

(** [super().unlink()]: the rows deleted, the stored fields of their
    book and member recomputed. *)
Definition orm_unlink_row (id : positive) : M unit :=
  env ← ask;
  match records env !! id with
  | None => mret tt
  | Some record =>
      modify (set_records (delete id));;
      library_book.recompute_available_copies (book_id record);;
      library_member.recompute_current_borrowed (member_id record)
  end.

Definition orm_unlink (self : list positive) : M bool :=
  for_each self orm_unlink_row;;
  mret true.

(** The message of [unlink] for a record not yet returned. *)
Definition unlink_message (env : Env) (record : t) : string :=
  "Cannot delete borrowing record " +:+ dq +:+ sequence record +:+ dq
  +:+ " for " +:+ dq +:+ member_name env record +:+ " - "
  +:+ book_title env record +:+ dq
  +:+ ". The book has not been returned yet (Status: "
  +:+ status_title (status record)
  +:+ "). Please return the book first before deleting this record.".

(** [unlink] *)
Definition unlink_check (id : positive) : M unit :=
  env ← ask;
  match records env !! id with
  | None => raise (MissingError "library.borrowing.record" id)
  | Some record =>
      if bool_decide (status record ∈ [borrowed; overdue])
      then raise (ValidationError (unlink_message env record))
      else mret tt
  end.

Definition unlink (self : list positive) : M bool :=
  for_each self unlink_check;;
  orm_unlink self.

Definition vals_return (return_date : Z) (fine_amount : float) : vals :=
  mk_vals None None None None None None (Some return_date) (Some returned)
    None (Some fine_amount) None.

(** [action_return_book], on the record [id] ([ensure_one]). *)
Definition action_return_book (today : Z) (id : positive) : M Action :=
  env ← ask;
  match records env !! id with
  | None => raise (MissingError "library.borrowing.record" id)
  | Some self =>
      if bool_decide (status self = returned)
      then raise (ValidationError "This book has already been returned.")
      else
        let return_date := today in
        let fine_amount :=
          if expected_return_date self <? return_date
          then
            let days_overdue := return_date - expected_return_date self in
            int_mul_float days_overdue (fine_per_day self)
          else 0%float in
        write today [id] (vals_return return_date fine_amount);;
        mret (display_notification "Book Returned"
                ("Book returned successfully. Fine: RM "
                 +:+ format_2f fine_amount)
                "success" false)
  end.

(** [action_extend_due_date], on the record [id] ([ensure_one]). *)
Definition action_extend_due_date (id : positive) : M Action :=
  env ← ask;
  match records env !! id with
  | None => raise (MissingError "library.borrowing.record" id)
  | Some self =>
      if bool_decide (status self ≠ borrowed)
      then raise (ValidationError
             "Can only extend due date for borrowed books.")
      else
        mret (act_window "Extend Due Date" "library.borrowing.record" id
                "form" "new" [("extend_due_date", true)])
  end.

Definition vals_status (s : Status) : vals :=
  mk_vals None None None None None None None (Some s) None None None.

(** The domain [('status', '=', s), ('expected_return_date', '<', today)]. *)
Definition past_due (s : Status) (today : Z) (_ : positive) (r : t) : bool :=
  bool_decide (status r = s) && (expected_return_date r <? today).

(** [update_overdue_records] *)
Definition update_overdue_records (today : Z) : M bool :=
  env ← ask;
  let overdue_records :=
    search by_borrow_date_desc (past_due borrowed today) (records env) in
  write today overdue_records (vals_status overdue);;
  mret true.

Definition vals_overdue_fine (fine_amount : float) (days_overdue : Z)
    : vals :=
  mk_vals None None None None None None None (Some overdue)
    (Some days_overdue) (Some fine_amount) None.

Definition vals_fine (fine_amount : float) (days_overdue : Z) : vals :=
  mk_vals None None None None None None None None
    (Some days_overdue) (Some fine_amount) None.

(** The body of the first loop of [cron_calculate_overdue_fines];
    [totals] is [(total_updated, total_fines_calculated)]. *)
Definition cron_turn_overdue (today : Z) (totals : Z * float)
    (id : positive) : M (Z * float) :=
  env ← ask;
  match records env !! id with
  | None => raise (MissingError "library.borrowing.record" id)
  | Some record =>
      let days_overdue := today - expected_return_date record in
      let fine_amount := int_mul_float days_overdue (fine_per_day record) in
      write today [id] (vals_overdue_fine fine_amount days_overdue);;
      mret (totals.1 + 1, PrimFloat.add totals.2 fine_amount)
  end.

(** [record.fine_amount != new_fine_amount
     or record.days_overdue != days_overdue] *)
Definition fine_changed (today : Z) (record : t) : bool :=
  float_ne (fine_amount record)
    (int_mul_float (today - expected_return_date record)
       (fine_per_day record))
  || int_ne (days_overdue record) (today - expected_return_date record).

(** The body of the second loop. *)
Definition cron_update_fine (today : Z) (totals : Z * float)
    (id : positive) : M (Z * float) :=
  env ← ask;
  match records env !! id with
  | None => raise (MissingError "library.borrowing.record" id)
  | Some record =>
      let days_overdue := today - expected_return_date record in
      let new_fine_amount :=
        int_mul_float days_overdue (fine_per_day record) in
      if fine_changed today record
      then
        write today [id] (vals_fine new_fine_amount days_overdue);;
        mret (totals.1 + 1, PrimFloat.add totals.2 new_fine_amount)
      else mret totals
  end.

(** The body of the [try] of [cron_calculate_overdue_fines]; it returns
    the two totals that the method logs. *)
Definition cron_calculate_overdue_fines_body (today : Z) : M (Z * float) :=
  env ← ask;
  let overdue_records :=
    search by_borrow_date_desc (past_due borrowed today) (records env) in
  totals ← for_fold overdue_records (0, 0%float) (cron_turn_overdue today);
  env ← ask;
  let existing_overdue :=
    search by_borrow_date_desc (past_due overdue today) (records env) in
  for_fold existing_overdue totals (cron_update_fine today).

(** [cron_calculate_overdue_fines] *)
Definition cron_calculate_overdue_fines (today : Z) : M bool :=
  try_except
    (cron_calculate_overdue_fines_body today;; mret true)
    (λ e, mret false).

(** [action_test_cron_fine_calculation] *)
Definition action_test_cron_fine_calculation : M Action :=
  mret (display_notification "Cron Test"
          "Fine calculation completed. Check logs for details."
          "info" false).
End library_borrowing_record.

(** ** The calls a client can make, and the states they reach *)

Inductive Op :=
  | Book_create (v : Book.vals)
  | Book_write (self : list positive) (v : Book.vals)
  | Book_unlink (self : list positive)
  | Member_create (next_by_code : option string) (v : Member.vals)
  | Member_write (self : list positive) (v : Member.vals)
  | Member_unlink (self : list positive)
  | Librarian_create
  | Record_create (next_by_code : option string) (v : BorrowingRecord.vals)
  | Record_write (self : list positive) (v : BorrowingRecord.vals)
  | Record_unlink (self : list positive)
  | Record_action_return_book (id : positive)
  | Record_action_extend_due_date (id : positive)
  | Record_update_overdue_records
  | Record_cron_calculate_overdue_fines.

Definition run (today : Z) (op : Op) : M unit :=
  match op with
  | Book_create v => library_book.create v;; mret tt
  | Book_write self v => library_book.write self v;; mret tt
  | Book_unlink self => library_book.unlink self;; mret tt
  | Member_create seq v => library_member.create today seq v;; mret tt
  | Member_write self v => library_member.write self v;; mret tt
  | Member_unlink self => library_member.unlink self;; mret tt
  | Librarian_create => library_librarian.create;; mret tt
  | Record_create seq v => library_borrowing_record.create today seq v;; mret tt
  | Record_write self v => library_borrowing_record.write today self v;; mret tt
  | Record_unlink self => library_borrowing_record.unlink self;; mret tt
  | Record_action_return_book id =>
      library_borrowing_record.action_return_book today id;; mret tt
  | Record_action_extend_due_date id =>
      library_borrowing_record.action_extend_due_date id;; mret tt
  | Record_update_overdue_records =>
      library_borrowing_record.update_overdue_records today;; mret tt
  | Record_cron_calculate_overdue_fines =>
      library_borrowing_record.cron_calculate_overdue_fines today;; mret tt
  end.

(** The state after the call of [op] on the day [today]. *)
Definition call (today : Z) (op : Op) (env : Env) : Env :=
  (transaction (run today op) env).1.

(** The states reached from the empty database. *)
Inductive reachable : Env → Prop :=
  | reachable_empty : reachable empty_env
  | reachable_call env today op :
      reachable env → reachable (call today op env).

(** The state after a list of calls, each with its day. *)
Definition calls (ops : list (Z * Op)) (env : Env) : Env :=
  foldl (λ env op, call op.1 op.2 env) env ops.

(** ** What the properties are stated with *)

(** The number of borrowing records of [book] that are out: status
    borrowed or overdue. *)
Definition unavailable_count (env : Env) (book : positive) : nat :=
  size (filter (λ p : positive * BorrowingRecord.t,
                  BorrowingRecord.book_id p.2 = book
                  ∧ (BorrowingRecord.status p.2 = borrowed
                     ∨ BorrowingRecord.status p.2 = overdue))
          (records env)).

(** The number of borrowing records of [member] with status [s]. *)
Definition count_status (env : Env) (member : positive) (s : Status) : nat :=
  size (filter (λ p : positive * BorrowingRecord.t,
                  BorrowingRecord.member_id p.2 = member
                  ∧ BorrowingRecord.status p.2 = s)
          (records env)).

(** The stored [available_copies] of every book is what
    [_compute_available_copies] gives. *)
Definition books_computed (env : Env) : Prop :=
  ∀ id book, books env !! id = Some book →
    Book.available_copies book
    = library_book._compute_available_copies env id book.

(** The stored [current_borrowed] of every member is what
    [_compute_current_borrowed] gives. *)
Definition members_computed (env : Env) : Prop :=
  ∀ id member, members env !! id = Some member →
    Member.current_borrowed member
    = library_member._compute_current_borrowed env id.

(** The same, but for the books in [bs] and the members in [ms], whose
    stored fields are still to be recomputed. *)
Definition computed_except (bs ms : gset positive) (env : Env) : Prop :=
  (∀ id book, id ∉ bs → books env !! id = Some book →
     Book.available_copies book
     = library_book._compute_available_copies env id book)
  ∧ (∀ id member, id ∉ ms → members env !! id = Some member →
       Member.current_borrowed member
       = library_member._compute_current_borrowed env id).

(** The date constraints that a write of [v] checks hold of the row [r]. *)
Definition dates_accepted (v : BorrowingRecord.vals) (r : BorrowingRecord.t)
    : Prop :=
  (is_Some (BorrowingRecord.v_actual_return_date v)
   ∨ is_Some (BorrowingRecord.v_borrow_date v) →
   ∀ actual, BorrowingRecord.actual_return_date r = Some actual →
     BorrowingRecord.borrow_date r ≤ actual)
  ∧ (is_Some (BorrowingRecord.v_expected_return_date v)
     ∨ is_Some (BorrowingRecord.v_borrow_date v) →
     BorrowingRecord.borrow_date r < BorrowingRecord.expected_return_date r).

(** The days by which a return on the day [today] is late:
    [max(0, today - expected_return_date)]. *)
Definition days_late (today : Z) (r : BorrowingRecord.t) : Z :=
  Z.max 0 (today - BorrowingRecord.expected_return_date r).

(** The fine of a return on the day [today]: the days late times the
    rate of the record, and exactly 0 when the return is not late. *)
Definition fine_due (today : Z) (r : BorrowingRecord.t) : float :=
  if days_late today r =? 0 then 0%float
  else int_mul_float (days_late today r) (BorrowingRecord.fine_per_day r).

(** The record [r] once returned on the day [today]. *)
Definition returned_on (today : Z) (r : BorrowingRecord.t)
    : BorrowingRecord.t :=
  BorrowingRecord.mk (BorrowingRecord.sequence r)
    (BorrowingRecord.member_id r) (BorrowingRecord.book_id r)
    (BorrowingRecord.librarian_id r) (BorrowingRecord.borrow_date r)
    (BorrowingRecord.expected_return_date r) (Some today) returned
    (days_late today r) (fine_due today r) (BorrowingRecord.fine_per_day r).

(** ** A small library, for the examples

    One book with two copies, one active member, one librarian, and a loan
    made on day 100 and due on day 110. *)

Definition demo_book : Book.vals :=
  Book.mk_vals (Some "Dune") (Some "Frank Herbert") (Some "9780441172719")
    (Some 2) None.

Definition demo_member : Member.vals :=
  Member.mk_vals None (Some "Ann") (Some "ann@example.org")
    (Some "0123456789") None None (Some active).

Definition demo_loan : BorrowingRecord.vals :=
  BorrowingRecord.mk_vals None (Some 1%positive) (Some 1%positive)
    (Some 1%positive) (Some 100) (Some 110) None None None None None.

Definition demo_setup : list (Z * Op) :=
  [(100, Book_create demo_book);
   (100, Member_create (Some "LM0001") demo_member);
   (100, Librarian_create);
   (100, Record_create (Some "BR0001") demo_loan)].

Definition demo_env : Env := calls demo_setup empty_env.

(** The loan of [demo_env]. *)
Definition demo_record : BorrowingRecord.t :=
  BorrowingRecord.mk "BR0001" 1 1 1 100 110 None borrowed 0 0%float 5%float.

(** The same library after the fine sweep of day 113. *)
Definition demo_env_overdue : Env :=
  call 113 Record_cron_calculate_overdue_fines demo_env.

Definition demo_record_overdue : BorrowingRecord.t :=
  BorrowingRecord.mk "BR0001" 1 1 1 100 110 None overdue 3 15%float 5%float.

(** The demo library once the book is left with a single copy, which the
    loan holds. *)
Definition demo_env_full : Env :=
  call 100
    (Book_write [1%positive] (Book.mk_vals None None None (Some 1) None))
    demo_env.

Definition demo_member_row : Member.t :=
  Member.mk "LM0001" "Ann" "ann@example.org" "0123456789" 100 10 1 active.

Definition demo_book_full : Book.t :=
  Book.mk "Dune" "Frank Herbert" "9780441172719" 1 0 true.

(** A library where the member holds six loans of a book with ten
    copies, and the same library once the first loan is returned. *)
Definition demo_six_setup : list (Z * Op) :=
  [(100, Book_create
           (Book.mk_vals (Some "Dune") (Some "Frank Herbert")
              (Some "9780441172719") (Some 10) None));
   (100, Member_create (Some "LM0001") demo_member);
   (100, Librarian_create)]
  ++ replicate 6 (100, Record_create (Some "BR") demo_loan).

Definition demo_env_six : Env := calls demo_six_setup empty_env.

Definition demo_env_five : Env :=
  call 105 (Record_action_return_book 1) demo_env_six.

Definition demo_member_six : Member.t :=
  Member.mk "LM0001" "Ann" "ann@example.org" "0123456789" 100 10 6 active.

Definition demo_member_five : Member.t :=
  Member.mk "LM0001" "Ann" "ann@example.org" "0123456789" 100 10 5 active.

(** [write({'member_status': s})] *)
Definition vals_member_status (s : MemberStatus) : Member.vals :=
  Member.mk_vals None None None None None None (Some s).

(** A member created without [member_status] in the values. *)
Definition demo_member_no_status : Member.vals :=
  Member.mk_vals None (Some "Ann") (Some "ann@example.org")
    (Some "0123456789") None None None.

Definition demo_env_no_status : Env :=
  call 100 (Member_create (Some "LM0001") demo_member_no_status) empty_env.

(** A library whose only member is inactive, and a new member with the
    same phone number. *)
Definition demo_member_inactive : Member.vals :=
  Member.mk_vals None (Some "Ann") (Some "ann@example.org")
    (Some "0123456789") None None (Some inactive).

Definition demo_env_inactive : Env :=
  call 100 (Member_create (Some "LM0001") demo_member_inactive) empty_env.

Definition demo_member_same_phone : Member.vals :=
  Member.mk_vals None (Some "Bob") (Some "bob@example.org")
    (Some "0123456789") None None (Some active).

Definition demo_member_overdue : Member.t :=
  Member.mk "LM0001" "Ann" "ann@example.org" "0123456789" 100 10 0 active.

Definition demo_book_row : Book.t :=
  Book.mk "Dune" "Frank Herbert" "9780441172719" 2 1 true.

(** A library with one book, entered with a negative number of copies. *)
Definition demo_env_negative : Env :=
  call 100
    (Book_create
       (Book.mk_vals (Some "Dune") (Some "Frank Herbert")
          (Some "9780441172719") (Some (-1)) None))
    empty_env.

Definition demo_member_inactive_row : Member.t :=
  Member.mk "LM0001" "Ann" "ann@example.org" "0123456789" 100 5 0 inactive.

(** The demo library once the member is made pending. *)
Definition demo_env_pending : Env :=
  call 101 (Member_write [1%positive] (vals_member_status pending)) demo_env.

(** [s] occurs in [msg]. *)
Definition contains (msg s : string) : Prop :=
  ∃ before after, msg = before +:+ s +:+ after.

(** The same, decided: [s] is found at the head of [msg], or further
    on. *)
Fixpoint starts_with (s msg : string) : bool :=
  match s, msg with
  | EmptyString, _ => true
  | String a s', String b msg' => Ascii.eqb a b && starts_with s' msg'
  | String _ _, EmptyString => false
  end.

Fixpoint occurs (s msg : string) : bool :=
  starts_with s msg
  || match msg with
     | EmptyString => false
     | String _ msg' => occurs s msg'
     end.

(** A computation that leaves the database as it is, whatever it returns
    or raises. *)
Definition read_only {A} (m : M A) : Prop := ∀ env, (m env).1 = env.

(** A Hoare triple with a postcondition for the result and one for the
    exception. *)
Definition triple {A} (P : Env → Prop) (m : M A) (Q : A → Env → Prop)
    (E : Exception → Env → Prop) : Prop :=
  ∀ env, P env →
    match m env with
    | (env', inr a) => Q a env'
    | (env', inl e) => E e env'
    end.

(** What the fine sweep of the day [today] does to a record: the first
    loop to a borrowed record that is past due, the second loop to an
    overdue record that is past due. *)
Definition turned_overdue (today : Z) (r : BorrowingRecord.t)
    : BorrowingRecord.t :=
  BorrowingRecord.apply
    (library_borrowing_record.vals_overdue_fine
       (int_mul_float (today - BorrowingRecord.expected_return_date r)
          (BorrowingRecord.fine_per_day r))
       (today - BorrowingRecord.expected_return_date r)) r.

Definition fine_updated (today : Z) (r : BorrowingRecord.t)
    : BorrowingRecord.t :=
  if library_borrowing_record.fine_changed today r
  then
    BorrowingRecord.apply
      (library_borrowing_record.vals_fine
         (int_mul_float (today - BorrowingRecord.expected_return_date r)
            (BorrowingRecord.fine_per_day r))
         (today - BorrowingRecord.expected_return_date r)) r
  else r.

Definition sweep_borrowed (today : Z) (r : BorrowingRecord.t)
    : BorrowingRecord.t :=
  if library_borrowing_record.past_due borrowed today 1 r
  then turned_overdue today r else r.

Definition sweep_overdue (today : Z) (r : BorrowingRecord.t)
    : BorrowingRecord.t :=
  if library_borrowing_record.past_due overdue today 1 r
  then fine_updated today r else r.

(** ** What the further properties are stated with *)

(** A computation that leaves the part [f] of the database as it is,
    whatever it returns or raises. *)
Definition keeps {X A} (f : Env → X) (m : M A) : Prop :=
  ∀ env, f (m env).1 = f env.

(** The column [isbn] of library.book, and the column [phone] of
    library.member. *)
Definition isbns (env : Env) : gmap positive string :=
  Book.isbn <$> books env.

Definition phones (env : Env) : gmap positive string :=
  Member.phone <$> members env.

(** No value of the column is held by two rows. *)
Definition unique_column (column : gmap positive string) : Prop :=
  ∀ i j x, column !! i = Some x → column !! j = Some x → i = j.

(** The dates of a record are in order: it is due after the day it was
    borrowed, and it was not returned before that day. *)
Definition dates_ordered (r : BorrowingRecord.t) : Prop :=
  BorrowingRecord.borrow_date r < BorrowingRecord.expected_return_date r
  ∧ ∀ actual, BorrowingRecord.actual_return_date r = Some actual →
      BorrowingRecord.borrow_date r ≤ actual.

(** The ids of the books and of the members, and the librarians. *)
Definition shape (env : Env)
    : gset positive * gset positive * gset positive :=
  (dom (books env), dom (members env), librarians env).

(** Every borrowing record refers to a member, a book and a librarian
    that exist. *)
Definition references_hold (env : Env) : Prop :=
  ∀ id r, records env !! id = Some r →
    is_Some (members env !! BorrowingRecord.member_id r)
    ∧ is_Some (books env !! BorrowingRecord.book_id r)
    ∧ BorrowingRecord.librarian_id r ∈ librarians env.

(** The message of [_check_isbn_unique], for the book [existing] found
    with the ISBN of [book]. *)
Definition isbn_message (book existing : Book.t) : string :=
  "A book with ISBN " +:+ Book.isbn book +:+ " already exists: "
  +:+ dq +:+ Book.title existing +:+ dq +:+ " by "
  +:+ Book.author existing +:+ ".".

(** The message of [_check_phone_unique], for the member [existing] found
    with the phone number of [record]. *)
Definition phone_message (record existing : Member.t) : string :=
  "Phone number '" +:+ Member.phone record
  +:+ "' is already registered to member: "
  +:+ Member.name existing +:+ " (" +:+ Member.sequence existing +:+ "). "
  +:+ "Please use a different phone number or contact "
  +:+ "administrator if this is an error.".

(** The record of a new loan: the row that [create] stores on the day
    [today] for values [v] that give the member [m], the book [b], the
    librarian [l] and the expected return date [e], and neither a status
    nor an actual return date; [next_by_code] is the number that the
    sequence gives. *)
Definition new_loan (today : Z) (next_by_code : option string)
    (v : BorrowingRecord.vals) (m b l : positive) (e : Z)
    : BorrowingRecord.t :=
  BorrowingRecord.mk
    (if decide (default "" (BorrowingRecord.v_sequence v) = ""
                ∨ BorrowingRecord.v_sequence v = Some "New")
     then or_New next_by_code
     else default "New" (BorrowingRecord.v_sequence v))
    m b l (default today (BorrowingRecord.v_borrow_date v)) e None
    (if e <? today then overdue else borrowed)
    (default (Z.max 0 (today - e)) (BorrowingRecord.v_days_overdue v))
    (default 0%float (BorrowingRecord.v_fine_amount v))
    (default 5%float (BorrowingRecord.v_fine_per_day v)).

(** What [update_overdue_records] of the day [today] does to a record:
    a borrowed record that is past due is marked overdue, with the days
    it is late; the fine is left as it is. *)
Definition marked_overdue (today : Z) (r : BorrowingRecord.t)
    : BorrowingRecord.t :=
  BorrowingRecord.mk (BorrowingRecord.sequence r)
    (BorrowingRecord.member_id r) (BorrowingRecord.book_id r)
    (BorrowingRecord.librarian_id r) (BorrowingRecord.borrow_date r)
    (BorrowingRecord.expected_return_date r)
    (BorrowingRecord.actual_return_date r) overdue
    (today - BorrowingRecord.expected_return_date r)
    (BorrowingRecord.fine_amount r) (BorrowingRecord.fine_per_day r).

Definition sweep_status (today : Z) (r : BorrowingRecord.t)
    : BorrowingRecord.t :=
  if library_borrowing_record.past_due borrowed today 1 r
  then marked_overdue today r else r.

(** The record [r] once the fine sweep of the day [today] has charged it
    the fine [fine]: it is overdue, by the days it is late. *)
Definition charged (today : Z) (fine : float) (r : BorrowingRecord.t)
    : BorrowingRecord.t :=
  BorrowingRecord.mk (BorrowingRecord.sequence r)
    (BorrowingRecord.member_id r) (BorrowingRecord.book_id r)
    (BorrowingRecord.librarian_id r) (BorrowingRecord.borrow_date r)
    (BorrowingRecord.expected_return_date r)
    (BorrowingRecord.actual_return_date r) overdue
    (days_late today r) fine (BorrowingRecord.fine_per_day r).

(** The comparison that a search method of library.member makes for
    [operator]; no other operator is answered. *)
Definition compares (operator : string) (x value : Z) : Prop :=
  (operator = "=" ∧ x = value) ∨ (operator = ">" ∧ value < x)
  ∨ (operator = "<" ∧ x < value) ∨ (operator = ">=" ∧ value ≤ x)
  ∨ (operator = "<=" ∧ x ≤ value).

(** The same on floats, with the IEEE comparisons. *)
Definition compares_float (operator : string) (x value : float) : Prop :=
  (operator = "=" ∧ PrimFloat.eqb x value = true)
  ∨ (operator = ">" ∧ PrimFloat.ltb value x = true)
  ∨ (operator = "<" ∧ PrimFloat.ltb x value = true)
  ∨ (operator = ">=" ∧ PrimFloat.leb value x = true)
  ∨ (operator = "<=" ∧ PrimFloat.leb x value = true).

(** ** More of the demo library *)

(** The demo library once the limit of the member is set to 1, which
    the loan reaches. *)
Definition demo_env_limit : Env :=
  call 101
    (Member_write [1%positive] (library_member.vals_max_borrow_limit 1))
    demo_env.

Definition demo_member_limit : Member.t :=
  Member.mk "LM0001" "Ann" "ann@example.org" "0123456789" 100 1 1 active.

(** The library with a single copy, which is out, once the limit of the
    member is set to 1 as well: the member has reached the limit and the
    book has no copy left. *)
Definition demo_env_full_limit : Env :=
  call 101
    (Member_write [1%positive] (library_member.vals_max_borrow_limit 1))
    demo_env_full.

(** Two books with the same ISBN, and two members with the same phone
    number, as no call leaves them: the tables are written directly. In
    [demo_env_archived_isbn] the first of the two books is archived. *)
Definition demo_book_second : Book.t :=
  Book.mk "Dune (2nd ed.)" "F. Herbert" "9780441172719" 1 1 true.

Definition demo_env_same_isbn : Env :=
  set_books <[2%positive := demo_book_second]> demo_env.

Definition demo_env_archived_isbn : Env :=
  set_books <[2%positive := demo_book_second]>
    (call 101
       (Book_write [1%positive]
          (Book.mk_vals None None None None (Some false)))
       demo_env).

Definition demo_env_same_phone : Env :=
  set_members
    <[2%positive := Member.mk "LM0002" "Bob" "bob@example.org" "0123456789"
                      101 10 0 active]>
    demo_env.

Definition demo_member_bob : Member.t :=
  Member.mk "LM0002" "Bob" "bob@example.org" "0123456789" 101 10 0 active.

(** A second loan of the demo library, made on day 101 and due on day
    111. *)
Definition demo_second_loan : BorrowingRecord.vals :=
  BorrowingRecord.mk_vals None (Some 1%positive) (Some 1%positive)
    (Some 1%positive) None (Some 111) None None None None None.

(** A library where the member holds five loans of a book with ten
    copies, is then made pending, and is given the limit 10 again. *)
Definition demo_pending_setup : list (Z * Op) :=
  [(100, Book_create
           (Book.mk_vals (Some "Dune") (Some "Frank Herbert")
              (Some "9780441172719") (Some 10) None));
   (100, Member_create (Some "LM0001") demo_member);
   (100, Librarian_create)]
  ++ replicate 5 (100, Record_create (Some "BR") demo_loan)
  ++ [(101, Member_write [1%positive] (vals_member_status pending));
      (101, Member_write [1%positive]
              (library_member.vals_max_borrow_limit 10))].

Definition demo_env_pending_five : Env := calls demo_pending_setup empty_env.

Definition demo_member_pending_five : Member.t :=
  Member.mk "LM0001" "Ann" "ann@example.org" "0123456789" 100 10 5 pending.

(** A second book, with the ISBN of the book of the demo library, and
    the demo library with another book. *)
Definition demo_book_same_isbn : Book.vals :=
  Book.mk_vals (Some "Dune Messiah") (Some "Frank Herbert")
    (Some "9780441172719") None None.

Definition demo_env_two_books : Env :=
  call 101
    (Book_create
       (Book.mk_vals (Some "Emma") (Some "Jane Austen") (Some "9780141439587")
          None None))
    demo_env.

(** * Properties *)

(** ** The monad *)

Lemma run_bind {A B} (m : M A) (k : A → M B) env :
  (m ≫= k) env
  = match m env with
    | (env', inr a) => k a env'
    | (env', inl e) => (env', inl e)
    end.
Proof. reflexivity. Qed.

Lemma run_for_each_cons {A} (x : A) xs body env :
  for_each (x :: xs) body env
  = match body x env with
    | (env', inr _) => for_each xs body env'
    | (env', inl e) => (env', inl e)
    end.
Proof. reflexivity. Qed.

Section triples.
Context {A : Type}.
Implicit Types (P : Env → Prop) (Q : A → Env → Prop)
  (E : Exception → Env → Prop).

Lemma triple_ret P Q E (a : A) :
  (∀ env, P env → Q a env) → triple P (mret a) Q E.
Proof. intros H env HP. by apply H. Qed.

Lemma triple_raise P Q E e :
  (∀ env, P env → E e env) → triple P (raise e : M A) Q E.
Proof. intros H env HP. by apply H. Qed.

Lemma triple_conseq P P' Q Q' E E' (m : M A) :
  triple P' m Q' E' →
  (∀ env, P env → P' env) →
  (∀ a env, Q' a env → Q a env) →
  (∀ e env, E' e env → E e env) →
  triple P m Q E.
Proof.
  intros H HP HQ HE env Hp. specialize (H env (HP env Hp)).
  destruct (m env) as [env' [e|a]]; auto.
Qed.

Lemma triple_bind {B} P (R : B → Env → Prop) Q E (m : M B) (k : B → M A) :
  triple P m R E → (∀ b, triple (R b) (k b) Q E) → triple P (m ≫= k) Q E.
Proof.
  intros Hm Hk env HP. rewrite run_bind. specialize (Hm env HP).
  destruct (m env) as [env' [e|b]]; [done|]. by apply Hk.
Qed.

Lemma triple_ask_bind P Q E (k : Env → M A) :
  (∀ env, P env → triple (λ env', env' = env) (k env) Q E) →
  triple P (ask ≫= k) Q E.
Proof. intros H env HP. rewrite run_bind. simpl. by apply (H env HP). Qed.

Lemma triple_try_except P Q E E' (body : M A) handler :
  triple P body Q E' → (∀ e, triple (E' e) (handler e) Q E) →
  triple P (try_except body handler) Q E.
Proof.
  intros Hb Hh env HP. unfold try_except. specialize (Hb env HP).
  destruct (body env) as [env' [e|a]]; [|done]. by apply Hh.
Qed.
End triples.

Lemma triple_modify P (Q : unit → Env → Prop) E f :
  (∀ env, P env → Q tt (f env)) → triple P (modify f) Q E.
Proof. intros H env HP. by apply H. Qed.

Lemma triple_when P (Q : unit → Env → Prop) E (b : bool) m :
  (b = true → triple P m Q E) → (b = false → ∀ env, P env → Q tt env) →
  triple P (when b m) Q E.
Proof.
  destruct b; simpl; intros Ht Hf; [by apply Ht|].
  apply triple_ret. by apply Hf.
Qed.

(** A loop with the invariant [I]. *)
Lemma triple_for_each {A} (I : Env → Prop) E (xs : list A) body :
  (∀ x, x ∈ xs → triple I (body x) (λ _, I) E) →
  triple I (for_each xs body) (λ _, I) E.
Proof.
  intros Hbody. induction xs as [|x xs IH].
  - by apply triple_ret.
  - simpl. eapply triple_bind.
    + apply Hbody. by left.
    + intros ?. apply IH. intros y Hy. apply Hbody. by right.
Qed.


Lemma triple_for_fold {A S} (I : Env → Prop) E (xs : list A) (acc : S) body :
  (∀ acc x, x ∈ xs → triple I (body acc x) (λ _, I) E) →
  triple I (for_fold xs acc body) (λ _, I) E.
Proof.
  revert acc. induction xs as [|x xs IH]; intros acc Hbody.
  - by apply triple_ret.
  - simpl. eapply triple_bind.
    + apply Hbody. by left.
    + intros acc'. apply IH. intros acc'' y Hy. apply Hbody. by right.
Qed.

Lemma run_ask_bind {B} (k : Env → M B) env : (ask ≫= k) env = k env env.
Proof. reflexivity. Qed.

Lemma run_modify_bind {B} f (k : unit → M B) env :
  (modify f ≫= k) env = k tt (f env).
Proof. reflexivity. Qed.

Lemma run_ret {A} (a : A) env : (mret a : M A) env = (env, inr a).
Proof. reflexivity. Qed.

Lemma run_ret_bind {A B} (a : A) (k : A → M B) env :
  (mret a ≫= k) env = k a env.
Proof. reflexivity. Qed.

Lemma run_for_each_one {A} (x : A) body env :
  for_each [x] body env = body x env.
Proof.
  rewrite run_for_each_cons. by destruct (body x env) as [env' [e|[]]].
Qed.

(** A loop whose body neither raises nor changes the state does nothing. *)
Lemma run_for_each_skip {A} (xs : list A) body env :
  (∀ x, x ∈ xs → body x env = (env, inr tt)) →
  for_each xs body env = (env, inr tt).
Proof.
  induction xs as [|x xs IH]; intros H; [done|].
  rewrite run_for_each_cons, H by (by left).
  apply IH. intros y Hy. apply H. by right.
Qed.

(** ** library.borrowing.record: the constraints and the writes *)

Section record_writes.
Import BorrowingRecord library_borrowing_record.

Lemma run_check_actual_return_date id env r :
  records env !! id = Some r →
  _check_actual_return_date [id] env
  = match actual_return_date r with
    | Some actual =>
        if actual <? borrow_date r
        then (env, inl (ValidationError
                "Actual return date cannot be before the borrow date."))
        else (env, inr tt)
    | None => (env, inr tt)
    end.
Proof.
  intros H. unfold _check_actual_return_date.
  rewrite run_for_each_one. unfold _check_actual_return_date_row.
  rewrite run_ask_bind, H.
  destruct (actual_return_date r) as [a|]; [|done].
  by destruct (a <? borrow_date r).
Qed.

Lemma run_check_return_date id env r :
  records env !! id = Some r →
  _check_return_date [id] env
  = if expected_return_date r <=? borrow_date r
    then (env, inl (ValidationError
            "Expected return date must be after the borrow date."))
    else (env, inr tt).
Proof.
  intros H. unfold _check_return_date.
  rewrite run_for_each_one. unfold _check_return_date_row.
  rewrite run_ask_bind, H.
  by destruct (expected_return_date r <=? borrow_date r).
Qed.

(** The recomputations that a write triggers leave the records and the
    librarians as they are. *)
Lemma run_recompute_books (b : bool) b1 b2 env :
  ∃ env',
    when b (library_book.recompute_available_copies b1;;
            library_book.recompute_available_copies b2) env
    = (env', inr tt)
    ∧ records env' = records env ∧ librarians env' = librarians env
    ∧ members env' = members env
    ∧ (b = false → env' = env).
Proof. destruct b; eexists; (split; [reflexivity|]); done. Qed.

Lemma run_recompute_members (b : bool) m1 m2 env :
  ∃ env',
    when b (library_member.recompute_current_borrowed m1;;
            library_member.recompute_current_borrowed m2) env
    = (env', inr tt)
    ∧ records env' = records env ∧ librarians env' = librarians env
    ∧ books env' = books env
    ∧ (b = false → env' = env).
Proof. destruct b; eexists; (split; [reflexivity|]); done. Qed.

(** One row written: what [super().write] does when the checks pass. *)
Lemma orm_write_row_ok today v id env old :
  records env !! id = Some old →
  references_exist env v = true →
  dates_accepted v (written today v old) →
  ∃ env',
    orm_write_row today v id env = (env', inr tt)
    ∧ records env' = <[id := written today v old]> (records env)
    ∧ librarians env' = librarians env
    ∧ (v_status v = None → v_book_id v = None → books env' = books env)
    ∧ (v_status v = None → v_member_id v = None →
       members env' = members env).
Proof.
  intros Hold Href [Hact Hexp]. unfold orm_write_row.
  rewrite run_ask_bind, Hold, Href. cbv zeta.
  set (new := written today v old) in *.
  rewrite run_modify_bind.
  set (env1 := set_records <[id:=new]> env).
  rewrite run_bind.
  destruct (run_recompute_books
              (bool_decide (is_Some (v_status v))
               || bool_decide (is_Some (v_book_id v)))
              (book_id old) (book_id new) env1)
    as (env2 & -> & Hr2 & Hl2 & Hm2 & Hsame2).
  rewrite run_bind.
  destruct (run_recompute_members
              (bool_decide (is_Some (v_status v))
               || bool_decide (is_Some (v_member_id v)))
              (member_id old) (member_id new) env2)
    as (env3 & -> & Hr3 & Hl3 & Hb3 & Hsame3).
  assert (Hnew : records env3 !! id = Some new).
  { rewrite Hr3, Hr2. apply lookup_insert_eq. }
  assert (Hrun :
    (when (bool_decide (is_Some (v_actual_return_date v))
           || bool_decide (is_Some (v_borrow_date v)))
       (_check_actual_return_date [id]);;
     when (bool_decide (is_Some (v_expected_return_date v))
           || bool_decide (is_Some (v_borrow_date v)))
       (_check_return_date [id])) env3 = (env3, inr tt)).
  { rewrite run_bind.
    assert (when (bool_decide (is_Some (v_actual_return_date v))
                  || bool_decide (is_Some (v_borrow_date v)))
              (_check_actual_return_date [id]) env3 = (env3, inr tt)) as ->.
    { destruct (bool_decide (is_Some (v_actual_return_date v)) || _)
        eqn:Hc; [|reflexivity]. simpl.
      rewrite (run_check_actual_return_date _ _ _ Hnew).
      destruct (actual_return_date new) as [a|] eqn:Ha; [|done].
      apply orb_true_iff in Hc.
      rewrite !bool_decide_eq_true in Hc.
      specialize (Hact Hc a eq_refl).
      by rewrite (proj2 (Z.ltb_ge _ _) Hact). }
    destruct (bool_decide (is_Some (v_expected_return_date v)) || _)
      eqn:Hc; [|reflexivity]. simpl.
    rewrite (run_check_return_date _ _ _ Hnew).
    apply orb_true_iff in Hc. rewrite !bool_decide_eq_true in Hc.
    specialize (Hexp Hc).
    by rewrite (proj2 (Z.leb_gt _ _) Hexp). }
  exists env3. split; [exact Hrun|].
  split; [by rewrite Hr3, Hr2|].
  split; [by rewrite Hl3, Hl2|].
  split.
  - intros Hs Hb. rewrite Hb3, Hsame2; [done|].
    by rewrite Hs, Hb.
  - intros Hs Hm. rewrite Hsame3; [done|].
    by rewrite Hs, Hm.
Qed.
(** One row written, and refused by the constraint on
    [actual_return_date]. *)
Lemma orm_write_row_actual_refused today v id env old actual :
  records env !! id = Some old →
  references_exist env v = true →
  is_Some (v_actual_return_date v) ∨ is_Some (v_borrow_date v) →
  actual_return_date (written today v old) = Some actual →
  actual < borrow_date (written today v old) →
  ∃ env',
    orm_write_row today v id env
    = (env', inl (ValidationError
                    "Actual return date cannot be before the borrow date.")).
Proof.
  intros Hold Href Hv Hact Hlt. unfold orm_write_row.
  rewrite run_ask_bind, Hold, Href. cbv zeta.
  set (new := written today v old) in *.
  rewrite run_modify_bind.
  set (env1 := set_records <[id:=new]> env).
  rewrite run_bind.
  destruct (run_recompute_books
              (bool_decide (is_Some (v_status v))
               || bool_decide (is_Some (v_book_id v)))
              (book_id old) (book_id new) env1)
    as (env2 & -> & Hr2 & _).
  rewrite run_bind.
  destruct (run_recompute_members
              (bool_decide (is_Some (v_status v))
               || bool_decide (is_Some (v_member_id v)))
              (member_id old) (member_id new) env2)
    as (env3 & -> & Hr3 & _).
  assert (Hnew : records env3 !! id = Some new).
  { rewrite Hr3, Hr2. apply lookup_insert_eq. }
  exists env3. rewrite run_bind.
  assert (bool_decide (is_Some (v_actual_return_date v))
          || bool_decide (is_Some (v_borrow_date v)) = true) as ->.
  { apply orb_true_iff. by rewrite !bool_decide_eq_true. }
  unfold when. rewrite (run_check_actual_return_date _ _ _ Hnew), Hact.
  by rewrite (proj2 (Z.ltb_lt _ _) Hlt).
Qed.
End record_writes.

(** ** Searching a table *)

Section table_facts.
Context {A : Type}.
Implicit Types (tbl : gmap positive A) (domain : positive → A → bool).

Lemma length_filter_map_to_list (P : positive * A → Prop)
    `{!∀ x, Decision (P x)} tbl :
  length (filter P (map_to_list tbl)) = size (filter P tbl).
Proof.
  rewrite <-length_map_to_list, (map_filter_alt P tbl).
  symmetry. apply Permutation_length, map_to_list_to_map.
  apply (sublist_NoDup _ _ (NoDup_fst_map_to_list tbl)).
  apply fmap_sublist, sublist_filter.
Qed.

Lemma search_rows_Permutation (le : relation (positive * A))
    `{!RelDecision le} domain tbl :
  search_rows le domain tbl
  ≡ₚ filter (λ p, Is_true (domain p.1 p.2)) (map_to_list tbl).
Proof. apply merge_sort_Permutation. Qed.

Lemma elem_of_search_rows (le : relation (positive * A))
    `{!RelDecision le} domain tbl i x :
  (i, x) ∈ search_rows le domain tbl
  ↔ tbl !! i = Some x ∧ domain i x = true.
Proof.
  rewrite search_rows_Permutation, list_elem_of_filter, elem_of_map_to_list.
  simpl. rewrite Is_true_true. tauto.
Qed.

Lemma elem_of_search (le : relation (positive * A))
    `{!RelDecision le} domain tbl i :
  i ∈ search le domain tbl ↔ ∃ x, tbl !! i = Some x ∧ domain i x = true.
Proof.
  unfold search. rewrite list_elem_of_fmap. split.
  - intros ([j x] & -> & H). exists x. by apply elem_of_search_rows in H.
  - intros (x & H). exists (i, x). split; [done|].
    by apply elem_of_search_rows.
Qed.

Lemma length_filter_search_rows (le : relation (positive * A))
    `{!RelDecision le} (P : positive * A → Prop) `{!∀ x, Decision (P x)}
    domain tbl :
  length (filter P (search_rows le domain tbl))
  = size (filter (λ p, P p ∧ domain p.1 p.2 = true) tbl).
Proof.
  rewrite search_rows_Permutation, list_filter_filter.
  rewrite length_filter_map_to_list. f_equal.
  apply map_filter_ext. intros i x _. simpl. by rewrite Is_true_true.
Qed.

Lemma search_count_size (le : relation (positive * A))
    `{!RelDecision le} domain tbl :
  search_count le domain tbl
  = Z.of_nat (size (filter (λ p, domain p.1 p.2 = true) tbl)).
Proof.
  unfold search_count, search. rewrite length_fmap.
  rewrite search_rows_Permutation, length_filter_map_to_list. do 2 f_equal.
  apply map_filter_ext. intros i x _. simpl. by rewrite Is_true_true.
Qed.

Lemma search_rows_nil (le : relation (positive * A))
    `{!RelDecision le} domain tbl :
  (∀ i x, tbl !! i = Some x → domain i x = false) →
  search_rows le domain tbl = [].
Proof.
  intros H. apply Permutation_nil_r. rewrite search_rows_Permutation.
  apply Permutation_nil_r, elem_of_nil_inv. intros [i x].
  rewrite list_elem_of_filter, elem_of_map_to_list. simpl.
  intros [Hd Hx]. rewrite (H i x Hx) in Hd. done.
Qed.
End table_facts.

(** The computed fields, in terms of the counts of the properties. *)
Lemma compute_available_copies_count env id book :
  library_book._compute_available_copies env id book
  = Z.max 0 (Book.total_copies book - Z.of_nat (unavailable_count env id)).
Proof.
  unfold library_book._compute_available_copies,
    library_book.borrowing_record_ids, unavailable_count.
  rewrite length_filter_search_rows. do 4 f_equal.
  apply map_filter_ext. intros i r _. simpl.
  rewrite bool_decide_eq_true, !elem_of_cons, elem_of_nil. tauto.
Qed.

Lemma compute_current_borrowed_count env id :
  library_member._compute_current_borrowed env id
  = Z.of_nat (count_status env id borrowed).
Proof.
  unfold library_member._compute_current_borrowed,
    library_member.borrowing_ids, count_status.
  rewrite length_filter_search_rows. do 2 f_equal.
  apply map_filter_ext. intros i r _. simpl.
  rewrite bool_decide_eq_true. tauto.
Qed.

Lemma count_borrowed_count env m :
  library_borrowing_record.count_borrowed env m
  = Z.of_nat (count_status env m borrowed).
Proof.
  unfold library_borrowing_record.count_borrowed, count_status.
  rewrite search_count_size. do 2 f_equal.
  apply map_filter_ext. intros i r _. simpl.
  rewrite andb_true_iff, !bool_decide_eq_true. tauto.
Qed.

(** ** The examples *)

Lemma reachable_calls ops env : reachable env → reachable (calls ops env).
Proof.
  revert env. induction ops as [|[today op] ops IH]; intros env H; [done|].
  apply IH. by constructor.
Qed.

Lemma demo_env_reachable : reachable demo_env.
Proof. apply reachable_calls. constructor. Qed.

Lemma demo_env_overdue_reachable : reachable demo_env_overdue.
Proof. constructor. apply demo_env_reachable. Qed.

Lemma demo_env_record : records demo_env !! 1%positive = Some demo_record.
Proof. vm_compute. reflexivity. Qed.

Lemma demo_env_overdue_record :
  records demo_env_overdue !! 1%positive = Some demo_record_overdue.
Proof. vm_compute. reflexivity. Qed.

(** ** library.borrowing.record: write, return, extend, unlink *)

Section record_actions.
Import BorrowingRecord library_borrowing_record.

Lemma run_recompute_member_of id env r :
  records env !! id = Some r →
  recompute_member_of id env
  = (library_member.current_borrowed_recomputed (member_id r) env, inr tt).
Proof.
  intros H. unfold recompute_member_of. by rewrite run_ask_bind, H.
Qed.

(** [write] on one record, when the checks pass. *)
Lemma write_one_ok today v id env old :
  records env !! id = Some old →
  references_exist env v = true →
  dates_accepted v (written today v old) →
  ∃ env',
    write today [id] v env = (env', inr true)
    ∧ records env' = <[id := written today v old]> (records env)
    ∧ librarians env' = librarians env
    ∧ (v_status v = None → v_book_id v = None → books env' = books env)
    ∧ (v_status v = None → v_member_id v = None →
       members env' = members env).
Proof.
  intros Hold Href Hdates.
  destruct (orm_write_row_ok today v id env old Hold Href Hdates)
    as (env1 & Hrun & Hr & Hl & Hb & Hm).
  unfold write, orm_write.
  rewrite run_bind, run_bind, run_for_each_one, Hrun. cbv beta iota.
  rewrite run_ret. cbv beta iota. rewrite run_bind.
  destruct (bool_decide (is_Some (v_status v))) eqn:Hs.
  - unfold when. rewrite run_for_each_one.
    rewrite (run_recompute_member_of id env1 (written today v old))
      by (rewrite Hr; apply lookup_insert_eq).
    eexists. split; [reflexivity|].
    apply bool_decide_eq_true in Hs as [s Hs].
    repeat split; try done; intros Hnone; by rewrite Hnone in Hs.
  - exists env1. split; [reflexivity|]. done.
Qed.

(** The row that [action_return_book] writes. *)
Lemma written_return today r :
  written today
    (vals_return today
       (if expected_return_date r <? today
        then int_mul_float (today - expected_return_date r) (fine_per_day r)
        else 0%float)) r
  = returned_on today r.
Proof.
  unfold written, returned_on, fine_due, days_late. simpl.
  unfold _compute_days_overdue, set_days_overdue. simpl.
  destruct (Z.ltb_spec (expected_return_date r) today) as [Hlt|Hge].
  - rewrite Z.max_r by lia.
    rewrite (proj2 (Z.eqb_neq _ _)) by lia. done.
  - rewrite Z.max_l by lia. done.
Qed.

(** [action_return_book] on a record not yet returned, on a day that is
    not before its borrow date. *)
Lemma action_return_book_ok today id env r :
  records env !! id = Some r →
  status r ≠ returned →
  borrow_date r ≤ today →
  ∃ env',
    action_return_book today id env
    = (env', inr (display_notification "Book Returned"
                    ("Book returned successfully. Fine: RM "
                     +:+ format_2f (fine_due today r))
                    "success" false))
    ∧ records env' = <[id := returned_on today r]> (records env).
Proof.
  intros Hr Hs Hb. unfold action_return_book.
  rewrite run_ask_bind, Hr, bool_decide_eq_false_2 by done. cbv zeta.
  set (fine := if expected_return_date r <? today then _ else _).
  assert (Hw : written today (vals_return today fine) r
               = returned_on today r) by apply written_return.
  destruct (write_one_ok today (vals_return today fine) id env r Hr)
    as (env' & Hrun & Hrec & _).
  - reflexivity.
  - rewrite Hw. split; [|intros [[? H]|[? H]]; discriminate H].
    intros _ actual [= <-]. done.
  - exists env'. rewrite run_bind, Hrun, Hrec, Hw. split; [|done].
    cbv beta iota. rewrite run_ret. do 4 f_equal.
    injection Hw as _ Hfine. by rewrite Hfine.
Qed.

(** ... and on a day before its borrow date: the constraint on
    [actual_return_date] refuses the write. *)
Lemma action_return_book_refused today id env r :
  records env !! id = Some r →
  status r ≠ returned →
  today < borrow_date r →
  (action_return_book today id env).2
  = inl (ValidationError
           "Actual return date cannot be before the borrow date.").
Proof.
  intros Hr Hs Hb. unfold action_return_book.
  rewrite run_ask_bind, Hr, bool_decide_eq_false_2 by done. cbv zeta.
  set (fine := if expected_return_date r <? today then _ else _).
  unfold write, orm_write.
  rewrite !run_bind, run_for_each_one.
  destruct (orm_write_row_actual_refused today (vals_return today fine)
              id env r today Hr) as (env' & ->);
    [reflexivity | left; by eexists
    | unfold fine; by rewrite written_return
    | unfold fine; by rewrite written_return |].
  reflexivity.
Qed.
End record_actions.

(** C1 (amended): for a borrowing record whose status is not returned,
    and whose borrow date is not after the reference date, the return on
    the reference date succeeds: the record gets [actual_return_date] the
    reference date, status returned, [days_overdue] [max(0, reference date
    - expected_return_date)] and [fine_amount] the days overdue times
    [fine_per_day] (exactly 0 when the return is not late), the other
    records are left as they are, and the result is a notification of type
    success whose message ends with the formatted fine. With the expected
    return date [D], the reference date [D + 3] and the rate 5.0 the fine is
    15.0 and the days overdue are 3. *)
Theorem return_computes_fine today env id r :
  records env !! id = Some r →
  BorrowingRecord.status r ≠ returned →
  BorrowingRecord.borrow_date r ≤ today →
  ∃ env',
    library_borrowing_record.action_return_book today id env
    = (env', inr (display_notification "Book Returned"
                    ("Book returned successfully. Fine: RM "
                     +:+ format_2f (fine_due today r))
                    "success" false))
    ∧ records env' !! id = Some (returned_on today r)
    ∧ (∀ j, j ≠ id → records env' !! j = records env !! j)
    ∧ (today ≤ BorrowingRecord.expected_return_date r →
       fine_due today r = 0%float ∧ days_late today r = 0)
    ∧ (today = BorrowingRecord.expected_return_date r + 3 →
       BorrowingRecord.fine_per_day r = 5%float →
       fine_due today r = 15%float ∧ days_late today r = 3).
Proof.
  intros Hr Hs Hb.
  destruct (action_return_book_ok today id env r Hr Hs Hb)
    as (env' & Hrun & Hrec).
  exists env'. split; [exact Hrun|]. rewrite Hrec.
  split; [apply lookup_insert_eq|].
  split; [intros j Hj; by apply lookup_insert_ne|].
  unfold fine_due, days_late. split.
  - intros Hle. by rewrite Z.max_l by lia.
  - intros -> ->.
    replace (BorrowingRecord.expected_return_date r + 3
             - BorrowingRecord.expected_return_date r) with 3 by lia.
    split; [vm_compute|]; reflexivity.
Qed.

(** In the demo library, the loan due on day 110 returned on day 113. *)
Lemma return_computes_fine_witness :
  ∃ env',
    library_borrowing_record.action_return_book 113 1 demo_env
    = (env', inr (display_notification "Book Returned"
                    ("Book returned successfully. Fine: RM "
                     +:+ format_2f (fine_due 113 demo_record))
                    "success" false))
    ∧ records env' !! 1%positive = Some (returned_on 113 demo_record)
    ∧ (∀ j, j ≠ 1%positive → records env' !! j = records demo_env !! j)
    ∧ (113 ≤ 110 →
       fine_due 113 demo_record = 0%float ∧ days_late 113 demo_record = 0)
    ∧ (113 = 110 + 3 → 5%float = 5%float →
       fine_due 113 demo_record = 15%float ∧ days_late 113 demo_record = 3).
Proof.
  apply (return_computes_fine 113 demo_env 1 demo_record).
  - vm_compute. reflexivity.
  - discriminate.
  - vm_compute. discriminate.
Defined.

(** C1 as stated fails: a loan whose borrow date (day 100) is after the
    reference date (day 95) is not returned, the constraint on
    [actual_return_date] refuses the write. *)
Lemma return_before_borrow_date_refused :
  reachable demo_env
  ∧ records demo_env !! 1%positive = Some demo_record
  ∧ BorrowingRecord.status demo_record ≠ returned
  ∧ (library_borrowing_record.action_return_book 95 1 demo_env).2
    = inl (ValidationError
             "Actual return date cannot be before the borrow date.").
Proof.
  split; [apply demo_env_reachable|].
  split; [apply demo_env_record|].
  split; [discriminate|].
  apply (action_return_book_refused 95 1 demo_env demo_record).
  - apply demo_env_record.
  - discriminate.
  - reflexivity.
Qed.

(** C10: [action_extend_due_date] succeeds only on a record whose status
    is borrowed; on an overdue or a returned record it raises the
    validation error, and in every case the database is left as it is. *)
Theorem extend_due_date_only_borrowed env id r :
  records env !! id = Some r →
  (BorrowingRecord.status r = borrowed →
   library_borrowing_record.action_extend_due_date id env
   = (env, inr (act_window "Extend Due Date" "library.borrowing.record" id
                  "form" "new" [("extend_due_date", true)])))
  ∧ (BorrowingRecord.status r ≠ borrowed →
     library_borrowing_record.action_extend_due_date id env
     = (env, inl (ValidationError
                    "Can only extend due date for borrowed books."))).
Proof.
  intros Hr. unfold library_borrowing_record.action_extend_due_date.
  rewrite run_ask_bind, Hr. split; intros Hs.
  - by rewrite bool_decide_eq_false_2 by (by intros []).
  - by rewrite bool_decide_eq_true_2.
Qed.

(** In the demo library after the fine sweep, the overdue loan. *)
Lemma extend_due_date_only_borrowed_witness :
  library_borrowing_record.action_extend_due_date 1 demo_env_overdue
  = (demo_env_overdue,
     inl (ValidationError "Can only extend due date for borrowed books.")).
Proof.
  apply (extend_due_date_only_borrowed demo_env_overdue 1 demo_record_overdue).
  - vm_compute. reflexivity.
  - discriminate.
Defined.

Section record_unlink.
Import BorrowingRecord library_borrowing_record.

Lemma run_unlink_check id env r :
  records env !! id = Some r →
  unlink_check id env
  = if bool_decide (status r ∈ [borrowed; overdue])
    then (env, inl (ValidationError (unlink_message env r)))
    else (env, inr tt).
Proof.
  intros H. unfold unlink_check. rewrite run_ask_bind, H.
  by destruct (bool_decide _).
Qed.

(** The check of [unlink] never changes the database. *)
Lemma unlink_check_state id env :
  ∃ res, unlink_check id env = (env, res).
Proof.
  unfold unlink_check. rewrite run_ask_bind.
  destruct (records env !! id) as [r|]; [|by eexists].
  destruct (bool_decide _); by eexists.
Qed.

(** A recordset with a record that is not returned is refused, and
    nothing is deleted. *)
Lemma unlink_blocked self id env r :
  records env !! id = Some r →
  status r ∈ [borrowed; overdue] →
  id ∈ self →
  ∃ e, unlink self env = (env, inl e).
Proof.
  intros Hr Hs Hin. unfold unlink. rewrite run_bind.
  assert (∃ e, for_each self unlink_check env = (env, inl e))
    as [e ->]; [|by eexists].
  induction self as [|x self IH]; [by apply elem_of_nil in Hin|].
  rewrite run_for_each_cons.
  destruct (decide (x = id)) as [->|Hne].
  - rewrite (run_unlink_check _ _ _ Hr), bool_decide_eq_true_2 by done.
    by eexists.
  - destruct (unlink_check_state x env) as [[e|[]] ->]; [by eexists|].
    apply IH. apply elem_of_cons in Hin as [->|Hin]; done.
Qed.

(** A returned record is deleted. *)
Lemma unlink_returned id env r :
  records env !! id = Some r →
  status r = returned →
  ∃ env',
    unlink [id] env = (env', inr true)
    ∧ records env' = delete id (records env).
Proof.
  intros Hr Hs. unfold unlink.
  rewrite run_bind, run_for_each_one, (run_unlink_check _ _ _ Hr).
  rewrite bool_decide_eq_false_2
    by (rewrite Hs, !elem_of_cons, elem_of_nil; intros [?|[?|[]]]; discriminate).
  cbv beta iota. unfold orm_unlink.
  rewrite run_bind, run_for_each_one. unfold orm_unlink_row.
  rewrite run_ask_bind, Hr. eexists. split; reflexivity.
Qed.
End record_unlink.

(** C9: deleting a borrowing record whose status is borrowed or overdue
    fails with the validation error of [unlink], alone or in a larger
    recordset, and nothing is deleted; a returned record is deleted, and
    so is the same record once [action_return_book] has returned it. *)
Theorem unlink_blocked_until_returned env id r :
  records env !! id = Some r →
  (BorrowingRecord.status r = borrowed ∨ BorrowingRecord.status r = overdue →
   library_borrowing_record.unlink [id] env
   = (env, inl (ValidationError
                  (library_borrowing_record.unlink_message env r)))
   ∧ ∀ self, id ∈ self →
       ∃ e, library_borrowing_record.unlink self env = (env, inl e))
  ∧ (BorrowingRecord.status r = returned →
     ∃ env',
       library_borrowing_record.unlink [id] env = (env', inr true)
       ∧ records env' = delete id (records env))
  ∧ (∀ today env1 a,
       library_borrowing_record.action_return_book today id env
       = (env1, inr a) →
       ∃ env2,
         library_borrowing_record.unlink [id] env1 = (env2, inr true)
         ∧ records env2 = delete id (records env1)).
Proof.
  intros Hr. split; [|split].
  - intros Hs.
    assert (BorrowingRecord.status r ∈ [borrowed; overdue]) as Hin.
    { rewrite !elem_of_cons. tauto. }
    split; [|intros self; by apply (unlink_blocked self id env r)].
    unfold library_borrowing_record.unlink.
    rewrite run_bind, run_for_each_one.
    by rewrite (run_unlink_check _ _ _ Hr), bool_decide_eq_true_2.
  - by apply unlink_returned.
  - intros today env1 a Hrun.
    destruct (decide (BorrowingRecord.status r = returned)) as [Hs|Hs].
    { unfold library_borrowing_record.action_return_book in Hrun.
      by rewrite run_ask_bind, Hr, bool_decide_eq_true_2 in Hrun. }
    destruct (Z.le_gt_cases (BorrowingRecord.borrow_date r) today)
      as [Hb|Hb].
    + destruct (action_return_book_ok today id env r Hr Hs Hb)
        as (env' & Hrun' & Hrec).
      rewrite Hrun in Hrun'. injection Hrun' as <- _.
      apply (unlink_returned id env1 (returned_on today r)); [|done].
      rewrite Hrec. apply lookup_insert_eq.
    + pose proof (action_return_book_refused today id env r Hr Hs Hb) as H.
      by rewrite Hrun in H.
Qed.

(** In the demo library after the fine sweep, the overdue loan. *)
Lemma unlink_blocked_until_returned_witness :
  (BorrowingRecord.status demo_record_overdue = borrowed
   ∨ BorrowingRecord.status demo_record_overdue = overdue →
   library_borrowing_record.unlink [1%positive] demo_env_overdue
   = (demo_env_overdue,
      inl (ValidationError
             (library_borrowing_record.unlink_message demo_env_overdue
                demo_record_overdue)))
   ∧ ∀ self, 1%positive ∈ self →
       ∃ e, library_borrowing_record.unlink self demo_env_overdue
            = (demo_env_overdue, inl e))
  ∧ (BorrowingRecord.status demo_record_overdue = returned →
     ∃ env',
       library_borrowing_record.unlink [1%positive] demo_env_overdue
       = (env', inr true)
       ∧ records env' = delete 1%positive (records demo_env_overdue))
  ∧ (∀ today env1 a,
       library_borrowing_record.action_return_book today 1 demo_env_overdue
       = (env1, inr a) →
       ∃ env2,
         library_borrowing_record.unlink [1%positive] env1 = (env2, inr true)
         ∧ records env2 = delete 1%positive (records env1)).
Proof.
  apply (unlink_blocked_until_returned demo_env_overdue 1 demo_record_overdue).
  vm_compute. reflexivity.
Defined.

(** ** library.borrowing.record: create *)

Lemma contains_middle before s after : contains (before +:+ s +:+ after) s.
Proof. by exists before, after. Qed.

Lemma string_app_assoc (a b c : string) : (a +:+ b) +:+ c = a +:+ (b +:+ c).
Proof.
  induction a as [|x a IH]; [done|].
  change (String x ((a +:+ b) +:+ c) = String x (a +:+ b +:+ c)).
  by rewrite IH.
Qed.

(** C2 (amended): [create] of a borrowing record for the member [m] and
    the book [b]. If the number of the member's records with status
    borrowed (the record being created is not among them) is not below
    the member's [max_borrow_limit], the creation fails with the error
    that names the member and the limit; otherwise, if the book's
    [available_copies] is below 1, it fails with the error that names the
    book; in both cases the database is left as it is, so no record is
    created. *)
Theorem create_refused today next_by_code v env m member b book :
  BorrowingRecord.v_member_id v = Some m →
  members env !! m = Some member →
  BorrowingRecord.v_book_id v = Some b →
  books env !! b = Some book →
  (Member.max_borrow_limit member ≤ Z.of_nat (count_status env m borrowed) →
   library_borrowing_record.create today next_by_code v env
   = (env, inl (ValidationError
                  (library_borrowing_record.limit_message member))))
  ∧ (Z.of_nat (count_status env m borrowed) < Member.max_borrow_limit member →
     Book.available_copies book < 1 →
     library_borrowing_record.create today next_by_code v env
     = (env, inl (ValidationError
                    (library_borrowing_record.unavailable_message book))))
  ∧ (Member.max_borrow_limit member ≤ Z.of_nat (count_status env m borrowed)
     ∨ Book.available_copies book < 1 →
     ∃ e, library_borrowing_record.create today next_by_code v env
          = (env, inl e))
  ∧ contains (library_borrowing_record.limit_message member)
      (Member.name member)
  ∧ contains (library_borrowing_record.limit_message member)
      (str_int (Member.max_borrow_limit member))
  ∧ contains (library_borrowing_record.unavailable_message book)
      (Book.title book).
Proof.
  intros Hm Hmember Hb Hbook.
  assert (Hlimit :
    Member.max_borrow_limit member ≤ Z.of_nat (count_status env m borrowed) →
    library_borrowing_record.create today next_by_code v env
    = (env, inl (ValidationError
                   (library_borrowing_record.limit_message member)))).
  { intros Hle. unfold library_borrowing_record.create.
    set (v' := if decide _ then _ else v).
    assert (BorrowingRecord.v_member_id v' = Some m) as ->.
    { unfold v'. by destruct (decide _). }
    rewrite run_bind, run_ask_bind, Hmember. cbv zeta.
    rewrite count_borrowed_count.
    by rewrite (proj2 (Z.leb_le _ _) Hle). }
  assert (Hcopies :
    Z.of_nat (count_status env m borrowed) < Member.max_borrow_limit member →
    Book.available_copies book < 1 →
    library_borrowing_record.create today next_by_code v env
    = (env, inl (ValidationError
                   (library_borrowing_record.unavailable_message book)))).
  { intros Hlt Hav. unfold library_borrowing_record.create.
    set (v' := if decide _ then _ else v).
    assert (BorrowingRecord.v_member_id v' = Some m) as ->.
    { unfold v'. by destruct (decide _). }
    assert (BorrowingRecord.v_book_id v' = Some b) as ->.
    { unfold v'. by destruct (decide _). }
    rewrite run_bind, run_ask_bind, Hmember. cbv zeta.
    rewrite count_borrowed_count.
    rewrite (proj2 (Z.leb_gt _ _) Hlt), run_ret. cbv beta iota.
    rewrite run_bind, run_ask_bind, Hbook.
    by rewrite (proj2 (Z.ltb_lt _ _) Hav). }
  split; [exact Hlimit|]. split; [exact Hcopies|]. split.
  - intros [Hle|Hav].
    + eexists. by apply Hlimit.
    + destruct (Z.le_gt_cases (Member.max_borrow_limit member)
                  (Z.of_nat (count_status env m borrowed))) as [Hle|Hlt].
      * eexists. by apply Hlimit.
      * eexists. by apply Hcopies.
  - unfold library_borrowing_record.limit_message,
      library_borrowing_record.unavailable_message.
    split; [|split].
    + exists ("Member " +:+ dq), (dq +:+ " has reached the borrowing limit of "
        +:+ str_int (Member.max_borrow_limit member) +:+ " books.").
      by rewrite !string_app_assoc.
    + exists ("Member " +:+ dq +:+ Member.name member +:+ dq
              +:+ " has reached the borrowing limit of "), " books.".
      by rewrite !string_app_assoc.
    + exists ("Book " +:+ dq), (dq +:+ " is not available for borrowing.").
      by rewrite !string_app_assoc.
Qed.

(** In the demo library with a single copy, which is out: a second loan
    of the book is refused. *)
Lemma create_refused_witness :
  library_borrowing_record.create 101 (Some "BR0002") demo_loan demo_env_full
  = (demo_env_full,
     inl (ValidationError
            (library_borrowing_record.unavailable_message demo_book_full))).
Proof.
  refine (proj1 (proj2 (create_refused 101 (Some "BR0002") demo_loan
                          demo_env_full 1 demo_member_row 1 demo_book_full
                          _ _ _ _)) _ _).
  - reflexivity.
  - vm_compute. reflexivity.
  - reflexivity.
  - vm_compute. reflexivity.
  - vm_compute. reflexivity.
  - vm_compute. reflexivity.
Defined.

Lemma starts_with_app s after : starts_with s (s +:+ after) = true.
Proof.
  induction s as [|a s IH]; [done|].
  change (Ascii.eqb a a && starts_with s (s +:+ after) = true).
  by rewrite Ascii.eqb_refl, IH.
Qed.

Lemma contains_occurs msg s : contains msg s → occurs s msg = true.
Proof.
  intros (before & after & ->).
  induction before as [|a before IH].
  - change (occurs s (s +:+ after) = true).
    destruct s as [|b s]; [by destruct after|].
    change (starts_with (String b s) (String b s +:+ after)
            || occurs (String b s) (s +:+ after) = true).
    by rewrite starts_with_app.
  - change (starts_with s (String a (before +:+ s +:+ after))
            || occurs s (before +:+ s +:+ after) = true).
    rewrite IH. apply orb_true_r.
Qed.

(** C2 as stated fails: in the library whose member has reached the limit
    and whose book has no copy left, a state that the calls reach, the
    creation is refused with the error of the limit, which is not the
    error that names the book, and the title of the book does not occur
    in it. *)
Lemma create_without_copy_names_member :
  reachable demo_env_full_limit
  ∧ books demo_env_full_limit !! 1%positive = Some demo_book_full
  ∧ Book.available_copies demo_book_full < 1
  ∧ library_borrowing_record.create 102 (Some "BR0002") demo_loan
      demo_env_full_limit
    = (demo_env_full_limit,
       inl (ValidationError
              (library_borrowing_record.limit_message demo_member_limit)))
  ∧ library_borrowing_record.limit_message demo_member_limit
    ≠ library_borrowing_record.unavailable_message demo_book_full
  ∧ ¬ contains (library_borrowing_record.limit_message demo_member_limit)
        (Book.title demo_book_full).
Proof.
  split; [|split; [|split; [|split; [|split]]]].
  - do 2 constructor. apply demo_env_reachable.
  - vm_compute. reflexivity.
  - vm_compute. reflexivity.
  - vm_compute. reflexivity.
  - vm_compute. discriminate.
  - intros H. apply contains_occurs in H. vm_compute in H. discriminate.
Qed.

(** ** library.member: the status and the limit *)

Section member_writes.
Import Member library_member.

Lemma run_check_status_change id env record :
  members env !! id = Some record →
  _check_status_change_borrowing_limit [id] env
  = if bool_decide (member_status record = inactive)
       && (5 <? current_borrowed record)
    then (env, inl (ValidationError
                      (status_change_message record "Inactive")))
    else if bool_decide (member_status record = pending)
            && (5 <? current_borrowed record)
    then (env, inl (ValidationError
                      (status_change_message record "Pending")))
    else (env, inr tt).
Proof.
  intros H. unfold _check_status_change_borrowing_limit.
  rewrite run_for_each_one. unfold _check_status_change_borrowing_limit_row.
  rewrite run_ask_bind, H.
  destruct (_ && _); [done|]. by destruct (_ && _).
Qed.

(** One row written with values that do not name the phone. *)
Lemma run_orm_write_row v id env record :
  members env !! id = Some record →
  v_phone v = None →
  orm_write_row v id env
  = let env1 := set_members <[id := apply v record]> env in
    if bool_decide (is_Some (v_member_status v))
    then _check_status_change_borrowing_limit [id] env1
    else (env1, inr tt).
Proof.
  intros H Hphone. unfold orm_write_row.
  rewrite run_ask_bind, H, Hphone. simpl.
  rewrite run_modify_bind, run_ret_bind.
  by destruct (bool_decide (is_Some (v_member_status v))).
Qed.

(** [record.max_borrow_limit = n] *)
Lemma run_orm_write_limit n id env record :
  members env !! id = Some record →
  orm_write [id] (vals_max_borrow_limit n) env
  = (set_members <[id := set_max_borrow_limit n record]> env, inr true).
Proof.
  intros H. unfold orm_write.
  rewrite run_bind, run_for_each_one.
  rewrite (run_orm_write_row _ _ _ record) by done.
  simpl. by destruct record.
Qed.

Lemma run_write_limit_of_status id env record :
  members env !! id = Some record →
  write_limit_of_status id env
  = (set_members
       <[id := set_max_borrow_limit
                 (match member_status record with
                  | active => 10
                  | inactive => 5
                  | pending => 5
                  end) record]> env, inr tt).
Proof.
  intros H. unfold write_limit_of_status. rewrite run_ask_bind, H.
  destruct (member_status record);
    by rewrite run_bind, (run_orm_write_limit _ _ _ record).
Qed.

(** [write] of a status, on one member. *)
Lemma run_write_status v id env record s :
  members env !! id = Some record →
  v_phone v = None →
  v_member_status v = Some s →
  write [id] v env
  = let record' := apply v record in
    let env1 := set_members <[id := record']> env in
    if bool_decide (s = inactive) && (5 <? current_borrowed record)
    then (env1, inl (ValidationError
                       (status_change_message record' "Inactive")))
    else if bool_decide (s = pending) && (5 <? current_borrowed record)
    then (env1, inl (ValidationError
                       (status_change_message record' "Pending")))
    else
      (set_members
         <[id := set_max_borrow_limit
                   (match s with active => 10 | _ => 5 end) record']> env,
       inr true).
Proof.
  intros H Hphone Hs. unfold write, orm_write.
  rewrite !run_bind, run_for_each_one.
  rewrite (run_orm_write_row _ _ _ record) by done.
  cbv zeta. rewrite Hs. simpl bool_decide. cbv iota.
  set (record' := apply v record).
  set (env1 := set_members <[id := record']> env).
  assert (Hnew : members env1 !! id = Some record')
    by apply lookup_insert_eq.
  rewrite (run_check_status_change _ _ _ Hnew).
  assert (member_status record' = s) as -> by (unfold record'; simpl;
    by rewrite Hs).
  change (current_borrowed record') with (current_borrowed record).
  destruct (bool_decide (s = inactive) && _); [done|].
  destruct (bool_decide (s = pending) && _); [done|].
  rewrite run_ret. cbv beta iota. unfold when.
  rewrite run_bind, run_for_each_one.
  rewrite (run_write_limit_of_status _ _ _ Hnew).
  assert (member_status record' = s) as -> by (unfold record'; simpl;
    by rewrite Hs).
  rewrite run_ret. f_equal. unfold env1, set_members. simpl.
  f_equal. rewrite insert_insert_eq. by destruct s.
Qed.
End member_writes.

(** C7: writing the status inactive or pending to a member (the values
    do not name the phone) fails, with the validation error of
    [_check_status_change_borrowing_limit], exactly when the member's
    [current_borrowed] is above 5, and the call then leaves the database as
    it is; otherwise it succeeds and the member's [max_borrow_limit] is 5. *)
Theorem status_change_refused_above_five env id record v s :
  members env !! id = Some record →
  Member.v_phone v = None →
  Member.v_member_status v = Some s →
  s = inactive ∨ s = pending →
  (5 < Member.current_borrowed record →
   transaction (library_member.write [id] v) env
   = (env, inl (ValidationError
                  (library_member.status_change_message
                     (Member.apply v record)
                     (if decide (s = inactive) then "Inactive"
                      else "Pending")))))
  ∧ (Member.current_borrowed record ≤ 5 →
     ∃ env' record',
       transaction (library_member.write [id] v) env = (env', inr true)
       ∧ members env' = <[id := record']> (members env)
       ∧ record' = Member.set_max_borrow_limit 5 (Member.apply v record)
       ∧ Member.max_borrow_limit record' = 5
       ∧ Member.member_status record' = s
       ∧ Member.current_borrowed record' = Member.current_borrowed record).
Proof.
  intros Hr Hphone Hs Hcase. unfold transaction.
  rewrite (run_write_status v id env record s Hr Hphone Hs). cbv zeta.
  split.
  - intros Hgt. rewrite (proj2 (Z.ltb_lt _ _) Hgt).
    destruct Hcase as [-> | ->]; reflexivity.
  - intros Hle. rewrite (proj2 (Z.ltb_ge _ _) Hle), !andb_false_r.
    assert (match s with active => 10 | _ => 5 end = 5) as ->
      by (by destruct Hcase as [-> | ->]).
    eexists _, _. split; [reflexivity|]. split; [reflexivity|].
    split; [reflexivity|]. simpl. by rewrite Hs.
Qed.

(** With six loans the member cannot be made inactive; with five, the
    member can, and the limit becomes 5. *)
Lemma status_change_refused_above_five_witness :
  transaction
    (library_member.write [1%positive] (vals_member_status inactive))
    demo_env_six
  = (demo_env_six,
     inl (ValidationError
            (library_member.status_change_message
               (Member.apply (vals_member_status inactive) demo_member_six)
               "Inactive")))
  ∧ ∃ env' record',
      transaction
        (library_member.write [1%positive] (vals_member_status inactive))
        demo_env_five
      = (env', inr true)
      ∧ members env' = <[1%positive := record']> (members demo_env_five)
      ∧ record'
        = Member.set_max_borrow_limit 5
            (Member.apply (vals_member_status inactive) demo_member_five)
      ∧ Member.max_borrow_limit record' = 5
      ∧ Member.member_status record' = inactive
      ∧ Member.current_borrowed record'
        = Member.current_borrowed demo_member_five.
Proof.
  split.
  - refine (proj1 (status_change_refused_above_five demo_env_six 1
                     demo_member_six (vals_member_status inactive) inactive
                     _ _ _ _) _).
    + vm_compute. reflexivity.
    + reflexivity.
    + reflexivity.
    + by left.
    + vm_compute. reflexivity.
  - refine (proj2 (status_change_refused_above_five demo_env_five 1
                     demo_member_five (vals_member_status inactive) inactive
                     _ _ _ _) _).
    + vm_compute. reflexivity.
    + reflexivity.
    + reflexivity.
    + by left.
    + vm_compute. discriminate.
Defined.

(** C6 as stated fails: a member created without [member_status] in the
    values gets the default status active, and the default
    [max_borrow_limit] 5, not 10. *)
Theorem create_default_status_limit :
  ∃ env',
    library_member.create 100 (Some "LM0001") demo_member_no_status empty_env
    = (env', inr 1%positive)
    ∧ members env' !! 1%positive
      = Some (Member.mk "LM0001" "Ann" "ann@example.org" "0123456789" 100
                5 0 active).
Proof. eexists. split; vm_compute; reflexivity. Qed.

(** C8, at the input where the code departs from it: the only member with
    the phone number is inactive, the Python constraint accepts a new member
    with the same number, yet [create] fails on UNIQUE(phone). *)
Theorem create_same_phone_as_inactive :
  members demo_env_inactive !! 1%positive = Some demo_member_inactive_row
  ∧ library_member.create 101 (Some "LM0002") demo_member_same_phone
      demo_env_inactive
    = (demo_env_inactive, inl (IntegrityError "unique_phone"))
  ∧ (library_member._check_phone_unique [2%positive]
       (set_members
          <[2%positive := Member.mk "LM0002" "Bob" "bob@example.org"
                            "0123456789" 101 10 0 active]>
          demo_env_inactive)).2
    = inr tt.
Proof. repeat split; vm_compute; reflexivity. Qed.

(** ** The stored computed fields *)

(** Writing a row does not change the number of rows that satisfy [P]
    when the row satisfies [P] after the write just when it did before. *)
Lemma size_filter_insert {A} (P : positive * A → Prop)
    `{!∀ x, Decision (P x)} (m : gmap positive A) i x :
  match m !! i with
  | Some y => P (i, y) ↔ P (i, x)
  | None => ¬ P (i, x)
  end →
  size (filter P (<[i := x]> m)) = size (filter P m).
Proof.
  intros HP. rewrite map_filter_insert.
  destruct (m !! i) as [y|] eqn:Hy.
  - destruct (decide (P (i, x))) as [Hx|Hx].
    + apply map_size_insert_Some. exists y.
      apply map_lookup_filter_Some. tauto.
    + rewrite map_filter_delete_not; [done|].
      intros z Hz. rewrite Hy in Hz. injection Hz as <-. tauto.
  - rewrite decide_False by done.
    rewrite map_filter_delete_not; [done|]. intros z Hz. by rewrite Hy in Hz.
Qed.

Lemma size_filter_delete {A} (P : positive * A → Prop)
    `{!∀ x, Decision (P x)} (m : gmap positive A) i :
  (∀ y, m !! i = Some y → ¬ P (i, y)) →
  size (filter P (delete i m)) = size (filter P m).
Proof. intros HP. by rewrite map_filter_delete_not. Qed.

Section computed.
Import BorrowingRecord.
Implicit Types (bs ms : gset positive).

Lemma computed_except_weaken bs ms bs' ms' env :
  computed_except bs ms env → bs ⊆ bs' → ms ⊆ ms' →
  computed_except bs' ms' env.
Proof.
  intros [Hb Hm] Hbs Hms. split.
  - intros id book Hid. apply Hb. set_solver.
  - intros id member Hid. apply Hm. set_solver.
Qed.

(** The computed values depend on the records only. *)
Lemma compute_available_copies_records env env' id book :
  records env' = records env →
  library_book._compute_available_copies env' id book
  = library_book._compute_available_copies env id book.
Proof.
  intros H. unfold library_book._compute_available_copies,
    library_book.borrowing_record_ids. by rewrite H.
Qed.

Lemma compute_current_borrowed_records env env' id :
  records env' = records env →
  library_member._compute_current_borrowed env' id
  = library_member._compute_current_borrowed env id.
Proof.
  intros H. unfold library_member._compute_current_borrowed,
    library_member.borrowing_ids. by rewrite H.
Qed.

(** A change of the books or of the members that keeps the stored
    fields and the total of the books outside [bs'] and [ms']. *)
Lemma computed_except_tables bs ms bs' ms' env env' :
  computed_except bs ms env →
  records env' = records env →
  (∀ id book', id ∉ bs' → books env' !! id = Some book' →
     (id ∉ bs) ∧ (∃ book, books env !! id = Some book
       ∧ Book.total_copies book' = Book.total_copies book
       ∧ Book.available_copies book' = Book.available_copies book)) →
  (∀ id member', id ∉ ms' → members env' !! id = Some member' →
     (id ∉ ms) ∧ (∃ member, members env !! id = Some member
       ∧ Member.current_borrowed member'
         = Member.current_borrowed member)) →
  computed_except bs' ms' env'.
Proof.
  intros [Hb Hm] Hrec Hbooks Hmembers. split.
  - intros id book' Hid Hlook.
    destruct (Hbooks id book' Hid Hlook) as (Hnot & book & Hbook & Ht & Ha).
    rewrite Ha, (Hb id book Hnot Hbook).
    rewrite (compute_available_copies_records env env') by done.
    unfold library_book._compute_available_copies. by rewrite Ht.
  - intros id member' Hid Hlook.
    destruct (Hmembers id member' Hid Hlook) as (Hnot & member & Hmem & Hc).
    rewrite Hc, (Hm id member Hnot Hmem).
    by rewrite (compute_current_borrowed_records env env').
Qed.

Lemma computed_except_recompute_book bs ms b env :
  computed_except ({[b]} ∪ bs) ms env →
  computed_except bs ms (library_book.available_copies_recomputed b env).
Proof.
  intros [Hb Hm]. split.
  - intros id book Hid Hlook.
    rewrite (compute_available_copies_records env _ id book) by done.
    unfold library_book.available_copies_recomputed in Hlook.
    simpl in Hlook. rewrite lookup_alter in Hlook.
    case_decide as Heq.
    + subst id. destruct (books env !! b) as [old|]; [|done].
      simpl in Hlook. by injection Hlook as <-.
    + apply Hb; [|done]. rewrite elem_of_union, elem_of_singleton.
      intros [?|?]; congruence.
  - intros id member Hid Hmem.
    rewrite (compute_current_borrowed_records env) by done.
    by apply Hm.
Qed.

Lemma computed_except_recompute_member bs ms m env :
  computed_except bs ({[m]} ∪ ms) env →
  computed_except bs ms
    (library_member.current_borrowed_recomputed m env).
Proof.
  intros [Hb Hm]. split.
  - intros id book Hid Hbook.
    rewrite (compute_available_copies_records env) by done.
    by apply Hb.
  - intros id member Hid Hlook.
    rewrite (compute_current_borrowed_records env _ id) by done.
    unfold library_member.current_borrowed_recomputed in Hlook.
    simpl in Hlook. rewrite lookup_alter in Hlook.
    case_decide as Heq.
    + subst id. destruct (members env !! m) as [old|]; [|done].
      simpl in Hlook. by injection Hlook as <-.
    + apply Hm; [|done]. rewrite elem_of_union, elem_of_singleton.
      intros [?|?]; congruence.
Qed.

(** The counts of the books and members that a written record does not
    concern are unchanged. *)
Lemma unavailable_count_insert env id new b :
  match records env !! id with
  | Some old =>
      (b ≠ book_id old ∧ b ≠ book_id new)
      ∨ (book_id new = book_id old ∧ status new = status old)
  | None => b ≠ book_id new
  end →
  unavailable_count (set_records <[id := new]> env) b
  = unavailable_count env b.
Proof.
  intros H. unfold unavailable_count. simpl.
  apply size_filter_insert. simpl.
  destruct (records env !! id) as [old|].
  - destruct H as [[H1 H2]|[-> ->]]; [|done]. split; intros [? _]; congruence.
  - intros [? _]. congruence.
Qed.

Lemma count_status_insert env id new m s :
  match records env !! id with
  | Some old =>
      (m ≠ member_id old ∧ m ≠ member_id new)
      ∨ (member_id new = member_id old ∧ status new = status old)
  | None => m ≠ member_id new
  end →
  count_status (set_records <[id := new]> env) m s = count_status env m s.
Proof.
  intros H. unfold count_status. simpl.
  apply size_filter_insert. simpl.
  destruct (records env !! id) as [old|].
  - destruct H as [[H1 H2]|[-> ->]]; [|done]. split; intros [? _]; congruence.
  - intros [? _]. congruence.
Qed.

Lemma unavailable_count_delete env id r b :
  records env !! id = Some r → b ≠ book_id r →
  unavailable_count (set_records (delete id) env) b
  = unavailable_count env b.
Proof.
  intros Hr Hb. unfold unavailable_count. simpl.
  apply size_filter_delete. intros y Hy [? _]. simpl in *. congruence.
Qed.

Lemma count_status_delete env id r m s :
  records env !! id = Some r → m ≠ member_id r →
  count_status (set_records (delete id) env) m s = count_status env m s.
Proof.
  intros Hr Hm. unfold count_status. simpl.
  apply size_filter_delete. intros y Hy [? _]. simpl in *. congruence.
Qed.

(** A change of the records that keeps the counts of the books outside
    [bs'] and of the members outside [ms']. *)
Lemma computed_except_records bs ms bs' ms' env env' :
  computed_except bs ms env →
  books env' = books env → members env' = members env →
  bs ⊆ bs' → ms ⊆ ms' →
  (∀ b, b ∉ bs' → unavailable_count env' b = unavailable_count env b) →
  (∀ m, m ∉ ms' →
     count_status env' m borrowed = count_status env m borrowed) →
  computed_except bs' ms' env'.
Proof.
  intros [Hb Hm] Hbooks Hmembers Hbs Hms Hcb Hcm. split.
  - intros id book Hid. rewrite Hbooks. intros Hbook.
    rewrite (Hb id book) by set_solver.
    by rewrite !compute_available_copies_count, Hcb.
  - intros id member Hid. rewrite Hmembers. intros Hmem.
    rewrite (Hm id member) by set_solver.
    by rewrite !compute_current_borrowed_count, Hcm.
Qed.
End computed.

(** ** The calls keep the stored computed fields up to date *)

Lemma triple_read_only {A} P (m : M A) E :
  read_only m → (∀ e env, P env → E e env) → triple P m (λ _, P) E.
Proof.
  intros Hm HE env HP. specialize (Hm env).
  destruct (m env) as [env' [e|a]]; simpl in Hm; subst env'; auto.
Qed.

Lemma read_only_for_each {A} (xs : list A) body :
  (∀ x, read_only (body x)) → read_only (for_each xs body).
Proof.
  intros Hbody. induction xs as [|x xs IH]; intros env; [done|].
  rewrite run_for_each_cons. specialize (Hbody x env).
  destruct (body x env) as [env' [e|[]]]; simpl in Hbody; subst env'; [done|].
  apply IH.
Qed.

Lemma read_only_ask_bind {A} (k : Env → M A) :
  (∀ env, (k env env).1 = env) → read_only (ask ≫= k).
Proof. intros H env. rewrite run_ask_bind. apply H. Qed.

Section read_only_checks.
Lemma read_only_check_isbn_unique self :
  read_only (library_book._check_isbn_unique self).
Proof.
  apply read_only_for_each. intros id. apply read_only_ask_bind.
  intros env. destruct (books env !! id) as [book|]; [|done].
  destruct (decide _); [done|]. by destruct (head _) as [[? ?]|].
Qed.

Lemma read_only_check_phone_unique self :
  read_only (library_member._check_phone_unique self).
Proof.
  apply read_only_for_each. intros id. apply read_only_ask_bind.
  intros env. destruct (members env !! id) as [record|]; [|done].
  destruct (decide _); [done|]. by destruct (head _) as [[? ?]|].
Qed.

Lemma read_only_check_status_change self :
  read_only (library_member._check_status_change_borrowing_limit self).
Proof.
  apply read_only_for_each. intros id. apply read_only_ask_bind.
  intros env. destruct (members env !! id) as [record|]; [|done].
  destruct (_ && _); [done|]. by destruct (_ && _).
Qed.

Lemma read_only_check_return_date self :
  read_only (library_borrowing_record._check_return_date self).
Proof.
  apply read_only_for_each. intros id. apply read_only_ask_bind.
  intros env. destruct (records env !! id) as [record|]; [|done].
  by destruct (_ <=? _).
Qed.

Lemma read_only_check_actual_return_date self :
  read_only (library_borrowing_record._check_actual_return_date self).
Proof.
  apply read_only_for_each. intros id. apply read_only_ask_bind.
  intros env. destruct (records env !! id) as [record|]; [|done].
  destruct (BorrowingRecord.actual_return_date record) as [a|]; [|done].
  by destruct (_ <? _).
Qed.

Lemma read_only_unlink_check self :
  read_only (for_each self library_borrowing_record.unlink_check).
Proof.
  apply read_only_for_each. intros id env.
  by destruct (unlink_check_state id env) as [res ->].
Qed.
End read_only_checks.

Section computed_triples.
Implicit Types (bs ms : gset positive) (E : Exception → Env → Prop).

Lemma triple_recompute_book bs ms b E :
  triple (computed_except ({[b]} ∪ bs) ms)
    (library_book.recompute_available_copies b)
    (λ _, computed_except bs ms) E.
Proof.
  apply triple_modify. intros env. apply computed_except_recompute_book.
Qed.

Lemma triple_recompute_member bs ms m E :
  triple (computed_except bs ({[m]} ∪ ms))
    (library_member.recompute_current_borrowed m)
    (λ _, computed_except bs ms) E.
Proof.
  apply triple_modify. intros env. apply computed_except_recompute_member.
Qed.

Lemma triple_recompute_books bs ms b1 b2 E :
  triple (computed_except ({[b1]} ∪ ({[b2]} ∪ bs)) ms)
    (library_book.recompute_available_copies b1;;
     library_book.recompute_available_copies b2)
    (λ _, computed_except bs ms) E.
Proof.
  eapply triple_bind; [apply triple_recompute_book|]. intros [].
  apply triple_recompute_book.
Qed.

Lemma triple_recompute_members bs ms m1 m2 E :
  triple (computed_except bs ({[m1]} ∪ ({[m2]} ∪ ms)))
    (library_member.recompute_current_borrowed m1;;
     library_member.recompute_current_borrowed m2)
    (λ _, computed_except bs ms) E.
Proof.
  eapply triple_bind; [apply triple_recompute_member|]. intros [].
  apply triple_recompute_member.
Qed.
End computed_triples.

Section record_triples.
Import BorrowingRecord library_borrowing_record.
Local Abbreviation inv := (computed_except ∅ ∅).
Local Abbreviation invE := (λ _ : Exception, computed_except ∅ ∅).

Lemma written_book_id today v old :
  book_id (written today v old) = default (book_id old) (v_book_id v).
Proof. unfold written. by destruct (_ && _). Qed.

Lemma written_member_id today v old :
  member_id (written today v old) = default (member_id old) (v_member_id v).
Proof. unfold written. by destruct (_ && _). Qed.

Lemma written_status today v old :
  status (written today v old) = default (status old) (v_status v).
Proof. unfold written. by destruct (_ && _). Qed.

Lemma is_Some_false {A} (o : option A) :
  bool_decide (is_Some o) = false → o = None.
Proof.
  intros H. apply bool_decide_eq_false in H. destruct o; [|done].
  destruct H. by eexists.
Qed.

(** The books and the members to recompute after a row is written. *)
Lemma computed_after_write today v id env old :
  inv env →
  records env !! id = Some old →
  computed_except
    (if bool_decide (is_Some (v_status v))
        || bool_decide (is_Some (v_book_id v))
     then {[book_id old]} ∪ ({[book_id (written today v old)]} ∪ ∅)
     else ∅)
    (if bool_decide (is_Some (v_status v))
        || bool_decide (is_Some (v_member_id v))
     then {[member_id old]} ∪ ({[member_id (written today v old)]} ∪ ∅)
     else ∅)
    (set_records <[id := written today v old]> env).
Proof.
  intros Hinv Hold.
  apply (computed_except_records ∅ ∅ _ _ env); try done.
  - intros b Hb. apply unavailable_count_insert. rewrite Hold.
    destruct (_ || _) eqn:Hc.
    + left. rewrite !elem_of_union, !elem_of_singleton in Hb. tauto.
    + right. apply orb_false_iff in Hc as [Hs Hv].
      rewrite written_book_id, written_status.
      by rewrite (is_Some_false _ Hs), (is_Some_false _ Hv).
  - intros m Hm. apply count_status_insert. rewrite Hold.
    destruct (_ || _) eqn:Hc.
    + left. rewrite !elem_of_union, !elem_of_singleton in Hm. tauto.
    + right. apply orb_false_iff in Hc as [Hs Hv].
      rewrite written_member_id, written_status.
      by rewrite (is_Some_false _ Hs), (is_Some_false _ Hv).
Qed.

Lemma triple_orm_write_row today v id :
  triple inv (orm_write_row today v id) (λ _, inv) invE.
Proof.
  apply triple_ask_bind; intros env Hinv.
  destruct (records env !! id) as [old|] eqn:Hold;
    [|apply triple_raise; by intros ? ->].
  cbv zeta.
  destruct (references_exist env v); [|apply triple_raise; by intros ? ->].
  pose proof (computed_after_write today v id env old Hinv Hold) as Hset.
  set (bs := if bool_decide (is_Some (v_status v)) || _ then _ else _)
    in Hset.
  set (ms := if bool_decide (is_Some (v_status v)) || _ then _ else _)
    in Hset.
  apply (triple_bind _ (λ _, computed_except bs ms)).
  { apply triple_modify. by intros ? ->. }
  intros []. apply (triple_bind _ (λ _, computed_except ∅ ms)).
  { apply triple_when.
    - intros Hc. unfold bs. rewrite Hc. apply triple_recompute_books.
    - intros Hc env'. unfold bs. by rewrite Hc. }
  intros []. apply (triple_bind _ (λ _, inv)).
  { apply triple_when.
    - intros Hc. unfold ms. rewrite Hc. apply triple_recompute_members.
    - intros Hc env'. unfold ms. by rewrite Hc. }
  intros []. apply (triple_bind _ (λ _, inv)).
  { apply triple_when; [|done]. intros _.
    apply triple_read_only; [apply read_only_check_actual_return_date|done]. }
  intros []. apply triple_when; [|done]. intros _.
  apply triple_read_only; [apply read_only_check_return_date|done].
Qed.

Lemma triple_recompute_member_of id :
  triple inv (recompute_member_of id) (λ _, inv) invE.
Proof.
  apply triple_ask_bind; intros env Hinv.
  destruct (records env !! id) as [r|];
    [|apply triple_raise; by intros ? ->].
  apply triple_modify. intros ? ->.
  apply computed_except_recompute_member.
  eapply computed_except_weaken; [exact Hinv|done|apply empty_subseteq].
Qed.

Lemma triple_write today self v :
  triple inv (write today self v) (λ _, inv) invE.
Proof.
  unfold write, orm_write. apply (triple_bind _ (λ _, inv)).
  { apply (triple_bind _ (λ _, inv)).
    - apply triple_for_each. intros id _. apply triple_orm_write_row.
    - intros []. by apply triple_ret. }
  intros result. apply (triple_bind _ (λ _, inv)).
  { apply triple_when; [|done]. intros _.
    apply triple_for_each. intros id _. apply triple_recompute_member_of. }
  intros []. by apply triple_ret.
Qed.

(** The books and the members to recompute after a row is inserted. *)
Lemma computed_after_insert id row env :
  inv env →
  records env !! id = None →
  computed_except ({[book_id row]} ∪ ∅) ({[member_id row]} ∪ ∅)
    (set_records <[id := row]> env).
Proof.
  intros Hinv Hnone.
  apply (computed_except_records ∅ ∅ _ _ env); try done.
  - intros b Hb. apply unavailable_count_insert. rewrite Hnone.
    rewrite elem_of_union, elem_of_singleton in Hb. tauto.
  - intros m Hm. apply count_status_insert. rewrite Hnone.
    rewrite elem_of_union, elem_of_singleton in Hm. tauto.
Qed.

Lemma triple_orm_create today v :
  triple inv (orm_create today v) (λ _, inv) invE.
Proof.
  apply triple_ask_bind; intros env Hinv.
  destruct (v_member_id v) as [m|]; [|apply triple_raise; by intros ? ->].
  destruct (v_book_id v) as [b|]; [|apply triple_raise; by intros ? ->].
  destruct (v_librarian_id v) as [l|];
    [|apply triple_raise; by intros ? ->].
  destruct (v_expected_return_date v) as [e|];
    [|apply triple_raise; by intros ? ->].
  cbv zeta.
  destruct (references_exist env v); [|apply triple_raise; by intros ? ->].
  set (id := fresh (dom (records env))).
  assert (Hnone : records env !! id = None).
  { apply not_elem_of_dom, is_fresh. }
  apply (triple_bind _ (λ _, computed_except ({[b]} ∪ ∅) ({[m]} ∪ ∅))).
  { apply triple_modify. intros ? ->.
    match goal with
    | |- context [<[id := ?row]>] =>
        exact (computed_after_insert id row env Hinv Hnone)
    end. }
  intros []. apply (triple_bind _ (λ _, computed_except ∅ ({[m]} ∪ ∅))).
  { apply triple_recompute_book. }
  intros []. apply (triple_bind _ (λ _, inv)).
  { apply triple_recompute_member. }
  intros []. apply (triple_bind _ (λ _, inv)).
  { apply triple_read_only; [apply read_only_check_actual_return_date|done]. }
  intros []. apply (triple_bind _ (λ _, inv)).
  { apply triple_read_only; [apply read_only_check_return_date|done]. }
  intros []. apply (triple_bind _ (λ _, inv)).
  { apply triple_read_only; [apply read_only_check_status_change|done]. }
  intros []. by apply triple_ret.
Qed.

Lemma triple_create today next_by_code v :
  triple inv (create today next_by_code v) (λ _, inv) invE.
Proof.
  unfold create. set (v' := if decide _ then _ else v).
  apply (triple_bind _ (λ _, inv)).
  { apply triple_read_only; [|done].
    destruct (v_member_id v') as [m|]; [|done].
    apply read_only_ask_bind. intros env.
    destruct (members env !! m) as [member|]; [|done].
    by destruct (_ <=? _). }
  intros []. apply (triple_bind _ (λ _, inv)).
  { apply triple_read_only; [|done].
    destruct (v_book_id v') as [b|]; [|done].
    apply read_only_ask_bind. intros env.
    destruct (books env !! b) as [book|]; [|done].
    by destruct (_ <? _). }
  intros []. cbv zeta. apply (triple_bind _ (λ _, inv)).
  { apply triple_orm_create. }
  intros record. apply triple_ask_bind; intros env Hinv.
  apply (triple_bind _ (λ _, inv)); [|intros []; by apply triple_ret].
  destruct (records env !! record) as [r|];
    [|apply triple_ret; by intros ? ->].
  apply triple_modify. intros ? ->.
  apply computed_except_recompute_member.
  eapply computed_except_weaken; [exact Hinv|done|apply empty_subseteq].
Qed.

(** The book and the member to recompute after a row is deleted. *)
Lemma computed_after_delete id r env :
  inv env →
  records env !! id = Some r →
  computed_except ({[book_id r]} ∪ ∅) ({[member_id r]} ∪ ∅)
    (set_records (delete id) env).
Proof.
  intros Hinv Hr.
  apply (computed_except_records ∅ ∅ _ _ env); try done.
  - intros b Hb. apply (unavailable_count_delete env id r); [done|].
    rewrite elem_of_union, elem_of_singleton in Hb. tauto.
  - intros m Hm. apply (count_status_delete env id r); [done|].
    rewrite elem_of_union, elem_of_singleton in Hm. tauto.
Qed.

Lemma triple_unlink self :
  triple inv (unlink self) (λ _, inv) invE.
Proof.
  unfold unlink. apply (triple_bind _ (λ _, inv)).
  { apply triple_read_only; [apply read_only_unlink_check|done]. }
  intros []. unfold orm_unlink.
  apply (triple_bind _ (λ _, inv)); [|intros []; by apply triple_ret].
  apply triple_for_each. intros id _.
  apply triple_ask_bind; intros env Hinv.
  destruct (records env !! id) as [r|] eqn:Hr;
    [|apply triple_ret; by intros ? ->].
  apply (triple_bind _
           (λ _, computed_except ({[book_id r]} ∪ ∅) ({[member_id r]} ∪ ∅))).
  { apply triple_modify. intros ? ->.
    by apply computed_after_delete. }
  intros []. apply (triple_bind _
                      (λ _, computed_except ∅ ({[member_id r]} ∪ ∅))).
  { apply triple_recompute_book. }
  intros []. apply triple_recompute_member.
Qed.

Lemma triple_action_return_book today id :
  triple inv (action_return_book today id) (λ _, inv) invE.
Proof.
  apply triple_ask_bind; intros env Hinv.
  destruct (records env !! id) as [r|];
    [|apply triple_raise; by intros ? ->].
  destruct (bool_decide _); [apply triple_raise; by intros ? ->|].
  cbv zeta. apply (triple_bind _ (λ _, inv)); [|intros ?; by apply triple_ret].
  eapply triple_conseq; [apply triple_write|by intros ? ->|done..].
Qed.

Lemma triple_action_extend_due_date id :
  triple inv (action_extend_due_date id) (λ _, inv) invE.
Proof.
  apply triple_read_only; [|done]. apply read_only_ask_bind. intros env.
  destruct (records env !! id) as [r|]; [|done]. by destruct (bool_decide _).
Qed.

Lemma triple_update_overdue_records today :
  triple inv (update_overdue_records today) (λ _, inv) invE.
Proof.
  apply triple_ask_bind; intros env Hinv.
  cbv zeta. apply (triple_bind _ (λ _, inv)); [|intros ?; by apply triple_ret].
  eapply triple_conseq; [apply triple_write|by intros ? ->|done..].
Qed.

Lemma triple_cron_calculate_overdue_fines today :
  triple inv (cron_calculate_overdue_fines today) (λ _, inv) invE.
Proof.
  apply (triple_try_except _ _ _ invE); [|intros e; by apply triple_ret].
  apply (triple_bind _ (λ _, inv)); [|intros ?; by apply triple_ret].
  apply triple_ask_bind; intros env Hinv. cbv zeta.
  apply (triple_bind _ (λ _, inv)).
  { eapply triple_conseq;
      [apply (triple_for_fold inv invE)|by intros ? ->|done..].
    intros totals id _. apply triple_ask_bind; intros env1 Hinv1.
    destruct (records env1 !! id) as [r|];
      [|apply triple_raise; by intros ? ->].
    cbv zeta.
    apply (triple_bind _ (λ _, inv)); [|intros ?; by apply triple_ret].
    eapply triple_conseq; [apply triple_write|by intros ? ->|done..]. }
  intros totals. apply triple_ask_bind; intros env1 Hinv1. cbv zeta.
  eapply triple_conseq; [apply (triple_for_fold inv invE)|by intros ? ->|done..].
  intros totals' id _. apply triple_ask_bind; intros env2 Hinv2.
  destruct (records env2 !! id) as [r|];
    [|apply triple_raise; by intros ? ->].
  cbv zeta. destruct (fine_changed today r);
    [|apply triple_ret; by intros ? ->].
  apply (triple_bind _ (λ _, inv)); [|intros ?; by apply triple_ret].
  eapply triple_conseq; [apply triple_write|by intros ? ->|done..].
Qed.
End record_triples.

Section book_member_triples.
Local Abbreviation inv := (computed_except ∅ ∅).
Local Abbreviation invE := (λ _ : Exception, computed_except ∅ ∅).

Lemma triple_book_create v :
  triple inv (library_book.create v) (λ _, inv) invE.
Proof.
  apply triple_ask_bind; intros env Hinv.
  destruct (Book.v_title v) as [t|]; [|apply triple_raise; by intros ? ->].
  destruct (Book.v_author v) as [a|]; [|apply triple_raise; by intros ? ->].
  destruct (Book.v_isbn v) as [i|]; [|apply triple_raise; by intros ? ->].
  cbv zeta. set (id := fresh (dom (books env))).
  assert (Hnone : books env !! id = None).
  { apply not_elem_of_dom, is_fresh. }
  destruct (unique_violation _ _ _ _); [apply triple_raise; by intros ? ->|].
  apply (triple_bind _ (λ _, computed_except ({[id]} ∪ ∅) ∅)).
  { apply triple_modify. intros ? ->.
    apply (computed_except_tables ∅ ∅ _ _ env); try done.
    - intros j book' Hj. simpl. rewrite lookup_insert_ne.
      + intros Hbook. split; [done|]. by exists book'.
      + rewrite elem_of_union, elem_of_singleton in Hj. intros ->. tauto.
    - intros j member' _ Hmem. split; [done|]. by exists member'. }
  intros []. apply (triple_bind _ (λ _, inv)).
  { apply triple_recompute_book. }
  intros []. apply (triple_bind _ (λ _, inv)); [|intros []; by apply triple_ret].
  apply triple_read_only; [apply read_only_check_isbn_unique|done].
Qed.

Lemma triple_book_write self v :
  triple inv (library_book.write self v) (λ _, inv) invE.
Proof.
  unfold library_book.write.
  apply (triple_bind _ (λ _, inv)); [|intros []; by apply triple_ret].
  apply triple_for_each. intros id _.
  apply triple_ask_bind; intros env Hinv.
  destruct (books env !! id) as [book|] eqn:Hbook;
    [|apply triple_raise; by intros ? ->].
  cbv zeta. destruct (_ && _); [apply triple_raise; by intros ? ->|].
  apply (triple_bind _
           (λ _, computed_except
                   (if bool_decide (is_Some (Book.v_total_copies v))
                    then {[id]} ∪ ∅ else ∅) ∅)).
  { apply triple_modify. intros ? ->.
    apply (computed_except_tables ∅ ∅ _ _ env); try done.
    - intros j book' Hj. simpl.
      destruct (decide (j = id)) as [->|Hne].
      + rewrite lookup_insert_eq. intros [= <-]. split; [done|].
        exists book. split; [done|]. split; [|done]. simpl.
        destruct (bool_decide _) eqn:Hc.
        * rewrite elem_of_union, elem_of_singleton in Hj. tauto.
        * apply bool_decide_eq_false in Hc.
          destruct (Book.v_total_copies v); [|done].
          destruct Hc. by eexists.
      + rewrite lookup_insert_ne by done.
        intros Hj'. split; [done|]. by exists book'.
    - intros j member' _ Hmem. split; [done|]. by exists member'. }
  intros []. apply (triple_bind _ (λ _, inv)).
  { apply triple_when.
    - intros ->. apply triple_recompute_book.
    - by intros ->. }
  intros []. apply triple_when; [|done]. intros _.
  apply triple_read_only; [apply read_only_check_isbn_unique|done].
Qed.

Lemma triple_book_unlink self :
  triple inv (library_book.unlink self) (λ _, inv) invE.
Proof.
  unfold library_book.unlink.
  apply (triple_bind _ (λ _, inv)); [|intros []; by apply triple_ret].
  apply triple_for_each. intros id _.
  apply triple_ask_bind; intros env Hinv.
  destruct (bool_decide _); [|apply triple_raise; by intros ? ->].
  apply triple_modify. intros ? ->.
  apply (computed_except_tables ∅ ∅ _ _ env); try done.
  - intros j book' _. simpl. rewrite lookup_delete_Some.
    intros [_ Hj]. split; [done|]. by exists book'.
  - intros j member' _ Hmem. split; [done|]. by exists member'.
Qed.

(** Writing values to a member keeps its stored field. *)
Lemma computed_member_applied v id env record :
  inv env →
  members env !! id = Some record →
  inv (set_members <[id := Member.apply v record]> env).
Proof.
  intros Hinv Hr. apply (computed_except_tables ∅ ∅ _ _ env); try done.
  - intros j book' _ Hbook. split; [done|]. by exists book'.
  - intros j member' _. simpl.
    destruct (decide (j = id)) as [->|Hne].
    + rewrite lookup_insert_eq. intros [= <-]. split; [done|].
      by exists record.
    + rewrite lookup_insert_ne by done.
      intros Hj. split; [done|]. by exists member'.
Qed.

Lemma triple_member_orm_write self v :
  triple inv (library_member.orm_write self v) (λ _, inv) invE.
Proof.
  unfold library_member.orm_write.
  apply (triple_bind _ (λ _, inv)); [|intros []; by apply triple_ret].
  apply triple_for_each. intros id _.
  apply triple_ask_bind; intros env Hinv.
  destruct (members env !! id) as [record|] eqn:Hr;
    [|apply triple_raise; by intros ? ->].
  cbv zeta. destruct (_ && _); [apply triple_raise; by intros ? ->|].
  apply (triple_bind _ (λ _, inv)).
  { apply triple_modify. intros ? ->.
    by apply computed_member_applied. }
  intros []. apply (triple_bind _ (λ _, inv)).
  { apply triple_when; [|done]. intros _.
    apply triple_read_only; [apply read_only_check_phone_unique|done]. }
  intros []. apply triple_when; [|done]. intros _.
  apply triple_read_only; [apply read_only_check_status_change|done].
Qed.

Lemma triple_member_write self v :
  triple inv (library_member.write self v) (λ _, inv) invE.
Proof.
  unfold library_member.write.
  apply (triple_bind _ (λ _, inv)); [apply triple_member_orm_write|].
  intros result.
  apply (triple_bind _ (λ _, inv)); [|intros []; by apply triple_ret].
  apply triple_when; [|done]. intros _.
  apply triple_for_each. intros id _.
  apply triple_ask_bind; intros env Hinv.
  destruct (members env !! id) as [record|];
    [|apply triple_raise; by intros ? ->].
  destruct (Member.member_status record);
    (apply (triple_bind _ (λ _, inv)); [|intros ?; by apply triple_ret]);
    (eapply triple_conseq;
       [apply triple_member_orm_write|by intros ? ->|done..]).
Qed.

Lemma triple_member_create today next_by_code v :
  triple inv (library_member.create today next_by_code v) (λ _, inv) invE.
Proof.
  unfold library_member.create. cbv zeta.
  set (v' := match Member.v_member_status _ with Some _ => _ | None => _ end).
  clearbody v'. unfold library_member.orm_create.
  apply triple_ask_bind; intros env Hinv.
  destruct (Member.v_name v') as [n|]; [|apply triple_raise; by intros ? ->].
  destruct (Member.v_email v') as [e|];
    [|apply triple_raise; by intros ? ->].
  destruct (Member.v_phone v') as [p|];
    [|apply triple_raise; by intros ? ->].
  cbv zeta. set (id := fresh (dom (members env))).
  assert (Hnone : members env !! id = None).
  { apply not_elem_of_dom, is_fresh. }
  destruct (unique_violation _ _ _ _); [apply triple_raise; by intros ? ->|].
  apply (triple_bind _ (λ _, computed_except ∅ ({[id]} ∪ ∅))).
  { apply triple_modify. intros ? ->.
    apply (computed_except_tables ∅ ∅ _ _ env); try done.
    - intros j book' _ Hbook. split; [done|]. by exists book'.
    - intros j member' Hj. simpl. rewrite lookup_insert_ne.
      + intros Hmem. split; [done|]. by exists member'.
      + rewrite elem_of_union, elem_of_singleton in Hj. intros ->. tauto. }
  intros []. apply (triple_bind _ (λ _, inv)).
  { apply triple_recompute_member. }
  intros []. apply (triple_bind _ (λ _, inv)).
  { apply triple_read_only; [apply read_only_check_phone_unique|done]. }
  intros []. apply (triple_bind _ (λ _, inv)); [|intros []; by apply triple_ret].
  apply triple_read_only; [apply read_only_check_status_change|done].
Qed.

Lemma triple_member_unlink self :
  triple inv (library_member.unlink self) (λ _, inv) invE.
Proof.
  unfold library_member.unlink.
  apply (triple_bind _ (λ _, inv)); [|intros []; by apply triple_ret].
  apply triple_for_each. intros id _.
  apply triple_ask_bind; intros env Hinv.
  destruct (bool_decide _); [|apply triple_raise; by intros ? ->].
  apply triple_modify. intros ? ->.
  apply (computed_except_tables ∅ ∅ _ _ env); try done.
  - intros j book' _ Hbook. split; [done|]. by exists book'.
  - intros j member' _. simpl. rewrite lookup_delete_Some.
    intros [_ Hj]. split; [done|]. by exists member'.
Qed.

Lemma triple_librarian_create :
  triple inv library_librarian.create (λ _, inv) invE.
Proof.
  apply triple_ask_bind; intros env Hinv. cbv zeta.
  apply (triple_bind _ (λ _, inv)); [|intros []; by apply triple_ret].
  apply triple_modify. by intros ? ->.
Qed.

(** Every call keeps the stored fields computed, whether it returns or
    raises. *)
Lemma triple_run today op : triple inv (run today op) (λ _, inv) invE.
Proof.
  destruct op; simpl;
    (apply (triple_bind _ (λ _, inv)); [|intros ?; by apply triple_ret]).
  - apply triple_book_create.
  - apply triple_book_write.
  - apply triple_book_unlink.
  - apply triple_member_create.
  - apply triple_member_write.
  - apply triple_member_unlink.
  - apply triple_librarian_create.
  - apply triple_create.
  - apply triple_write.
  - apply triple_unlink.
  - apply triple_action_return_book.
  - apply triple_action_extend_due_date.
  - apply triple_update_overdue_records.
  - apply triple_cron_calculate_overdue_fines.
Qed.

Lemma reachable_computed env : reachable env → inv env.
Proof.
  induction 1 as [|env today op Hreach IH].
  - split; intros id x _; simpl; by rewrite lookup_empty.
  - unfold call, transaction.
    pose proof (triple_run today op env IH) as H.
    destruct (run today op env) as [env' [e|a]]; done.
Qed.
End book_member_triples.

(** C3 (amended): in every reachable state, the [available_copies] of
    every book is [max(0, total_copies - n)], where [n] is the number of
    the book's borrowing records with status borrowed or overdue; so it is
    never negative, and it is at most [total_copies] whenever
    [total_copies] is not negative. *)
Theorem available_copies_computed env id book :
  reachable env →
  books env !! id = Some book →
  Book.available_copies book
  = Z.max 0 (Book.total_copies book - Z.of_nat (unavailable_count env id))
  ∧ 0 ≤ Book.available_copies book
  ∧ (0 ≤ Book.total_copies book →
     Book.available_copies book ≤ Book.total_copies book).
Proof.
  intros Hreach Hbook.
  destruct (reachable_computed env Hreach) as [Hb _].
  rewrite (Hb id book) by done.
  rewrite compute_available_copies_count. lia.
Qed.

(** In the demo library after the fine sweep: two copies, one overdue. *)
Lemma available_copies_computed_witness :
  Book.available_copies demo_book_row
  = Z.max 0 (Book.total_copies demo_book_row
             - Z.of_nat (unavailable_count demo_env_overdue 1))
  ∧ 0 ≤ Book.available_copies demo_book_row
  ∧ (0 ≤ Book.total_copies demo_book_row →
     Book.available_copies demo_book_row ≤ Book.total_copies demo_book_row).
Proof.
  apply (available_copies_computed demo_env_overdue 1 demo_book_row).
  - apply demo_env_overdue_reachable.
  - vm_compute. reflexivity.
Defined.

(** C3 as stated fails: nothing refuses a negative [total_copies], and
    the book then has [available_copies] 0, above its [total_copies]. *)
Lemma negative_total_copies_above_total :
  reachable demo_env_negative
  ∧ ∃ book,
      books demo_env_negative !! 1%positive = Some book
      ∧ Book.total_copies book = -1
      ∧ Book.available_copies book = 0
      ∧ ¬ (0 ≤ Book.available_copies book ≤ Book.total_copies book).
Proof.
  split; [apply reachable_call, reachable_empty|].
  exists (Book.mk "Dune" "Frank Herbert" "9780441172719" (-1) 0 true).
  split; [vm_compute; reflexivity|]. simpl. lia.
Qed.

(** C4: in every reachable state, the [current_borrowed] of every member
    is the number of the member's borrowing records whose status is
    borrowed: the overdue and the returned records are not counted. *)
Theorem current_borrowed_counts_borrowed env id member :
  reachable env →
  members env !! id = Some member →
  Member.current_borrowed member = Z.of_nat (count_status env id borrowed).
Proof.
  intros Hreach Hmember.
  destruct (reachable_computed env Hreach) as [_ Hm].
  rewrite (Hm id member) by done.
  apply compute_current_borrowed_count.
Qed.

(** In the demo library after the fine sweep, the member's only loan is
    overdue: it is out for the book, and not counted for the member. *)
Lemma current_borrowed_counts_borrowed_witness :
  Member.current_borrowed demo_member_overdue
  = Z.of_nat (count_status demo_env_overdue 1 borrowed)
  ∧ count_status demo_env_overdue 1 borrowed = 0%nat
  ∧ count_status demo_env_overdue 1 overdue = 1%nat
  ∧ unavailable_count demo_env_overdue 1 = 1%nat.
Proof.
  split.
  - apply (current_borrowed_counts_borrowed demo_env_overdue 1
             demo_member_overdue).
    + apply demo_env_overdue_reachable.
    + vm_compute. reflexivity.
  - repeat split; vm_compute; reflexivity.
Defined.

(** ** The daily fine sweep *)

Section fine_sweep.
Import BorrowingRecord library_borrowing_record.

(** A loop that writes [g r] to each row [r] it visits writes it to
    every row of the recordset, once. *)
Lemma for_fold_rows {S} (g : t → t) (body : S → positive → M S) :
  (∀ r, g (g r) = g r) →
  (∀ acc id env r, records env !! id = Some r →
     ∃ env' acc',
       body acc id env = (env', inr acc')
       ∧ records env' = <[id := g r]> (records env)) →
  ∀ l acc env,
    (∀ id, id ∈ l → is_Some (records env !! id)) →
    ∃ env' acc',
      for_fold l acc body env = (env', inr acc')
      ∧ ∀ k, records env' !! k
             = if decide (k ∈ l) then g <$> records env !! k
               else records env !! k.
Proof.
  intros Hg Hbody l. induction l as [|id l IH]; intros acc env Hl.
  { exists env, acc. split; [done|]. intros k.
    rewrite decide_False; [done|]. apply not_elem_of_nil. }
  destruct (Hl id) as [r Hr]; [by left|].
  destruct (Hbody acc id env r Hr) as (env1 & acc1 & Hrun & Hrec).
  destruct (IH acc1 env1) as (env2 & acc2 & Hrun2 & Hrec2).
  { intros j Hj. rewrite Hrec.
    destruct (decide (j = id)) as [->|Hne].
    - rewrite lookup_insert_eq. by eexists.
    - rewrite lookup_insert_ne by done. apply Hl. by right. }
  exists env2, acc2. split.
  { simpl. by rewrite run_bind, Hrun. }
  intros k. rewrite Hrec2, Hrec.
  destruct (decide (k = id)) as [->|Hne].
  - rewrite lookup_insert_eq, Hr, (decide_True _ _ (list_elem_of_here _ _)).
    simpl. destruct (decide (id ∈ l)); [by rewrite Hg|done].
  - rewrite lookup_insert_ne by done.
    destruct (decide (k ∈ l)) as [Hin|Hnin].
    + by rewrite decide_True by (by right).
    + rewrite decide_False; [done|].
      rewrite elem_of_cons. tauto.
Qed.

(** A loop whose body leaves the state as it is. *)
Lemma for_fold_unchanged {S} (body : S → positive → M S) l env :
  (∀ acc id, id ∈ l → ∃ acc', body acc id env = (env, inr acc')) →
  ∀ acc, ∃ acc', for_fold l acc body env = (env, inr acc').
Proof.
  induction l as [|id l IH]; intros Hbody acc; [by exists acc|].
  destruct (Hbody acc id) as [acc1 Hrun]; [by left|].
  destruct (IH (λ a j Hj, Hbody a j (list_elem_of_further _ _ _ Hj)) acc1)
    as [acc2 Hrun2].
  exists acc2. simpl. by rewrite run_bind, Hrun.
Qed.

(** ... and the local variables too. *)
Lemma for_fold_skip {S} (body : S → positive → M S) l env acc :
  (∀ id, id ∈ l → body acc id env = (env, inr acc)) →
  for_fold l acc body env = (env, inr acc).
Proof.
  induction l as [|id l IH]; intros Hbody; [done|].
  simpl. rewrite run_bind, Hbody by (by left).
  apply IH. intros j Hj. apply Hbody. by right.
Qed.

Lemma turned_overdue_idemp today r :
  turned_overdue today (turned_overdue today r) = turned_overdue today r.
Proof. by destruct r. Qed.

Lemma fine_updated_idemp today r :
  fine_updated today (fine_updated today r) = fine_updated today r.
Proof.
  unfold fine_updated at 2 3. destruct (fine_changed today r) eqn:Hc.
  - unfold fine_updated.
    destruct (fine_changed today (apply _ _)); by destruct r.
  - unfold fine_updated. by rewrite Hc.
Qed.

Lemma written_overdue_fine today r :
  written today
    (vals_overdue_fine
       (int_mul_float (today - expected_return_date r) (fine_per_day r))
       (today - expected_return_date r)) r
  = turned_overdue today r.
Proof. reflexivity. Qed.

Lemma written_fine today r :
  fine_changed today r = true →
  written today
    (vals_fine
       (int_mul_float (today - expected_return_date r) (fine_per_day r))
       (today - expected_return_date r)) r
  = fine_updated today r.
Proof. intros Hc. unfold fine_updated. by rewrite Hc. Qed.

(** The values of the two loops name no date and no reference. *)
Lemma dates_accepted_no_date v r :
  v_actual_return_date v = None → v_borrow_date v = None →
  v_expected_return_date v = None →
  dates_accepted v r.
Proof.
  intros H1 H2 H3. unfold dates_accepted. rewrite H1, H2, H3.
  split; intros [[? H]|[? H]]; discriminate H.
Qed.

Lemma run_cron_turn_overdue today totals id env r :
  records env !! id = Some r →
  ∃ env' totals',
    cron_turn_overdue today totals id env = (env', inr totals')
    ∧ records env' = <[id := turned_overdue today r]> (records env).
Proof.
  intros Hr. unfold cron_turn_overdue. rewrite run_ask_bind, Hr. cbv zeta.
  destruct (write_one_ok today
              (vals_overdue_fine
                 (int_mul_float (today - expected_return_date r)
                    (fine_per_day r))
                 (today - expected_return_date r)) id env r Hr)
    as (env' & Hrun & Hrec & _);
    [reflexivity|by apply dates_accepted_no_date|].
  eexists env', _. rewrite run_bind, Hrun. split; [reflexivity|].
  by rewrite Hrec, written_overdue_fine.
Qed.

Lemma run_cron_update_fine today totals id env r :
  records env !! id = Some r →
  ∃ env' totals',
    cron_update_fine today totals id env = (env', inr totals')
    ∧ records env' = <[id := fine_updated today r]> (records env)
    ∧ librarians env' = librarians env
    ∧ books env' = books env
    ∧ members env' = members env
    ∧ (fine_changed today r = false → totals' = totals).
Proof.
  intros Hr. unfold cron_update_fine. rewrite run_ask_bind, Hr. cbv zeta.
  destruct (fine_changed today r) eqn:Hc.
  - destruct (write_one_ok today
                (vals_fine
                   (int_mul_float (today - expected_return_date r)
                      (fine_per_day r))
                   (today - expected_return_date r)) id env r Hr)
      as (env' & Hrun & Hrec & Hl & Hb & Hm);
      [reflexivity|by apply dates_accepted_no_date|].
    eexists env', _. rewrite run_bind, Hrun. split; [reflexivity|].
    rewrite Hrec, written_fine by done.
    repeat split; auto. discriminate.
  - exists env, totals. split; [reflexivity|].
    unfold fine_updated. rewrite Hc, insert_id by done. done.
Qed.
End fine_sweep.

Section fine_sweep_runs.
Import BorrowingRecord library_borrowing_record.

Lemma env_eq env env' :
  books env' = books env → members env' = members env →
  librarians env' = librarians env → records env' = records env →
  env' = env.
Proof. destruct env, env'. simpl. by intros -> -> -> ->. Qed.

(** The rows of a recordset found by the domain [past_due], updated. *)
Lemma lookup_swept s today g (recs : gmap positive t) k :
  (if decide (k ∈ search by_borrow_date_desc (past_due s today) recs)
   then g <$> recs !! k else recs !! k)
  = (λ r, if past_due s today 1 r then g r else r) <$> recs !! k.
Proof.
  destruct (recs !! k) as [r|] eqn:Hr; simpl; [|by destruct (decide _)].
  destruct (decide _) as [Hin|Hnin].
  - apply elem_of_search in Hin as (x & Hx & Hp).
    rewrite Hr in Hx. injection Hx as <-.
    unfold past_due in *. by rewrite Hp.
  - destruct (past_due s today 1 r) eqn:Hp; [|done].
    destruct Hnin. apply elem_of_search. by exists r.
Qed.

(** The fine sweep never raises, and what it does to the records. *)
Lemma run_cron_body today env :
  ∃ env' totals,
    cron_calculate_overdue_fines_body today env = (env', inr totals)
    ∧ records env'
      = sweep_overdue today <$> (sweep_borrowed today <$> records env).
Proof.
  unfold cron_calculate_overdue_fines_body. rewrite run_ask_bind. cbv zeta.
  destruct (for_fold_rows (turned_overdue today) (cron_turn_overdue today)
              (turned_overdue_idemp today)
              (run_cron_turn_overdue today)
              (search by_borrow_date_desc (past_due borrowed today)
                 (records env))
              (0, 0%float) env)
    as (env1 & totals1 & Hrun1 & Hrec1).
  { intros id Hid. apply elem_of_search in Hid as (r & Hr & _).
    by rewrite Hr. }
  rewrite run_bind, Hrun1. cbv beta iota. rewrite run_ask_bind. cbv zeta.
  destruct (for_fold_rows (fine_updated today) (cron_update_fine today)
              (fine_updated_idemp today)
              (λ acc id env r Hr,
                 match run_cron_update_fine today acc id env r Hr with
                 | ex_intro _ env' (ex_intro _ acc' (conj H1 (conj H2 _))) =>
                     ex_intro _ env' (ex_intro _ acc' (conj H1 H2))
                 end)
              (search by_borrow_date_desc (past_due overdue today)
                 (records env1))
              totals1 env1)
    as (env2 & totals2 & Hrun2 & Hrec2).
  { intros id Hid. apply elem_of_search in Hid as (r & Hr & _).
    by rewrite Hr. }
  exists env2, totals2. split; [exact Hrun2|].
  apply map_eq. intros k.
  rewrite Hrec2, lookup_swept, lookup_fmap. f_equal.
  by rewrite Hrec1, lookup_swept, lookup_fmap.
Qed.

Lemma fine_updated_status today r :
  status (fine_updated today r) = status r
  ∧ expected_return_date (fine_updated today r) = expected_return_date r.
Proof. unfold fine_updated. by destruct (fine_changed today r). Qed.

(** After a sweep, a record is not to be turned overdue, and updating
    its fine would write what it holds. *)
Lemma swept_settled today r :
  past_due borrowed today 1 (sweep_overdue today (sweep_borrowed today r))
  = false
  ∧ (past_due overdue today 1
       (sweep_overdue today (sweep_borrowed today r)) = true →
     fine_updated today (sweep_overdue today (sweep_borrowed today r))
     = sweep_overdue today (sweep_borrowed today r)).
Proof.
  unfold sweep_overdue.
  set (r1 := sweep_borrowed today r).
  assert (H1 : past_due borrowed today 1 r1 = false).
  { unfold r1, sweep_borrowed.
    destruct (past_due borrowed today 1 r) eqn:Hp; [|done].
    unfold past_due. simpl. by destruct r. }
  destruct (past_due overdue today 1 r1) eqn:Hp.
  - destruct (fine_updated_status today r1) as [Hs He]. split.
    + unfold past_due in *. by rewrite Hs, He.
    + intros _. apply fine_updated_idemp.
  - split; [done|]. by rewrite Hp.
Qed.

(** A sweep of records that are settled changes nothing. *)
Lemma run_cron_body_settled today env :
  (∀ id r, records env !! id = Some r →
     past_due borrowed today 1 r = false
     ∧ (past_due overdue today 1 r = true → fine_updated today r = r)) →
  (∃ totals,
     cron_calculate_overdue_fines_body today env = (env, inr totals))
  ∧ ((∀ id r, records env !! id = Some r →
        past_due overdue today 1 r = true → fine_changed today r = false) →
     cron_calculate_overdue_fines_body today env
     = (env, inr (0, 0%float))).
Proof.
  intros Hsettled.
  unfold cron_calculate_overdue_fines_body. rewrite run_ask_bind. cbv zeta.
  assert (search by_borrow_date_desc (past_due borrowed today) (records env)
          = []) as ->.
  { unfold search. rewrite search_rows_nil; [done|].
    intros i r Hr. by destruct (Hsettled i r Hr). }
  simpl for_fold. rewrite run_ret_bind, run_ask_bind. cbv zeta.
  split.
  - apply for_fold_unchanged. intros acc id Hid.
    apply elem_of_search in Hid as (r & Hr & Hp).
    destruct (run_cron_update_fine today acc id env r Hr)
      as (env' & acc' & Hrun & Hrec & Hl & Hb & Hm & _).
    exists acc'. rewrite Hrun. f_equal. apply env_eq; try done.
    rewrite Hrec. destruct (Hsettled id r Hr) as [_ Hfix].
    rewrite (Hfix Hp). by apply insert_id.
  - intros Hquiet. apply for_fold_skip. intros id Hid.
    apply elem_of_search in Hid as (r & Hr & Hp).
    unfold cron_update_fine. rewrite run_ask_bind, Hr. cbv zeta.
    by rewrite (Hquiet id r Hr Hp).
Qed.

(** The fine that a sweep leaves compares equal to the recomputed one,
    unless it is not a number. *)
Lemma fine_updated_quiet today r :
  PrimFloat.eqb (fine_amount (fine_updated today r))
    (fine_amount (fine_updated today r)) = true →
  fine_changed today (fine_updated today r) = false.
Proof.
  unfold fine_updated. destruct (fine_changed today r) eqn:Hc; [|done].
  unfold fine_changed, float_ne, int_ne. destruct r; simpl.
  intros ->. by rewrite Z.eqb_refl.
Qed.
End fine_sweep_runs.

(** C5: the daily fine sweep returns true, and a second run on the same
    day returns true and leaves the database exactly as the first run left
    it: after the first run no borrowed record is past due, so the second
    run turns no record overdue, and it changes no fine and no
    [days_overdue]. It even writes no record (it reports 0 records updated
    and a total of 0.0), as long as no fine is the float NaN, which never
    compares equal to itself. *)
Theorem cron_calculate_overdue_fines_idempotent today env :
  ∃ env1,
    library_borrowing_record.cron_calculate_overdue_fines today env
    = (env1, inr true)
    ∧ library_borrowing_record.cron_calculate_overdue_fines today env1
      = (env1, inr true)
    ∧ (∀ id r, records env1 !! id = Some r →
         ¬ (BorrowingRecord.status r = borrowed
            ∧ BorrowingRecord.expected_return_date r < today))
    ∧ ((∀ id r, records env1 !! id = Some r →
          PrimFloat.eqb (BorrowingRecord.fine_amount r)
            (BorrowingRecord.fine_amount r) = true) →
       library_borrowing_record.cron_calculate_overdue_fines_body today env1
       = (env1, inr (0, 0%float))).
Proof.
  destruct (run_cron_body today env) as (env1 & totals & Hrun & Hrec).
  assert (Hsettled : ∀ id r, records env1 !! id = Some r →
    library_borrowing_record.past_due borrowed today 1 r = false
    ∧ (library_borrowing_record.past_due overdue today 1 r = true →
       fine_updated today r = r)).
  { intros id r. rewrite Hrec, !lookup_fmap.
    destruct (records env !! id) as [r0|]; [|done]. simpl.
    intros [= <-]. apply swept_settled. }
  destruct (run_cron_body_settled today env1 Hsettled) as [[totals' Hrun'] H0].
  exists env1. unfold library_borrowing_record.cron_calculate_overdue_fines,
    try_except.
  rewrite !run_bind, Hrun, Hrun'. split; [done|]. split; [done|]. split.
  - intros id r Hr [Hs Hlt]. destruct (Hsettled id r Hr) as [Hp _].
    unfold library_borrowing_record.past_due in Hp.
    rewrite bool_decide_eq_true_2, (proj2 (Z.ltb_lt _ _) Hlt) in Hp by done.
    done.
  - intros Hnum. rewrite <-Hrun'. apply H0. intros id r Hr Hp.
    destruct (Hsettled id r Hr) as [_ Hfix].
    rewrite <-(Hfix Hp). apply fine_updated_quiet.
    rewrite (Hfix Hp). by apply (Hnum id).
Qed.

(** ** library.member: what holds of the status, the limit and the phone *)

Section member_extras.
Import Member library_member.

Lemma read_only_when (b : bool) (m : M unit) :
  read_only m → read_only (when b m).
Proof. intros Hm. by destruct b. Qed.

(** One row written: the row after the write, when it succeeds. *)
Lemma orm_write_row_members v id env env' record :
  members env !! id = Some record →
  orm_write_row v id env = (env', inr tt) →
  env' = set_members <[id := apply v record]> env.
Proof.
  intros Hr. unfold orm_write_row. rewrite run_ask_bind, Hr. cbv zeta.
  destruct (_ && _); [discriminate|].
  rewrite run_modify_bind, run_bind.
  set (env1 := set_members <[id := apply v record]> env).
  pose proof (read_only_when (bool_decide (is_Some (v_phone v))) _
                (read_only_check_phone_unique [id]) env1) as H1.
  destruct (when _ (_check_phone_unique [id]) env1) as [env2 [e|[]]];
    [discriminate|].
  simpl in H1. subst env2.
  pose proof (read_only_when (bool_decide (is_Some (v_member_status v))) _
                (read_only_check_status_change [id]) env1) as H2.
  destruct (when _ (_check_status_change_borrowing_limit [id]) env1)
    as [env3 [e|[]]]; [discriminate|].
  simpl in H2. subst env3. by intros [= <-].
Qed.

(** The limit that goes with a status. *)
Lemma write_sets_limit v id env env' record s b :
  members env !! id = Some record →
  v_member_status v = Some s →
  write [id] v env = (env', inr b) →
  ∃ record',
    members env' !! id = Some record'
    ∧ member_status record' = s
    ∧ max_borrow_limit record' = match s with active => 10 | _ => 5 end.
Proof.
  intros Hr Hs. unfold write, orm_write.
  rewrite !run_bind, run_for_each_one.
  destruct (orm_write_row v id env) as [env1 [e|[]]] eqn:Hrow;
    [discriminate|].
  apply (orm_write_row_members v id env env1 record Hr) in Hrow.
  rewrite run_ret. cbv beta iota.
  rewrite run_bind, bool_decide_eq_true_2 by (rewrite Hs; by eexists).
  unfold when. rewrite run_for_each_one.
  assert (Hnew : members env1 !! id = Some (apply v record)).
  { subst env1. apply lookup_insert_eq. }
  rewrite (run_write_limit_of_status id env1 _ Hnew). cbv beta iota.
  rewrite run_ret. intros [= <- _]. eexists. split.
  { apply lookup_insert_eq. }
  simpl. rewrite Hs. simpl. by destruct s.
Qed.

Lemma create_sets_limit today next_by_code v env env' id s :
  v_member_status v = Some s →
  create today next_by_code v env = (env', inr id) →
  ∃ record,
    members env' !! id = Some record
    ∧ member_status record = s
    ∧ max_borrow_limit record = match s with active => 10 | _ => 5 end.
Proof.
  intros Hs. unfold create. cbv zeta.
  set (v1 := if decide _ then _ else v).
  assert (Hs1 : v_member_status v1 = Some s).
  { unfold v1. by destruct (decide _). }
  rewrite Hs1.
  set (v2 := match s with
             | active => set_v_max_borrow_limit 10 v1
             | inactive => set_v_max_borrow_limit 5 v1
             | pending => set_v_max_borrow_limit 5 v1
             end).
  assert (Hs2 : v_member_status v2 = Some s) by (unfold v2; by destruct s).
  assert (Hl2 : v_max_borrow_limit v2
                = Some (match s with active => 10 | _ => 5 end))
    by (unfold v2; by destruct s).
  clearbody v2. unfold orm_create. rewrite run_ask_bind.
  destruct (v_name v2) as [n|]; [|discriminate].
  destruct (v_email v2) as [e|]; [|discriminate].
  destruct (v_phone v2) as [p|]; [|discriminate].
  cbv zeta. destruct (unique_violation _ _ _ _); [discriminate|].
  unfold recompute_current_borrowed.
  rewrite run_modify_bind, run_modify_bind, run_bind.
  set (env2 := current_borrowed_recomputed _ _).
  pose proof (read_only_check_phone_unique [fresh (dom (members env))] env2)
    as H1.
  destruct (_check_phone_unique _ env2) as [env3 [?|[]]]; [discriminate|].
  simpl in H1. subst env3. rewrite run_bind.
  pose proof (read_only_check_status_change [fresh (dom (members env))] env2)
    as H2.
  destruct (_check_status_change_borrowing_limit _ env2) as [env4 [?|[]]];
    [discriminate|].
  simpl in H2. subst env4. rewrite run_ret. intros [= <- <-].
  unfold env2, current_borrowed_recomputed. simpl.
  rewrite lookup_alter, decide_True, lookup_insert_eq by done.
  eexists. split; [reflexivity|]. simpl. by rewrite Hs2, Hl2.
Qed.

(** UNIQUE(phone): a member with the phone of another member, whatever
    the status of that member, is not created. *)
Lemma create_same_phone today next_by_code v env j other p :
  members env !! j = Some other →
  phone other = p →
  v_phone v = Some p →
  is_Some (v_name v) → is_Some (v_email v) →
  create today next_by_code v env = (env, inl (IntegrityError "unique_phone")).
Proof.
  intros Hj Hp Hv [n Hn] [e He]. unfold create. cbv zeta.
  set (v1 := if decide _ then _ else v).
  assert (v_name v1 = Some n ∧ v_email v1 = Some e ∧ v_phone v1 = Some p)
    as (Hn1 & He1 & Hp1) by (unfold v1; by destruct (decide _)).
  set (v2 := match v_member_status v1 with Some _ => _ | None => _ end).
  assert (v_name v2 = Some n ∧ v_email v2 = Some e ∧ v_phone v2 = Some p)
    as (Hn2 & He2 & Hp2).
  { unfold v2. destruct (v_member_status v1) as [[]|]; done. }
  clearbody v2. unfold orm_create.
  rewrite run_ask_bind, Hn2, He2, Hp2. cbv zeta.
  assert (unique_violation phone (members env) (fresh (dom (members env))) p
          = true) as ->; [|done].
  apply bool_decide_eq_true, Exists_exists. exists (j, other).
  split; [by apply elem_of_map_to_list|]. split; [|done]. simpl.
  intros ->.
  apply (is_fresh (dom (members env))), elem_of_dom. by eexists.
Qed.

(** Without [member_status] in the values, [create] leaves the limit to
    the values and to the default of the field, and [write] stores the
    values and no more. *)
Lemma create_without_status today next_by_code v env env' id :
  v_member_status v = None →
  create today next_by_code v env = (env', inr id) →
  ∃ record,
    members env' !! id = Some record
    ∧ member_status record = active
    ∧ max_borrow_limit record = default 5 (v_max_borrow_limit v).
Proof.
  intros Hs. unfold create. cbv zeta.
  set (v1 := if decide _ then _ else v).
  assert (Hs1 : v_member_status v1 = None).
  { unfold v1. by destruct (decide _). }
  assert (Hl1 : v_max_borrow_limit v1 = v_max_borrow_limit v).
  { unfold v1. by destruct (decide _). }
  rewrite Hs1. clearbody v1. unfold orm_create. rewrite run_ask_bind.
  destruct (v_name v1) as [n|]; [|discriminate].
  destruct (v_email v1) as [e|]; [|discriminate].
  destruct (v_phone v1) as [p|]; [|discriminate].
  cbv zeta. destruct (unique_violation _ _ _ _); [discriminate|].
  unfold recompute_current_borrowed.
  rewrite run_modify_bind, run_modify_bind, run_bind.
  set (env2 := current_borrowed_recomputed _ _).
  pose proof (read_only_check_phone_unique [fresh (dom (members env))] env2)
    as H1.
  destruct (_check_phone_unique _ env2) as [env3 [?|[]]]; [discriminate|].
  simpl in H1. subst env3. rewrite run_bind.
  pose proof (read_only_check_status_change [fresh (dom (members env))] env2)
    as H2.
  destruct (_check_status_change_borrowing_limit _ env2) as [env4 [?|[]]];
    [discriminate|].
  simpl in H2. subst env4. rewrite run_ret. intros [= <- <-].
  unfold env2, current_borrowed_recomputed. simpl.
  rewrite lookup_alter, decide_True, lookup_insert_eq by done.
  eexists. split; [reflexivity|]. simpl. by rewrite Hs1, Hl1.
Qed.

Lemma write_without_status v id env env' record b :
  members env !! id = Some record →
  v_member_status v = None →
  write [id] v env = (env', inr b) →
  members env' !! id = Some (apply v record).
Proof.
  intros Hr Hs. unfold write, orm_write.
  rewrite !run_bind, run_for_each_one.
  destruct (orm_write_row v id env) as [env1 [e|[]]] eqn:Hrow;
    [discriminate|].
  apply (orm_write_row_members v id env env1 record Hr) in Hrow.
  rewrite run_ret. cbv beta iota.
  rewrite run_bind, bool_decide_eq_false_2 by (rewrite Hs; by intros [??]).
  unfold when. rewrite run_ret. cbv beta iota. rewrite run_ret.
  intros [= <- _]. subst env1. apply lookup_insert_eq.
Qed.
End member_extras.

(** C6 (amended): the limit follows the status that the values give. A
    successful write whose values set [member_status], and a successful
    creation whose values give it, leave the member with that status and
    with the limit 10 when it is active, 5 when it is pending or
    inactive. Values without [member_status] do not touch the limit: a
    write stores the limit they give or leaves the one of the member, and
    a creation makes the member active, the default, with the limit they
    give or the default of the field, 5. *)
Theorem limit_follows_given_status today next_by_code env env' id v :
  (∀ s,
     Member.v_member_status v = Some s →
     (∀ record,
        members env !! id = Some record →
        (∃ b, library_member.write [id] v env = (env', inr b)) →
        ∃ record',
          members env' !! id = Some record'
          ∧ Member.member_status record' = s
          ∧ Member.max_borrow_limit record'
            = match s with active => 10 | _ => 5 end)
     ∧ (library_member.create today next_by_code v env = (env', inr id) →
        ∃ record',
          members env' !! id = Some record'
          ∧ Member.member_status record' = s
          ∧ Member.max_borrow_limit record'
            = match s with active => 10 | _ => 5 end))
  ∧ (Member.v_member_status v = None →
     (∀ record,
        members env !! id = Some record →
        (∃ b, library_member.write [id] v env = (env', inr b)) →
        ∃ record',
          members env' !! id = Some record'
          ∧ Member.member_status record' = Member.member_status record
          ∧ Member.max_borrow_limit record'
            = default (Member.max_borrow_limit record)
                (Member.v_max_borrow_limit v))
     ∧ (library_member.create today next_by_code v env = (env', inr id) →
        ∃ record',
          members env' !! id = Some record'
          ∧ Member.member_status record' = active
          ∧ Member.max_borrow_limit record'
            = default 5 (Member.v_max_borrow_limit v))).
Proof.
  split.
  - intros s Hs. split.
    + intros record Hr [b Hrun].
      by apply (write_sets_limit v id env env' record s b).
    + intros Hrun.
      by apply (create_sets_limit today next_by_code v env env' id s).
  - intros Hs. split.
    + intros record Hr [b Hrun].
      exists (Member.apply v record). split.
      { by apply (write_without_status v id env env' record b). }
      simpl. by rewrite Hs.
    + intros Hrun.
      by apply (create_without_status today next_by_code v env env' id).
Qed.

(** A member entered without a status, in an empty library: active, with
    the limit 5. *)
Lemma limit_follows_given_status_witness :
  ∃ record',
    members demo_env_no_status !! 1%positive = Some record'
    ∧ Member.member_status record' = active
    ∧ Member.max_borrow_limit record' = 5.
Proof.
  refine (proj2 (proj2 (limit_follows_given_status 100 (Some "LM0001")
                          empty_env demo_env_no_status 1
                          demo_member_no_status) _) _).
  - reflexivity.
  - vm_compute. reflexivity.
Defined.

(** X1: a successful write that sets the status of a member leaves the
    member with that status and with the limit that goes with it (10 for
    active, 5 for pending and inactive), and so does a successful creation
    whose values give the status. *)
Theorem status_sets_limit env env' id record v s :
  Member.v_member_status v = Some s →
  (members env !! id = Some record →
   (∃ b, library_member.write [id] v env = (env', inr b)) →
   ∃ record',
     members env' !! id = Some record'
     ∧ Member.member_status record' = s
     ∧ Member.max_borrow_limit record'
       = match s with active => 10 | _ => 5 end)
  ∧ (∀ today next_by_code,
       library_member.create today next_by_code v env = (env', inr id) →
       ∃ record',
         members env' !! id = Some record'
         ∧ Member.member_status record' = s
         ∧ Member.max_borrow_limit record'
           = match s with active => 10 | _ => 5 end).
Proof.
  intros Hs. split.
  - intros Hr [b Hrun]. by apply (write_sets_limit v id env env' record s b).
  - intros today next_by_code Hrun.
    by apply (create_sets_limit today next_by_code v env env' id s).
Qed.

(** X2: whatever the status of the members, a member whose phone is that
    of an existing member is not created: the insertion violates
    UNIQUE(phone), and the database is left as it is. *)
Theorem create_refuses_same_phone today next_by_code v env j other :
  members env !! j = Some other →
  Member.v_phone v = Some (Member.phone other) →
  is_Some (Member.v_name v) →
  is_Some (Member.v_email v) →
  library_member.create today next_by_code v env
  = (env, inl (IntegrityError "unique_phone")).
Proof.
  intros Hj Hv Hn He.
  by apply (create_same_phone today next_by_code v env j other
              (Member.phone other)).
Qed.

(** In the demo library, the active member made pending. *)
Lemma status_sets_limit_witness :
  ∃ record',
    members demo_env_pending !! 1%positive = Some record'
    ∧ Member.member_status record' = pending
    ∧ Member.max_borrow_limit record' = 5.
Proof.
  refine (proj1 (status_sets_limit demo_env demo_env_pending 1
                   demo_member_row (vals_member_status pending) pending _)
            _ _).
  - reflexivity.
  - vm_compute. reflexivity.
  - exists true. vm_compute. reflexivity.
Defined.

(** In the library whose only member is inactive. *)
Lemma create_refuses_same_phone_witness :
  library_member.create 101 (Some "LM0002") demo_member_same_phone
    demo_env_inactive
  = (demo_env_inactive, inl (IntegrityError "unique_phone")).
Proof.
  apply (create_refuses_same_phone 101 (Some "LM0002")
           demo_member_same_phone demo_env_inactive 1
           demo_member_inactive_row).
  - vm_compute. reflexivity.
  - reflexivity.
  - by eexists.
  - by eexists.
Defined.

(** ** library.borrowing.record: the days overdue *)

(** X3: [_compute_days_overdue] never gives a negative number; for a
    record that is out (borrowed or overdue) it is the number of days by
    which [today] is past the expected return date, so it grows with
    [today]; for a returned record it does not depend on [today]: it is
    the lateness of the actual return date, and 0 when that date is not
    set. *)
Theorem days_overdue_not_negative today record :
  0 ≤ library_borrowing_record._compute_days_overdue today record
  ∧ (BorrowingRecord.status record ≠ returned →
     library_borrowing_record._compute_days_overdue today record
     = days_late today record)
  ∧ (BorrowingRecord.status record = returned →
     library_borrowing_record._compute_days_overdue today record
     = match BorrowingRecord.actual_return_date record with
       | Some actual => days_late actual record
       | None => 0
       end)
  ∧ (∀ today', today ≤ today' →
       library_borrowing_record._compute_days_overdue today record
       ≤ library_borrowing_record._compute_days_overdue today' record).
Proof.
  unfold library_borrowing_record._compute_days_overdue, days_late.
  destruct record as [? ? ? ? bd e [a|] [] d f p]; simpl;
    repeat split; try done; intros;
    repeat match goal with
           | |- context [?x <? ?y] => destruct (Z.ltb_spec x y)
           end; lia.
Qed.

(** ** library.borrowing.record: a return is final *)

(** X4: [action_return_book] on a returned record raises, and leaves the
    database as it is; so a record that has been returned with success
    cannot be returned again on any later day, and keeps the return date,
    the days and the fine of its return. *)
Theorem return_is_final today id env r :
  records env !! id = Some r →
  (BorrowingRecord.status r = returned →
   library_borrowing_record.action_return_book today id env
   = (env, inl (ValidationError "This book has already been returned.")))
  ∧ (∀ env1 a,
       library_borrowing_record.action_return_book today id env
       = (env1, inr a) →
       records env1 !! id = Some (returned_on today r)
       ∧ ∀ today',
           library_borrowing_record.action_return_book today' id env1
           = (env1, inl (ValidationError
                           "This book has already been returned."))).
Proof.
  intros Hr.
  assert (Hfinal : ∀ day env0 r0, records env0 !! id = Some r0 →
    BorrowingRecord.status r0 = returned →
    library_borrowing_record.action_return_book day id env0
    = (env0, inl (ValidationError "This book has already been returned."))).
  { intros day env0 r0 Hr0 Hs.
    unfold library_borrowing_record.action_return_book.
    rewrite run_ask_bind, Hr0. by rewrite bool_decide_eq_true_2. }
  split; [by apply Hfinal|].
  intros env1 a Hrun.
  destruct (decide (BorrowingRecord.status r = returned)) as [Hs|Hs].
  { by rewrite (Hfinal today env r Hr Hs) in Hrun. }
  destruct (Z.le_gt_cases (BorrowingRecord.borrow_date r) today) as [Hle|Hgt].
  - destruct (action_return_book_ok today id env r Hr Hs Hle)
      as (env' & Hrun' & Hrecs).
    rewrite Hrun' in Hrun. injection Hrun as -> _.
    assert (Hr1 : records env1 !! id = Some (returned_on today r)).
    { rewrite Hrecs. apply lookup_insert_eq. }
    split; [done|]. intros today'. by apply (Hfinal today' env1 _ Hr1).
  - pose proof (action_return_book_refused today id env r Hr Hs Hgt) as Hno.
    by rewrite Hrun in Hno.
Qed.

(** In the demo library: the loan returned on day 113 is not returned a
    second time on day 120. *)
Lemma return_is_final_witness :
  ∃ env1,
    records env1 !! 1%positive = Some (returned_on 113 demo_record)
    ∧ library_borrowing_record.action_return_book 120 1 env1
      = (env1, inl (ValidationError "This book has already been returned.")).
Proof.
  destruct (library_borrowing_record.action_return_book 113 1 demo_env)
    as [env1 [e|a]] eqn:Hrun; [by vm_compute in Hrun|].
  exists env1.
  destruct (proj2 (return_is_final 113 1 demo_env demo_record
                     demo_env_record) env1 a Hrun) as [Hr Hagain].
  split; [exact Hr|]. apply Hagain.
Defined.

(** ** library.member: the borrowing limit *)

Lemma create_limit_reached today next_by_code v env m member :
  BorrowingRecord.v_member_id v = Some m →
  members env !! m = Some member →
  Member.max_borrow_limit member ≤ Z.of_nat (count_status env m borrowed) →
  library_borrowing_record.create today next_by_code v env
  = (env, inl (ValidationError
                 (library_borrowing_record.limit_message member))).
Proof.
  intros Hm Hmember Hle. unfold library_borrowing_record.create.
  set (v' := if decide _ then _ else v).
  assert (BorrowingRecord.v_member_id v' = Some m) as ->.
  { unfold v'. by destruct (decide _). }
  rewrite run_bind, run_ask_bind, Hmember. cbv zeta.
  rewrite count_borrowed_count.
  by rewrite (proj2 (Z.leb_le _ _) Hle).
Qed.

(** X5: in every state the calls reach, [check_borrow_limit] decides by
    the number of borrowed records of the member, as [create] of a
    borrowing record does: when that number has reached the limit both
    raise the same error and leave the database as it is, and below the
    limit [check_borrow_limit] returns. *)
Theorem check_borrow_limit_as_create env id member :
  reachable env →
  members env !! id = Some member →
  (Member.max_borrow_limit member ≤ Z.of_nat (count_status env id borrowed) →
   library_member.check_borrow_limit id env
   = (env, inl (ValidationError
                  (library_borrowing_record.limit_message member)))
   ∧ ∀ today next_by_code v,
       BorrowingRecord.v_member_id v = Some id →
       library_borrowing_record.create today next_by_code v env
       = (env, inl (ValidationError
                      (library_borrowing_record.limit_message member))))
  ∧ (Z.of_nat (count_status env id borrowed) < Member.max_borrow_limit member →
     library_member.check_borrow_limit id env = (env, inr tt)).
Proof.
  intros Hreach Hmember.
  assert (Hcb : Member.current_borrowed member
                = Z.of_nat (count_status env id borrowed)).
  { rewrite <-compute_current_borrowed_count.
    by apply (proj2 (reachable_computed env Hreach) id member). }
  unfold library_member.check_borrow_limit.
  rewrite run_ask_bind, Hmember, Hcb. split.
  - intros Hle. rewrite (proj2 (Z.leb_le _ _) Hle). split; [done|].
    intros today next_by_code v Hv.
    by apply (create_limit_reached today next_by_code v env id member).
  - intros Hlt. by rewrite (proj2 (Z.leb_gt _ _) Hlt).
Qed.

(** In the demo library with the limit of the member set to 1: the
    member holds one loan, and may not take another. *)
Lemma check_borrow_limit_as_create_witness :
  library_member.check_borrow_limit 1 demo_env_limit
  = (demo_env_limit,
     inl (ValidationError
            (library_borrowing_record.limit_message demo_member_limit)))
  ∧ ∀ today next_by_code v,
      BorrowingRecord.v_member_id v = Some 1%positive →
      library_borrowing_record.create today next_by_code v demo_env_limit
      = (demo_env_limit,
         inl (ValidationError
                (library_borrowing_record.limit_message demo_member_limit))).
Proof.
  refine (proj1 (check_borrow_limit_as_create demo_env_limit 1
                   demo_member_limit _ _) _).
  - constructor. apply demo_env_reachable.
  - vm_compute. reflexivity.
  - vm_compute. discriminate.
Defined.

(** ** The uniqueness checks *)

Section first_row.
Context {A : Type}.
Implicit Types (tbl : gmap positive A) (domain : positive → A → bool).

Lemma by_id_transitive : Transitive (@by_id A).
Proof. intros p q r. unfold by_id. lia. Qed.

Lemma by_id_total : Total (@by_id A).
Proof. intros p q. unfold by_id. lia. Qed.

(** [search(domain, limit=1)] with the default order: the matching row
    with the least id, if a row matches. *)
Lemma head_search_rows_by_id domain tbl :
  match head (search_rows by_id domain tbl) with
  | Some (k, y) =>
      tbl !! k = Some y ∧ domain k y = true
      ∧ ∀ j x, tbl !! j = Some x → domain j x = true → (k ≤ j)%positive
  | None => ∀ j x, tbl !! j = Some x → domain j x = false
  end.
Proof.
  pose proof by_id_transitive. pose proof by_id_total.
  pose proof (StronglySorted_merge_sort by_id
    (filter (λ p, Is_true (domain p.1 p.2)) (map_to_list tbl))) as Hsorted.
  fold (search_rows by_id domain tbl) in Hsorted.
  destruct (search_rows by_id domain tbl) as [|[k y] l] eqn:Hrows; simpl.
  - intros j x Hj. destruct (domain j x) eqn:Hd; [|done].
    assert ((j, x) ∈ search_rows by_id domain tbl) as Hin
      by by apply elem_of_search_rows.
    rewrite Hrows in Hin. by apply elem_of_nil in Hin.
  - assert ((k, y) ∈ search_rows by_id domain tbl) as Hin
      by (rewrite Hrows; left).
    apply elem_of_search_rows in Hin as [Hk Hd]. split; [done|].
    split; [done|]. intros j x Hj Hdj.
    assert ((j, x) ∈ search_rows by_id domain tbl) as Hinj
      by by apply elem_of_search_rows.
    rewrite Hrows in Hinj. apply elem_of_cons in Hinj as [[= -> ->]|Hinj].
    + done.
    + apply StronglySorted_inv in Hsorted as [_ Hall].
      by apply (proj1 (Forall_forall _ _) Hall (j, x)).
Qed.
End first_row.

(** X6: [_check_isbn_unique] of a book with an ISBN raises exactly when
    another book that is not archived has that ISBN, and then its message
    names such a book, the one with the least id; it returns when no
    other book has the ISBN, and also when only archived books have it:
    the search of the check does not find them. It leaves the database
    as it is. *)
Theorem check_isbn_unique_names_first id env book :
  books env !! id = Some book →
  Book.isbn book ≠ "" →
  ((∀ j other, books env !! j = Some other → j ≠ id →
      Book.isbn other = Book.isbn book → Book.active other = false) →
   library_book._check_isbn_unique [id] env = (env, inr tt))
  ∧ ((∃ j other, books env !! j = Some other ∧ j ≠ id
        ∧ Book.isbn other = Book.isbn book
        ∧ Book.active other = true) →
     ∃ k existing,
       books env !! k = Some existing ∧ k ≠ id
       ∧ Book.isbn existing = Book.isbn book
       ∧ Book.active existing = true
       ∧ (∀ j other, books env !! j = Some other → j ≠ id →
            Book.isbn other = Book.isbn book →
            Book.active other = true → (k ≤ j)%positive)
       ∧ library_book._check_isbn_unique [id] env
         = (env, inl (ValidationError (isbn_message book existing)))).
Proof.
  intros Hbook Hisbn.
  unfold library_book._check_isbn_unique. rewrite run_for_each_one.
  unfold library_book._check_isbn_unique_row.
  rewrite run_ask_bind, Hbook. rewrite decide_False by done. cbv zeta.
  pose proof (head_search_rows_by_id
    (λ i b, bool_decide (Book.isbn b = Book.isbn book)
            && bool_decide (i ≠ id)
            && Book.active b) (books env)) as Hhead.
  destruct (head _) as [[k existing]|]; split.
  - intros Hnone. destruct Hhead as (Hk & Hd & _).
    apply andb_true_iff in Hd as [Hd Hactive].
    apply andb_true_iff in Hd as [Hsame Hne].
    apply bool_decide_eq_true in Hsame, Hne.
    rewrite (Hnone k existing Hk Hne Hsame) in Hactive. discriminate.
  - intros _. destruct Hhead as (Hk & Hd & Hmin).
    apply andb_true_iff in Hd as [Hd Hactive].
    apply andb_true_iff in Hd as [Hsame Hne].
    apply bool_decide_eq_true in Hsame, Hne.
    exists k, existing. repeat split; try done.
    intros j other Hj Hjne Hjsame Hjactive. apply (Hmin j other Hj).
    rewrite Hjactive, andb_true_r.
    apply andb_true_iff. by split; apply bool_decide_eq_true.
  - done.
  - intros (j & other & Hj & Hne & Hsame & Hactive).
    specialize (Hhead j other Hj). rewrite Hactive, andb_true_r in Hhead.
    apply andb_false_iff in Hhead as [Hno|Hno];
      apply bool_decide_eq_false in Hno; by destruct Hno.
Qed.

(** With two books of the same ISBN in the table: the check of the
    second names the first; and once the first is archived, the check of
    the second returns. *)
Lemma check_isbn_unique_names_first_witness :
  (∃ k existing,
     books demo_env_same_isbn !! k = Some existing ∧ k ≠ 2%positive
     ∧ Book.isbn existing = "9780441172719"
     ∧ Book.active existing = true
     ∧ (∀ j other, books demo_env_same_isbn !! j = Some other →
          j ≠ 2%positive → Book.isbn other = "9780441172719" →
          Book.active other = true → (k ≤ j)%positive)
     ∧ library_book._check_isbn_unique [2%positive] demo_env_same_isbn
       = (demo_env_same_isbn,
          inl (ValidationError (isbn_message demo_book_second existing))))
  ∧ library_book._check_isbn_unique [2%positive] demo_env_archived_isbn
    = (demo_env_archived_isbn, inr tt).
Proof.
  split.
  - refine (proj2 (check_isbn_unique_names_first 2 demo_env_same_isbn
                     demo_book_second _ _) _).
    + vm_compute. reflexivity.
    + discriminate.
    + exists 1%positive, demo_book_row. split; [|split; [|split]].
      * vm_compute. reflexivity.
      * discriminate.
      * reflexivity.
      * reflexivity.
  - refine (proj1 (check_isbn_unique_names_first 2 demo_env_archived_isbn
                     demo_book_second _ _) _).
    + vm_compute. reflexivity.
    + discriminate.
    + intros j other Hj Hne _.
      destruct (decide (j = 1%positive)) as [->|Hne1].
      * vm_compute in Hj. by injection Hj as <-.
      * exfalso. unfold demo_env_archived_isbn in Hj. simpl in Hj.
        rewrite lookup_insert_ne in Hj by done.
        assert (j ∈ dom (books (call 101
                  (Book_write [1%positive]
                     (Book.mk_vals None None None None (Some false)))
                  demo_env))) as Hin by (apply elem_of_dom; by eexists).
        vm_compute in Hin.
        destruct j; [discriminate|discriminate|by apply Hne1].
Defined.

(** X7: [_check_phone_unique] of a member with a phone number raises
    exactly when another member that is not inactive has that number, and
    then its message names such a member, the one with the least id; it
    returns when no other member has the number, and also when only
    inactive members have it. It leaves the database as it is. *)
Theorem check_phone_unique_names_first id env record :
  members env !! id = Some record →
  Member.phone record ≠ "" →
  ((∀ j other, members env !! j = Some other → j ≠ id →
      Member.phone other = Member.phone record →
      Member.member_status other = inactive) →
   library_member._check_phone_unique [id] env = (env, inr tt))
  ∧ ((∃ j other, members env !! j = Some other ∧ j ≠ id
        ∧ Member.phone other = Member.phone record
        ∧ Member.member_status other ≠ inactive) →
     ∃ k existing,
       members env !! k = Some existing ∧ k ≠ id
       ∧ Member.phone existing = Member.phone record
       ∧ Member.member_status existing ≠ inactive
       ∧ (∀ j other, members env !! j = Some other → j ≠ id →
            Member.phone other = Member.phone record →
            Member.member_status other ≠ inactive → (k ≤ j)%positive)
       ∧ library_member._check_phone_unique [id] env
         = (env, inl (ValidationError (phone_message record existing)))).
Proof.
  intros Hrecord Hphone.
  unfold library_member._check_phone_unique. rewrite run_for_each_one.
  unfold library_member._check_phone_unique_row.
  rewrite run_ask_bind, Hrecord. rewrite decide_False by done. cbv zeta.
  pose proof (head_search_rows_by_id
    (λ i m, bool_decide (Member.phone m = Member.phone record)
            && bool_decide (i ≠ id)
            && bool_decide (Member.member_status m ≠ inactive))
    (members env)) as Hhead.
  destruct (head _) as [[k existing]|]; split.
  - intros Hnone. destruct Hhead as (Hk & Hd & _).
    apply andb_true_iff in Hd as [Hd Hstatus].
    apply andb_true_iff in Hd as [Hsame Hne].
    apply bool_decide_eq_true in Hsame, Hne, Hstatus.
    by destruct (Hstatus (Hnone k existing Hk Hne Hsame)).
  - intros _. destruct Hhead as (Hk & Hd & Hmin).
    apply andb_true_iff in Hd as [Hd Hstatus].
    apply andb_true_iff in Hd as [Hsame Hne].
    apply bool_decide_eq_true in Hsame, Hne, Hstatus.
    exists k, existing. repeat split; try done.
    intros j other Hj Hjne Hjsame Hjstatus. apply (Hmin j other Hj).
    rewrite !andb_true_iff. by repeat split; apply bool_decide_eq_true.
  - done.
  - intros (j & other & Hj & Hne & Hsame & Hstatus).
    specialize (Hhead j other Hj).
    apply andb_false_iff in Hhead as [Hno|Hno];
      [apply andb_false_iff in Hno as [Hno|Hno]|];
      apply bool_decide_eq_false in Hno; by destruct Hno.
Qed.

(** With two active members of the same phone number in the table: the
    check of the second names the first. *)
Lemma check_phone_unique_names_first_witness :
  ∃ k existing,
    members demo_env_same_phone !! k = Some existing ∧ k ≠ 2%positive
    ∧ Member.phone existing = "0123456789"
    ∧ Member.member_status existing ≠ inactive
    ∧ (∀ j other, members demo_env_same_phone !! j = Some other →
         j ≠ 2%positive → Member.phone other = "0123456789" →
         Member.member_status other ≠ inactive → (k ≤ j)%positive)
    ∧ library_member._check_phone_unique [2%positive] demo_env_same_phone
      = (demo_env_same_phone,
         inl (ValidationError (phone_message demo_member_bob existing))).
Proof.
  refine (proj2 (check_phone_unique_names_first 2 demo_env_same_phone
                   demo_member_bob _ _) _).
  - vm_compute. reflexivity.
  - discriminate.
  - exists 1%positive, demo_member_row. split; [|split; [|split]].
    + vm_compute. reflexivity.
    + discriminate.
    + reflexivity.
    + discriminate.
Defined.

(** ** What a call leaves as it is *)

Section keeps_rules.
Context {X : Type} (f : Env → X).

Lemma keeps_ret {A} (a : A) : keeps f (mret a : M A).
Proof. done. Qed.

Lemma keeps_raise {A} e : keeps f (raise e : M A).
Proof. done. Qed.

Lemma keeps_ask : keeps f ask.
Proof. done. Qed.

Lemma keeps_modify g : (∀ env, f (g env) = f env) → keeps f (modify g).
Proof. intros Hg env. apply Hg. Qed.

Lemma keeps_bind {A B} (m : M A) (k : A → M B) :
  keeps f m → (∀ a, keeps f (k a)) → keeps f (m ≫= k).
Proof.
  intros Hm Hk env. rewrite run_bind. specialize (Hm env).
  destruct (m env) as [env' [e|a]]; [done|].
  simpl in Hm. rewrite <-Hm. apply Hk.
Qed.

Lemma keeps_when (b : bool) m : keeps f m → keeps f (when b m).
Proof. intros Hm. by destruct b. Qed.

Lemma keeps_for_each {A} (xs : list A) body :
  (∀ x, keeps f (body x)) → keeps f (for_each xs body).
Proof.
  intros Hbody. induction xs as [|x xs IH]; [done|].
  simpl. apply keeps_bind; [apply Hbody|]. by intros _.
Qed.

Lemma keeps_for_fold {A S} (xs : list A) (acc : S) body :
  (∀ acc x, keeps f (body acc x)) → keeps f (for_fold xs acc body).
Proof.
  intros Hbody. revert acc. induction xs as [|x xs IH]; intros acc; [done|].
  simpl. apply keeps_bind; [apply Hbody|]. intros acc'. apply IH.
Qed.

Lemma keeps_try_except {A} (body : M A) handler :
  keeps f body → (∀ e, keeps f (handler e)) →
  keeps f (try_except body handler).
Proof.
  intros Hbody Hhandler env. unfold try_except. specialize (Hbody env).
  destruct (body env) as [env' [e|a]]; [|done].
  simpl in Hbody. rewrite <-Hbody. apply Hhandler.
Qed.

Lemma keeps_read_only {A} (m : M A) : read_only m → keeps f m.
Proof. intros Hm env. by rewrite Hm. Qed.

(** What holds of the part that a computation keeps holds after it. *)
Lemma triple_keeps {A} (P : X → Prop) (m : M A) :
  keeps f m →
  triple (λ env, P (f env)) m (λ _ env, P (f env)) (λ _ env, P (f env)).
Proof.
  intros Hm env HP. specialize (Hm env).
  destruct (m env) as [env' [e|a]]; simpl in Hm; by rewrite Hm.
Qed.
End keeps_rules.

Create HintDb keeps discriminated.

#[local] Hint Resolve keeps_ret keeps_raise keeps_ask keeps_when : keeps.
#[local] Hint Extern 1 (keeps _ (_ ≫= _)) =>
  apply keeps_bind; [|intros ?; cbv beta] : keeps.
#[local] Hint Extern 1 (keeps _ (for_each _ _)) =>
  apply keeps_for_each; intros ?; cbv beta : keeps.
#[local] Hint Extern 1 (keeps _ (for_fold _ _ _)) =>
  apply keeps_for_fold; intros ? ?; cbv beta : keeps.
#[local] Hint Extern 1 (keeps _ (try_except _ _)) =>
  apply keeps_try_except; [|intros ?; cbv beta] : keeps.
#[local] Hint Extern 1 (keeps _ (modify _)) =>
  apply keeps_modify; intros ? : keeps.
#[local] Hint Extern 2 (keeps _ (match ?x with _ => _ end)) =>
  destruct x : keeps.
#[local] Hint Extern 2 (keeps _ (let _ := _ in _)) => cbv zeta : keeps.

Lemma fmap_alter_same {A B} (f : A → B) (g : A → A) i (m : gmap positive A) :
  (∀ x, f (g x) = f x) → f <$> alter g i m = f <$> m.
Proof.
  intros Hg. apply map_eq. intros j. rewrite !lookup_fmap.
  destruct (decide (j = i)) as [->|Hne].
  - rewrite lookup_alter_eq. destruct (m !! i); simpl; by rewrite ?Hg.
  - by rewrite lookup_alter_ne.
Qed.

Lemma isbns_available_copies_recomputed b env :
  isbns (library_book.available_copies_recomputed b env) = isbns env.
Proof. by apply fmap_alter_same. Qed.

Lemma phones_current_borrowed_recomputed m env :
  phones (library_member.current_borrowed_recomputed m env) = phones env.
Proof. by apply fmap_alter_same. Qed.

#[local] Hint Extern 1 (_ = _) => reflexivity : keeps.

Section keeps_book_calls.
Context {X : Type} (f : Env → X).
Hypothesis keeps_books : ∀ g env, f (set_books g env) = f env.

#[local] Hint Resolve keeps_books : keeps.
#[local] Hint Extern 1 (f (library_book.available_copies_recomputed _ _) = _) =>
  unfold library_book.available_copies_recomputed; apply keeps_books : keeps.

Lemma keeps_book_create v : keeps f (library_book.create v).
Proof.
  unfold library_book.create, library_book.recompute_available_copies,
    library_book._check_isbn_unique, library_book._check_isbn_unique_row.
  solve [auto 100 with keeps].
Qed.

Lemma keeps_book_write self v : keeps f (library_book.write self v).
Proof.
  unfold library_book.write, library_book.write_row,
    library_book.recompute_available_copies,
    library_book._check_isbn_unique, library_book._check_isbn_unique_row.
  solve [auto 100 with keeps].
Qed.

Lemma keeps_book_unlink self : keeps f (library_book.unlink self).
Proof.
  unfold library_book.unlink, library_book.unlink_row.
  solve [auto 100 with keeps].
Qed.
End keeps_book_calls.

Section keeps_member_calls.
Context {X : Type} (f : Env → X).
Hypothesis keeps_members : ∀ g env, f (set_members g env) = f env.

#[local] Hint Resolve keeps_members : keeps.
#[local] Hint Extern 1
    (f (library_member.current_borrowed_recomputed _ _) = _) =>
  unfold library_member.current_borrowed_recomputed; apply keeps_members
  : keeps.

Lemma keeps_member_orm_write self v :
  keeps f (library_member.orm_write self v).
Proof.
  unfold library_member.orm_write, library_member.orm_write_row,
    library_member._check_phone_unique,
    library_member._check_phone_unique_row,
    library_member._check_status_change_borrowing_limit,
    library_member._check_status_change_borrowing_limit_row.
  solve [auto 100 with keeps].
Qed.

#[local] Hint Resolve keeps_member_orm_write : keeps.

Lemma keeps_member_write self v : keeps f (library_member.write self v).
Proof.
  unfold library_member.write, library_member.write_limit_of_status.
  solve [auto 100 with keeps].
Qed.

Lemma keeps_member_create today next_by_code v :
  keeps f (library_member.create today next_by_code v).
Proof.
  unfold library_member.create, library_member.orm_create,
    library_member.recompute_current_borrowed,
    library_member._check_phone_unique,
    library_member._check_phone_unique_row,
    library_member._check_status_change_borrowing_limit,
    library_member._check_status_change_borrowing_limit_row.
  solve [auto 100 with keeps].
Qed.

Lemma keeps_member_unlink self : keeps f (library_member.unlink self).
Proof.
  unfold library_member.unlink, library_member.unlink_row.
  solve [auto 100 with keeps].
Qed.
End keeps_member_calls.

Section keeps_record_calls.
Import library_borrowing_record.
Context {X : Type} (f : Env → X).
Hypothesis keeps_records : ∀ g env, f (set_records g env) = f env.
Hypothesis keeps_available_copies :
  ∀ b env, f (library_book.available_copies_recomputed b env) = f env.
Hypothesis keeps_current_borrowed :
  ∀ m env, f (library_member.current_borrowed_recomputed m env) = f env.

#[local] Hint Resolve keeps_records keeps_available_copies
  keeps_current_borrowed : keeps.

Lemma keeps_record_write today self v : keeps f (write today self v).
Proof.
  unfold write, orm_write, orm_write_row, recompute_member_of,
    library_book.recompute_available_copies,
    library_member.recompute_current_borrowed,
    _check_actual_return_date, _check_actual_return_date_row,
    _check_return_date, _check_return_date_row.
  solve [auto 100 with keeps].
Qed.

#[local] Hint Resolve keeps_record_write : keeps.

Lemma keeps_record_create today next_by_code v :
  keeps f (create today next_by_code v).
Proof.
  unfold create, orm_create,
    library_book.recompute_available_copies,
    library_member.recompute_current_borrowed,
    library_member._check_status_change_borrowing_limit,
    library_member._check_status_change_borrowing_limit_row,
    _check_actual_return_date, _check_actual_return_date_row,
    _check_return_date, _check_return_date_row.
  solve [auto 100 with keeps].
Qed.

Lemma keeps_record_unlink self : keeps f (unlink self).
Proof.
  unfold unlink, unlink_check, orm_unlink, orm_unlink_row,
    library_book.recompute_available_copies,
    library_member.recompute_current_borrowed.
  solve [auto 100 with keeps].
Qed.

Lemma keeps_action_return_book today id :
  keeps f (action_return_book today id).
Proof. unfold action_return_book. solve [auto 100 with keeps]. Qed.

Lemma keeps_update_overdue_records today :
  keeps f (update_overdue_records today).
Proof. unfold update_overdue_records. solve [auto 100 with keeps]. Qed.

Lemma keeps_cron_calculate_overdue_fines today :
  keeps f (cron_calculate_overdue_fines today).
Proof.
  unfold cron_calculate_overdue_fines, cron_calculate_overdue_fines_body,
    cron_turn_overdue, cron_update_fine.
  solve [auto 100 with keeps].
Qed.
End keeps_record_calls.

Lemma keeps_action_extend_due_date {X} (f : Env → X) id :
  keeps f (library_borrowing_record.action_extend_due_date id).
Proof.
  unfold library_borrowing_record.action_extend_due_date.
  solve [auto 100 with keeps].
Qed.

Lemma keeps_then_ret {X A} (f : Env → X) (m : M A) :
  keeps f m → keeps f (m;; mret tt).
Proof. intros Hm. apply keeps_bind; [done|]. intros _. apply keeps_ret. Qed.

(** The calls on the other models leave the ISBN of the books as they
    are. *)
Lemma keeps_isbns_run today op :
  match op with
  | Book_create _ | Book_write _ _ | Book_unlink _ => True
  | _ => keeps isbns (run today op)
  end.
Proof.
  destruct op; try done; unfold run; apply keeps_then_ret.
  - by apply keeps_member_create.
  - by apply keeps_member_write.
  - by apply keeps_member_unlink.
  - apply keeps_record_create;
      auto using isbns_available_copies_recomputed.
  - apply keeps_record_write; auto using isbns_available_copies_recomputed.
  - apply keeps_record_unlink; auto using isbns_available_copies_recomputed.
  - apply keeps_action_return_book;
      auto using isbns_available_copies_recomputed.
  - apply keeps_action_extend_due_date.
  - apply keeps_update_overdue_records;
      auto using isbns_available_copies_recomputed.
  - apply keeps_cron_calculate_overdue_fines;
      auto using isbns_available_copies_recomputed.
Qed.

(** The calls on the other models leave the phone numbers of the members
    as they are. *)
Lemma keeps_phones_run today op :
  match op with
  | Member_create _ _ | Member_write _ _ | Member_unlink _ => True
  | _ => keeps phones (run today op)
  end.
Proof.
  destruct op; try done; unfold run; apply keeps_then_ret.
  - by apply keeps_book_create.
  - by apply keeps_book_write.
  - by apply keeps_book_unlink.
  - apply keeps_record_create;
      auto using phones_current_borrowed_recomputed.
  - apply keeps_record_write; auto using phones_current_borrowed_recomputed.
  - apply keeps_record_unlink; auto using phones_current_borrowed_recomputed.
  - apply keeps_action_return_book;
      auto using phones_current_borrowed_recomputed.
  - apply keeps_action_extend_due_date.
  - apply keeps_update_overdue_records;
      auto using phones_current_borrowed_recomputed.
  - apply keeps_cron_calculate_overdue_fines;
      auto using phones_current_borrowed_recomputed.
Qed.

(** The calls on the other models leave the borrowing records as they
    are. *)
Lemma keeps_records_run today op :
  match op with
  | Book_create _ | Book_write _ _ | Book_unlink _
  | Member_create _ _ | Member_write _ _ | Member_unlink _
  | Librarian_create => keeps records (run today op)
  | _ => True
  end.
Proof.
  destruct op; try done; unfold run; apply keeps_then_ret.
  - by apply keeps_book_create.
  - by apply keeps_book_write.
  - by apply keeps_book_unlink.
  - by apply keeps_member_create.
  - by apply keeps_member_write.
  - by apply keeps_member_unlink.
Qed.

(** What holds of the empty database and is kept by every call that
    returns holds of every state the calls reach. *)
Lemma reachable_triple (P : Env → Prop) :
  P empty_env →
  (∀ today op, triple P (run today op) (λ _, P) (λ _ _, True)) →
  ∀ env, reachable env → P env.
Proof.
  intros Hempty Hrun env Hreach.
  induction Hreach as [|env today op _ IH]; [done|].
  unfold call, transaction. specialize (Hrun today op env IH).
  by destruct (run today op env) as [env' [e|[]]].
Qed.

Lemma triple_keeps_weak {X A} (f : Env → X) (P : X → Prop) (m : M A) :
  keeps f m →
  triple (λ env, P (f env)) m (λ _ env, P (f env)) (λ _ _, True).
Proof.
  intros Hm. by eapply triple_conseq; [by apply (triple_keeps f P)|..].
Qed.

(** ** The ISBN of a book and the phone number of a member are unique *)

Section unique_columns.
Context {A : Type} (key : A → string).
Implicit Types (tbl : gmap positive A).

Lemma unique_violation_false tbl id v :
  unique_violation key tbl id v = false →
  ∀ j x, tbl !! j = Some x → j ≠ id → key x ≠ v.
Proof.
  intros Hu j x Hj Hne Hv. apply bool_decide_eq_false in Hu. apply Hu.
  apply Exists_exists. exists (j, x). split; [|done].
  by apply elem_of_map_to_list.
Qed.

Lemma unique_violation_true tbl id v j x :
  tbl !! j = Some x → j ≠ id → key x = v →
  unique_violation key tbl id v = true.
Proof.
  intros Hj Hne Hv. apply bool_decide_eq_true, Exists_exists.
  exists (j, x). split; [|done]. by apply elem_of_map_to_list.
Qed.

Lemma unique_column_insert tbl id new :
  unique_column (key <$> tbl) →
  (∀ j x, tbl !! j = Some x → j ≠ id → key x ≠ key new) →
  unique_column (key <$> <[id := new]> tbl).
Proof.
  intros Hu Hnew i j x. rewrite !lookup_fmap.
  destruct (decide (i = id)) as [->|Hi], (decide (j = id)) as [->|Hj];
    [done|..].
  - rewrite lookup_insert_eq, lookup_insert_ne by done. simpl.
    intros [= <-] Hjx. destruct (tbl !! j) as [y|] eqn:Hy; [|done].
    injection Hjx as Hjx. by destruct (Hnew j y Hy Hj).
  - rewrite lookup_insert_eq, lookup_insert_ne by done. simpl.
    intros Hix [= <-]. destruct (tbl !! i) as [y|] eqn:Hy; [|done].
    injection Hix as Hix. by destruct (Hnew i y Hy Hi).
  - rewrite !lookup_insert_ne by done. rewrite <-!lookup_fmap. apply Hu.
Qed.

Lemma unique_column_same_key tbl id old new :
  tbl !! id = Some old → key new = key old →
  key <$> <[id := new]> tbl = key <$> tbl.
Proof.
  intros Hold Hkey. rewrite fmap_insert, Hkey. apply insert_id.
  by rewrite lookup_fmap, Hold.
Qed.

Lemma unique_column_delete tbl id :
  unique_column (key <$> tbl) → unique_column (key <$> delete id tbl).
Proof.
  intros Hu i j x. rewrite !lookup_fmap.
  destruct (decide (i = id)) as [->|Hi]; [by rewrite lookup_delete_eq|].
  destruct (decide (j = id)) as [->|Hj]; [by rewrite lookup_delete_eq|].
  rewrite !lookup_delete_ne by done. rewrite <-!lookup_fmap. apply Hu.
Qed.
End unique_columns.

Section unique_isbn.
Import Book library_book.

Local Abbreviation unique := (λ env : Env, unique_column (isbns env)).
Local Abbreviation any := (λ (_ : Exception) (_ : Env), True).

Lemma triple_unique_isbn_create v :
  triple unique (create v) (λ _, unique) any.
Proof.
  unfold create. apply triple_ask_bind. intros env Hu.
  destruct (v_title v) as [t|]; [|by apply triple_raise].
  destruct (v_author v) as [a|]; [|by apply triple_raise].
  destruct (v_isbn v) as [i|]; [|by apply triple_raise].
  cbv zeta. destruct (unique_violation _ _ _ _) eqn:Hv;
    [by apply triple_raise|].
  apply (triple_bind _ (λ _, unique)).
  - apply triple_modify. intros ? ->. unfold isbns. simpl.
    apply unique_column_insert; [done|].
    apply (unique_violation_false isbn _ _ _ Hv).
  - intros _. apply (triple_keeps_weak isbns unique_column).
    unfold recompute_available_copies, _check_isbn_unique,
      _check_isbn_unique_row.
    solve [auto 100 using isbns_available_copies_recomputed with keeps].
Qed.

Lemma triple_unique_isbn_write self v :
  triple unique (write self v) (λ _, unique) any.
Proof.
  unfold write.
  apply (triple_bind _ (λ _, unique)); [|intros _; by apply triple_ret].
  apply triple_for_each. intros id _. unfold write_row.
  apply triple_ask_bind. intros env Hu.
  destruct (books env !! id) as [book|] eqn:Hbook; [|by apply triple_raise].
  cbv zeta.
  destruct (bool_decide (is_Some (v_isbn v)) && _) eqn:Hv;
    [by apply triple_raise|].
  apply (triple_bind _ (λ _, unique)).
  - apply triple_modify. intros ? ->. unfold isbns. simpl.
    apply andb_false_iff in Hv as [Hv|Hv].
    + rewrite (unique_column_same_key isbn _ _ book); [done..|].
      apply is_Some_false in Hv. unfold apply. simpl. by rewrite Hv.
    + apply unique_column_insert; [done|].
      apply (unique_violation_false isbn _ _ _ Hv).
  - intros _. apply (triple_keeps_weak isbns unique_column).
    unfold recompute_available_copies, _check_isbn_unique,
      _check_isbn_unique_row.
    solve [auto 100 using isbns_available_copies_recomputed with keeps].
Qed.

Lemma triple_unique_isbn_unlink self :
  triple unique (unlink self) (λ _, unique) any.
Proof.
  unfold unlink.
  apply (triple_bind _ (λ _, unique)); [|intros _; by apply triple_ret].
  apply triple_for_each. intros id _. unfold unlink_row.
  apply triple_ask_bind. intros env Hu.
  destruct (bool_decide _); [|by apply triple_raise].
  apply triple_modify. intros ? ->. unfold isbns. simpl.
  by apply unique_column_delete.
Qed.

Lemma reachable_unique_isbn env : reachable env → unique env.
Proof.
  apply reachable_triple; [done|]. intros today op.
  pose proof (keeps_isbns_run today op) as Hkeeps.
  destruct op; try (by apply (triple_keeps_weak isbns unique_column));
    unfold run;
    (apply (triple_bind _ (λ _, unique)); [|intros _; by apply triple_ret]).
  - apply triple_unique_isbn_create.
  - apply triple_unique_isbn_write.
  - apply triple_unique_isbn_unlink.
Qed.
End unique_isbn.

Section unique_phone.
Import Member library_member.

Local Abbreviation unique := (λ env : Env, unique_column (phones env)).
Local Abbreviation any := (λ (_ : Exception) (_ : Env), True).

Lemma triple_unique_phone_create today next_by_code v :
  triple unique (create today next_by_code v) (λ _, unique) any.
Proof.
  unfold create. cbv zeta. set (v1 := if decide _ then _ else v).
  set (v2 := match v_member_status v1 with Some _ => _ | None => _ end).
  clearbody v2. clear v1. unfold orm_create.
  apply triple_ask_bind. intros env Hu.
  destruct (v_name v2) as [n|]; [|by apply triple_raise].
  destruct (v_email v2) as [e|]; [|by apply triple_raise].
  destruct (v_phone v2) as [p|]; [|by apply triple_raise].
  cbv zeta. destruct (unique_violation _ _ _ _) eqn:Hv;
    [by apply triple_raise|].
  apply (triple_bind _ (λ _, unique)).
  - apply triple_modify. intros ? ->. unfold phones. simpl.
    apply unique_column_insert; [done|].
    apply (unique_violation_false phone _ _ _ Hv).
  - intros _. apply (triple_keeps_weak phones unique_column).
    unfold recompute_current_borrowed, _check_phone_unique,
      _check_phone_unique_row, _check_status_change_borrowing_limit,
      _check_status_change_borrowing_limit_row.
    solve [auto 100 using phones_current_borrowed_recomputed with keeps].
Qed.

Lemma triple_unique_phone_orm_write self v :
  triple unique (orm_write self v) (λ _, unique) any.
Proof.
  unfold orm_write.
  apply (triple_bind _ (λ _, unique)); [|intros _; by apply triple_ret].
  apply triple_for_each. intros id _. unfold orm_write_row.
  apply triple_ask_bind. intros env Hu.
  destruct (members env !! id) as [record|] eqn:Hrecord;
    [|by apply triple_raise].
  cbv zeta.
  destruct (bool_decide (is_Some (v_phone v)) && _) eqn:Hv;
    [by apply triple_raise|].
  apply (triple_bind _ (λ _, unique)).
  - apply triple_modify. intros ? ->. unfold phones. simpl.
    apply andb_false_iff in Hv as [Hv|Hv].
    + rewrite (unique_column_same_key phone _ _ record); [done..|].
      apply is_Some_false in Hv. unfold apply. simpl. by rewrite Hv.
    + apply unique_column_insert; [done|].
      apply (unique_violation_false phone _ _ _ Hv).
  - intros _. apply (triple_keeps_weak phones unique_column).
    unfold _check_phone_unique,
      _check_phone_unique_row, _check_status_change_borrowing_limit,
      _check_status_change_borrowing_limit_row.
    solve [auto 100 with keeps].
Qed.

Lemma triple_unique_phone_write self v :
  triple unique (write self v) (λ _, unique) any.
Proof.
  unfold write.
  apply (triple_bind _ (λ _, unique)); [apply triple_unique_phone_orm_write|].
  intros result.
  apply (triple_bind _ (λ _, unique)); [|intros _; by apply triple_ret].
  apply triple_when; [|done]. intros _.
  apply triple_for_each. intros id _. unfold write_limit_of_status.
  apply triple_ask_bind. intros env Hu.
  destruct (members env !! id) as [record|]; [|by apply triple_raise].
  apply (triple_conseq _ unique _ (λ _, unique) _ any);
    [|by intros ? ->|done..].
  destruct (member_status record);
    (apply (triple_bind _ (λ _, unique));
     [apply triple_unique_phone_orm_write|intros _; by apply triple_ret]).
Qed.

Lemma triple_unique_phone_unlink self :
  triple unique (unlink self) (λ _, unique) any.
Proof.
  unfold unlink.
  apply (triple_bind _ (λ _, unique)); [|intros _; by apply triple_ret].
  apply triple_for_each. intros id _. unfold unlink_row.
  apply triple_ask_bind. intros env Hu.
  destruct (bool_decide _); [|by apply triple_raise].
  apply triple_modify. intros ? ->. unfold phones. simpl.
  by apply unique_column_delete.
Qed.

Lemma reachable_unique_phone env : reachable env → unique env.
Proof.
  apply reachable_triple; [done|]. intros today op.
  pose proof (keeps_phones_run today op) as Hkeeps.
  destruct op; try (by apply (triple_keeps_weak phones unique_column));
    unfold run;
    (apply (triple_bind _ (λ _, unique)); [|intros _; by apply triple_ret]).
  - apply triple_unique_phone_create.
  - apply triple_unique_phone_write.
  - apply triple_unique_phone_unlink.
Qed.
End unique_phone.

Lemma run_check_isbn_unique_alone self env :
  unique_column (isbns env) →
  (∀ id, id ∈ self → is_Some (books env !! id)) →
  library_book._check_isbn_unique self env = (env, inr tt).
Proof.
  intros Hu Hself. apply run_for_each_skip. intros id Hid.
  destruct (Hself id Hid) as [book Hbook].
  unfold library_book._check_isbn_unique_row. rewrite run_ask_bind, Hbook.
  destruct (decide _); [done|]. cbv zeta.
  rewrite search_rows_nil; [done|]. intros j other Hj.
  apply andb_false_iff. left.
  apply andb_false_iff. destruct (decide (j = id)) as [->|Hne].
  - right. apply bool_decide_eq_false. by intros [].
  - left. apply bool_decide_eq_false. intros Hsame. apply Hne.
    apply (Hu j id (Book.isbn book)); unfold isbns; rewrite lookup_fmap.
    + by rewrite Hj, <-Hsame.
    + by rewrite Hbook.
Qed.

Lemma run_check_phone_unique_alone self env :
  unique_column (phones env) →
  (∀ id, id ∈ self → is_Some (members env !! id)) →
  library_member._check_phone_unique self env = (env, inr tt).
Proof.
  intros Hu Hself. apply run_for_each_skip. intros id Hid.
  destruct (Hself id Hid) as [record Hrecord].
  unfold library_member._check_phone_unique_row.
  rewrite run_ask_bind, Hrecord.
  destruct (decide _); [done|]. cbv zeta.
  rewrite search_rows_nil; [done|]. intros j other Hj.
  apply andb_false_iff. left.
  apply andb_false_iff. destruct (decide (j = id)) as [->|Hne].
  - right. apply bool_decide_eq_false. by intros [].
  - left. apply bool_decide_eq_false. intros Hsame. apply Hne.
    apply (Hu j id (Member.phone record)); unfold phones; rewrite lookup_fmap.
    + by rewrite Hj, <-Hsame.
    + by rewrite Hrecord.
Qed.

(** X8: in every state the calls reach no two books have the same ISBN;
    so [_check_isbn_unique] returns for any books of such a state. *)
Theorem books_have_distinct_isbn env :
  reachable env →
  (∀ i j book_i book_j,
     books env !! i = Some book_i → books env !! j = Some book_j →
     Book.isbn book_i = Book.isbn book_j → i = j)
  ∧ (∀ self, (∀ id, id ∈ self → is_Some (books env !! id)) →
       library_book._check_isbn_unique self env = (env, inr tt)).
Proof.
  intros Hreach. pose proof (reachable_unique_isbn env Hreach) as Hu. split.
  - intros i j book_i book_j Hi Hj Hsame.
    apply (Hu i j (Book.isbn book_i)); unfold isbns; rewrite lookup_fmap.
    + by rewrite Hi.
    + by rewrite Hj, Hsame.
  - intros self Hself. by apply run_check_isbn_unique_alone.
Qed.

(** In the demo library. *)
Lemma books_have_distinct_isbn_witness :
  (∀ i j book_i book_j,
     books demo_env !! i = Some book_i → books demo_env !! j = Some book_j →
     Book.isbn book_i = Book.isbn book_j → i = j)
  ∧ (∀ self, (∀ id, id ∈ self → is_Some (books demo_env !! id)) →
       library_book._check_isbn_unique self demo_env = (demo_env, inr tt)).
Proof.
  apply (books_have_distinct_isbn demo_env). apply demo_env_reachable.
Defined.

(** X9: in every state the calls reach no two members have the same
    phone number, whatever their status; so [_check_phone_unique] returns
    for any members of such a state. *)
Theorem members_have_distinct_phone env :
  reachable env →
  (∀ i j member_i member_j,
     members env !! i = Some member_i → members env !! j = Some member_j →
     Member.phone member_i = Member.phone member_j → i = j)
  ∧ (∀ self, (∀ id, id ∈ self → is_Some (members env !! id)) →
       library_member._check_phone_unique self env = (env, inr tt)).
Proof.
  intros Hreach. pose proof (reachable_unique_phone env Hreach) as Hu. split.
  - intros i j member_i member_j Hi Hj Hsame.
    apply (Hu i j (Member.phone member_i)); unfold phones; rewrite lookup_fmap.
    + by rewrite Hi.
    + by rewrite Hj, Hsame.
  - intros self Hself. by apply run_check_phone_unique_alone.
Qed.

(** In the demo library. *)
Lemma members_have_distinct_phone_witness :
  (∀ i j member_i member_j,
     members demo_env !! i = Some member_i →
     members demo_env !! j = Some member_j →
     Member.phone member_i = Member.phone member_j → i = j)
  ∧ (∀ self, (∀ id, id ∈ self → is_Some (members demo_env !! id)) →
       library_member._check_phone_unique self demo_env = (demo_env, inr tt)).
Proof.
  apply (members_have_distinct_phone demo_env). apply demo_env_reachable.
Defined.

(** ** The dates of the borrowing records are in order *)

Section ordered_dates.
Import BorrowingRecord library_borrowing_record.

Local Abbreviation ordered :=
  (λ recs : gmap positive t, ∀ id r, recs !! id = Some r → dates_ordered r).
Local Abbreviation inv := (λ env : Env, ordered (records env)).
Local Abbreviation any := (λ (_ : Exception) (_ : Env), True).

(** One row written with success: the row there was, the checks it
    passed, and the row there is. *)
Lemma orm_write_row_inv today v id env env' :
  orm_write_row today v id env = (env', inr tt) →
  ∃ old,
    records env !! id = Some old
    ∧ references_exist env v = true
    ∧ dates_accepted v (written today v old)
    ∧ records env' = <[id := written today v old]> (records env).
Proof.
  unfold orm_write_row. rewrite run_ask_bind.
  destruct (records env !! id) as [old|] eqn:Hold; [|done].
  destruct (references_exist env v) eqn:Href; [|done]. cbv zeta.
  set (new := written today v old) in *.
  rewrite run_modify_bind.
  set (env1 := set_records <[id:=new]> env).
  rewrite run_bind.
  destruct (run_recompute_books
              (bool_decide (is_Some (v_status v))
               || bool_decide (is_Some (v_book_id v)))
              (book_id old) (book_id new) env1)
    as (env2 & -> & Hr2 & _).
  rewrite run_bind.
  destruct (run_recompute_members
              (bool_decide (is_Some (v_status v))
               || bool_decide (is_Some (v_member_id v)))
              (member_id old) (member_id new) env2)
    as (env3 & -> & Hr3 & _).
  assert (Hnew : records env3 !! id = Some new).
  { rewrite Hr3, Hr2. apply lookup_insert_eq. }
  rewrite run_bind. intros Hrun. exists old.
  split; [done|]. split; [done|].
  assert (Hact :
    is_Some (v_actual_return_date v) ∨ is_Some (v_borrow_date v) →
    ∀ actual, actual_return_date new = Some actual →
      borrow_date new ≤ actual).
  { intros Hc actual Ha.
    assert (bool_decide (is_Some (v_actual_return_date v))
            || bool_decide (is_Some (v_borrow_date v)) = true) as Hc'.
    { apply orb_true_iff. by rewrite !bool_decide_eq_true. }
    rewrite Hc' in Hrun. unfold when in Hrun at 1.
    rewrite (run_check_actual_return_date _ _ _ Hnew), Ha in Hrun.
    destruct (Z.ltb_spec actual (borrow_date new)); [done|lia]. }
  assert (Hstate :
    when (bool_decide (is_Some (v_actual_return_date v))
          || bool_decide (is_Some (v_borrow_date v)))
      (_check_actual_return_date [id]) env3 = (env3, inr tt)).
  { pose proof (read_only_when
      (bool_decide (is_Some (v_actual_return_date v))
       || bool_decide (is_Some (v_borrow_date v)))
      (_check_actual_return_date [id])
      (read_only_check_actual_return_date [id]) env3) as Hro.
    destruct (when _ _ env3) as [env4 [e|[]]]; [done|].
    simpl in Hro. by subst env4. }
  rewrite Hstate in Hrun.
  assert (Hexp :
    is_Some (v_expected_return_date v) ∨ is_Some (v_borrow_date v) →
    borrow_date new < expected_return_date new).
  { intros Hc.
    assert (bool_decide (is_Some (v_expected_return_date v))
            || bool_decide (is_Some (v_borrow_date v)) = true) as Hc'.
    { apply orb_true_iff. by rewrite !bool_decide_eq_true. }
    rewrite Hc' in Hrun. unfold when in Hrun.
    rewrite (run_check_return_date _ _ _ Hnew) in Hrun.
    destruct (Z.leb_spec (expected_return_date new) (borrow_date new));
      [done|lia]. }
  split; [by split|].
  pose proof (read_only_when
    (bool_decide (is_Some (v_expected_return_date v))
     || bool_decide (is_Some (v_borrow_date v)))
    (_check_return_date [id])
    (read_only_check_return_date [id]) env3) as Hro.
  rewrite Hrun in Hro. simpl in Hro. subst env'. by rewrite Hr3, Hr2.
Qed.

(** The dates of a row after a write are those of the values, and
    otherwise those of the row as it was. *)
Lemma written_dates today v old :
  borrow_date (written today v old)
  = default (borrow_date old) (v_borrow_date v)
  ∧ expected_return_date (written today v old)
    = default (expected_return_date old) (v_expected_return_date v)
  ∧ actual_return_date (written today v old)
    = match v_actual_return_date v with
      | Some d => Some d
      | None => actual_return_date old
      end.
Proof. unfold written. by destruct (_ && _). Qed.

Lemma dates_ordered_written today v old :
  dates_ordered old → dates_accepted v (written today v old) →
  dates_ordered (written today v old).
Proof.
  destruct (written_dates today v old) as (Hb & He & Ha).
  unfold dates_ordered, dates_accepted. rewrite Hb, He, Ha.
  intros [Hexp Hact] [Hact' Hexp'].
  destruct (v_borrow_date v) as [b|], (v_expected_return_date v) as [e|],
    (v_actual_return_date v) as [a|]; simpl in *;
    (split; [first [apply Hexp'; by eauto | done]
            |first [apply Hact'; by eauto | done]]).
Qed.

Lemma triple_ordered_orm_write_row today v id :
  triple inv (orm_write_row today v id) (λ _, inv) any.
Proof.
  intros env Hinv.
  destruct (orm_write_row today v id env) as [env' [e|[]]] eqn:Hrun; [done|].
  apply orm_write_row_inv in Hrun as (old & Hold & _ & Hacc & Hrecs).
  intros k r. rewrite Hrecs.
  destruct (decide (k = id)) as [->|Hne].
  - rewrite lookup_insert_eq. intros [= <-].
    apply dates_ordered_written; [|done]. by apply (Hinv id).
  - rewrite lookup_insert_ne by done. apply Hinv.
Qed.

Lemma triple_ordered_write today self v :
  triple inv (write today self v) (λ _, inv) any.
Proof.
  unfold write, orm_write.
  apply (triple_bind _ (λ _, inv)).
  - apply (triple_bind _ (λ _, inv)); [|intros _; by apply triple_ret].
    apply triple_for_each. intros id _. apply triple_ordered_orm_write_row.
  - intros result. apply (triple_keeps_weak records ordered).
    unfold recompute_member_of, library_member.recompute_current_borrowed.
    solve [auto 100 with keeps].
Qed.
(** A record created with success: the row, which was not there, and
    the checks it passed. *)
Lemma orm_create_inv today v env env' id :
  orm_create today v env = (env', inr id) →
  ∃ m b l e,
    v_member_id v = Some m ∧ v_book_id v = Some b
    ∧ v_librarian_id v = Some l ∧ v_expected_return_date v = Some e
    ∧ references_exist env v = true
    ∧ id = fresh (dom (records env))
    ∧ let row :=
        mk (default "New" (v_sequence v)) m b l
          (default today (v_borrow_date v)) e (v_actual_return_date v)
          (default borrowed (v_status v)) 0
          (default 0%float (v_fine_amount v))
          (default 5%float (v_fine_per_day v)) in
      let row :=
        set_days_overdue
          (default (_compute_days_overdue today row) (v_days_overdue v))
          row in
      dates_ordered row
      ∧ env'
        = library_member.current_borrowed_recomputed m
            (library_book.available_copies_recomputed b
               (set_records <[id := row]> env)).
Proof.
  unfold orm_create. rewrite run_ask_bind.
  destruct (v_member_id v) as [m|]; [|done].
  destruct (v_book_id v) as [b|]; [|done].
  destruct (v_librarian_id v) as [l|]; [|done].
  destruct (v_expected_return_date v) as [e|]; [|done].
  cbv zeta. destruct (references_exist env v); [|done].
  set (row := set_days_overdue _ _).
  unfold library_book.recompute_available_copies,
    library_member.recompute_current_borrowed.
  rewrite !run_modify_bind.
  set (env3 := library_member.current_borrowed_recomputed m _).
  assert (Hrow : records env3 !! fresh (dom (records env)) = Some row)
    by apply lookup_insert_eq.
  rewrite run_bind, (run_check_actual_return_date _ _ _ Hrow).
  intros Hrun. exists m, b, l, e. do 5 (split; [done|]).
  assert (Hact : ∀ actual, actual_return_date row = Some actual →
                   borrow_date row ≤ actual).
  { intros actual Ha. rewrite Ha in Hrun.
    destruct (Z.ltb_spec actual (borrow_date row)); [done|lia]. }
  assert (Hrun' :
    (_check_return_date [fresh (dom (records env))];;
     library_member._check_status_change_borrowing_limit [m];;
     mret (fresh (dom (records env)))) env3 = (env', inr id)).
  { destruct (actual_return_date row) as [a|]; [|done].
    by destruct (a <? borrow_date row). }
  clear Hrun. rewrite run_bind, (run_check_return_date _ _ _ Hrow) in Hrun'.
  destruct (Z.leb_spec (expected_return_date row) (borrow_date row));
    [done|].
  rewrite run_bind in Hrun'.
  pose proof (read_only_check_status_change [m] env3) as Hkept.
  destruct (library_member._check_status_change_borrowing_limit [m] env3)
    as [env4 [?|[]]]; [done|].
  simpl in Hkept. subst env4. injection Hrun' as <- <-. done.
Qed.

Lemma ordered_insert id row (recs : gmap positive t) :
  ordered recs → dates_ordered row → ordered (<[id := row]> recs).
Proof.
  intros Hrecs Hrow k r. destruct (decide (k = id)) as [->|Hne].
  - rewrite lookup_insert_eq. by intros [= <-].
  - rewrite lookup_insert_ne by done. apply Hrecs.
Qed.

Lemma triple_ordered_create today next_by_code v :
  triple inv (create today next_by_code v) (λ _, inv) any.
Proof.
  unfold create. cbv zeta. set (v1 := if decide _ then _ else v).
  clearbody v1.
  apply (triple_bind _ (λ _, inv)).
  { apply (triple_keeps_weak records ordered). solve [auto 100 with keeps]. }
  intros _. apply (triple_bind _ (λ _, inv)).
  { apply (triple_keeps_weak records ordered). solve [auto 100 with keeps]. }
  intros _. set (v2 := match v_expected_return_date v1 with
                       | Some _ => _ | None => _ end).
  clearbody v2. apply (triple_bind _ (λ _, inv)).
  - intros env Hinv.
    destruct (orm_create today v2 env) as [env' [e|id]] eqn:Hrun; [done|].
    apply orm_create_inv in Hrun
      as (m & b & l & e & _ & _ & _ & _ & _ & _ & Hrow & ->).
    simpl. by apply ordered_insert.
  - intros record. apply (triple_keeps_weak records ordered).
    unfold library_member.recompute_current_borrowed.
    solve [auto 100 with keeps].
Qed.

Lemma triple_ordered_unlink self :
  triple inv (unlink self) (λ _, inv) any.
Proof.
  unfold unlink. apply (triple_bind _ (λ _, inv)).
  { apply (triple_keeps_weak records ordered).
    apply keeps_read_only, read_only_unlink_check. }
  intros _. unfold orm_unlink.
  apply (triple_bind _ (λ _, inv)); [|intros _; by apply triple_ret].
  apply triple_for_each. intros id _. unfold orm_unlink_row.
  apply triple_ask_bind. intros env Hinv.
  destruct (records env !! id) as [record|]; [|by apply triple_ret; intros ? ->].
  apply (triple_bind _ (λ _, inv)).
  - apply triple_modify. intros ? -> k r. simpl.
    rewrite lookup_delete_Some. intros [_ Hk]. by apply (Hinv k).
  - intros _. apply (triple_keeps_weak records ordered).
    unfold library_book.recompute_available_copies,
      library_member.recompute_current_borrowed.
    solve [auto 100 with keeps].
Qed.

Lemma triple_ordered_action_return_book today id :
  triple inv (action_return_book today id) (λ _, inv) any.
Proof.
  unfold action_return_book. apply triple_ask_bind. intros env Hinv.
  apply (triple_conseq _ inv _ (λ _, inv) _ any); [|by intros ? ->|done..].
  destruct (records env !! id) as [self|]; [|by apply triple_raise].
  destruct (bool_decide _); [by apply triple_raise|]. cbv zeta.
  apply (triple_bind _ (λ _, inv)); [apply triple_ordered_write|].
  intros _. by apply triple_ret.
Qed.

Lemma triple_ordered_update_overdue_records today :
  triple inv (update_overdue_records today) (λ _, inv) any.
Proof.
  unfold update_overdue_records. apply triple_ask_bind. intros env Hinv.
  apply (triple_conseq _ inv _ (λ _, inv) _ any); [|by intros ? ->|done..].
  cbv zeta. apply (triple_bind _ (λ _, inv)); [apply triple_ordered_write|].
  intros _. by apply triple_ret.
Qed.

(** The fine sweep leaves the dates of a record as they are. *)
Lemma swept_dates today r :
  let r' := sweep_overdue today (sweep_borrowed today r) in
  borrow_date r' = borrow_date r
  ∧ expected_return_date r' = expected_return_date r
  ∧ actual_return_date r' = actual_return_date r.
Proof.
  unfold sweep_overdue, sweep_borrowed, fine_updated, turned_overdue.
  destruct (past_due borrowed today 1 r);
    destruct (past_due overdue today 1 _); try done;
    by destruct (fine_changed today _).
Qed.

Lemma triple_ordered_cron_calculate_overdue_fines today :
  triple inv (cron_calculate_overdue_fines today) (λ _, inv) any.
Proof.
  intros env Hinv. unfold cron_calculate_overdue_fines, try_except.
  rewrite run_bind.
  destruct (run_cron_body today env) as (env' & totals & -> & Hrecs).
  rewrite run_ret. intros k r'. rewrite Hrecs, !lookup_fmap.
  destruct (records env !! k) as [r|] eqn:Hr; [|done]. simpl.
  intros [= <-]. destruct (swept_dates today r) as (Hb & He & Ha).
  destruct (Hinv k r Hr) as [Hexp Hact]. split.
  - by rewrite Hb, He.
  - rewrite Hb, Ha. apply Hact.
Qed.

Lemma reachable_ordered env : reachable env → inv env.
Proof.
  apply reachable_triple; [done|]. intros today op.
  pose proof (keeps_records_run today op) as Hkeeps.
  destruct op; try (by apply (triple_keeps_weak records ordered));
    unfold run;
    (apply (triple_bind _ (λ _, inv)); [|intros _; by apply triple_ret]).
  - apply triple_ordered_create.
  - apply triple_ordered_write.
  - apply triple_ordered_unlink.
  - apply triple_ordered_action_return_book.
  - apply (triple_keeps_weak records ordered),
      keeps_action_extend_due_date.
  - apply triple_ordered_update_overdue_records.
  - apply triple_ordered_cron_calculate_overdue_fines.
Qed.
End ordered_dates.

(** X10: in every state the calls reach, every borrowing record is due
    after the day it was borrowed, and its actual return date, when it is
    set, is not before that day. *)
Theorem record_dates_ordered env id r :
  reachable env →
  records env !! id = Some r →
  BorrowingRecord.borrow_date r < BorrowingRecord.expected_return_date r
  ∧ ∀ actual, BorrowingRecord.actual_return_date r = Some actual →
      BorrowingRecord.borrow_date r ≤ actual.
Proof. intros Hreach Hr. by apply (reachable_ordered env Hreach id). Qed.

(** In the demo library. *)
Lemma record_dates_ordered_witness :
  BorrowingRecord.borrow_date demo_record
  < BorrowingRecord.expected_return_date demo_record
  ∧ ∀ actual, BorrowingRecord.actual_return_date demo_record = Some actual →
      BorrowingRecord.borrow_date demo_record ≤ actual.
Proof.
  apply (record_dates_ordered demo_env 1 demo_record).
  - apply demo_env_reachable.
  - vm_compute. reflexivity.
Defined.

(** ** library.borrowing.record: a loan made *)

Lemma size_filter_insert_new {A} (P : positive * A → Prop)
    `{!∀ x, Decision (P x)} (m : gmap positive A) i x :
  m !! i = None → P (i, x) →
  size (filter P (<[i := x]> m)) = S (size (filter P m)).
Proof.
  intros Hi HP. rewrite map_filter_insert_True by done.
  apply map_size_insert_None, map_lookup_filter_None. by left.
Qed.

Lemma alter_lookup {A} (f : A → A) (m : gmap positive A) i x :
  m !! i = Some x → alter f i m = <[i := f x]> m.
Proof.
  intros Hi. apply map_eq. intros j. destruct (decide (j = i)) as [->|Hne].
  - by rewrite lookup_alter_eq, lookup_insert_eq, Hi.
  - by rewrite lookup_alter_ne, lookup_insert_ne.
Qed.

Section record_create.
Import BorrowingRecord library_borrowing_record.

(** A new record counts for its member and its status, and for no
    other. *)
Lemma count_status_insert_new env id new m s :
  records env !! id = None →
  count_status (set_records <[id := new]> env) m s
  = (count_status env m s
     + if decide (member_id new = m ∧ status new = s) then 1 else 0)%nat.
Proof.
  intros Hnew. unfold count_status. simpl. destruct (decide _) as [H|H].
  - rewrite size_filter_insert_new by done. lia.
  - rewrite size_filter_insert; [lia|]. by rewrite Hnew.
Qed.

(** The constraint on the status of a member holds of an active member,
    and of a member with at most five borrowed books. *)
Lemma run_check_status_change_holds id env record :
  members env !! id = Some record →
  Member.member_status record = active ∨ Member.current_borrowed record ≤ 5 →
  library_member._check_status_change_borrowing_limit [id] env
  = (env, inr tt).
Proof.
  intros Hr H. rewrite (run_check_status_change id env record Hr).
  destruct H as [->|Hle].
  - by rewrite !bool_decide_eq_false_2.
  - by rewrite (proj2 (Z.ltb_ge _ _) Hle), !andb_false_r.
Qed.

(** The record that [create] stores for the values [v], on the day
    [today] and with the number [next_by_code] of the sequence. *)
Lemma run_orm_create today v env m b l e member :
  v_member_id v = Some m → v_book_id v = Some b →
  v_librarian_id v = Some l → v_expected_return_date v = Some e →
  references_exist env v = true →
  v_actual_return_date v = None →
  default today (v_borrow_date v) < e →
  members env !! m = Some member →
  Member.member_status member = active
  ∨ Z.of_nat (count_status env m borrowed)
    + (if decide (default borrowed (v_status v) = borrowed) then 1 else 0)
    ≤ 5 →
  orm_create today v env
  = (library_member.current_borrowed_recomputed m
       (library_book.available_copies_recomputed b
          (set_records
             <[fresh (dom (records env)) :=
                 set_days_overdue
                   (default
                      (_compute_days_overdue today
                         (mk (default "New" (v_sequence v)) m b l
                            (default today (v_borrow_date v)) e None
                            (default borrowed (v_status v)) 0
                            (default 0%float (v_fine_amount v))
                            (default 5%float (v_fine_per_day v))))
                      (v_days_overdue v))
                   (mk (default "New" (v_sequence v)) m b l
                      (default today (v_borrow_date v)) e None
                      (default borrowed (v_status v)) 0
                      (default 0%float (v_fine_amount v))
                      (default 5%float (v_fine_per_day v)))]> env)),
     inr (fresh (dom (records env)))).
Proof.
  intros Hm Hb Hl He Href Ha Hlt Hmember Hstatus. unfold orm_create.
  rewrite run_ask_bind, Hm, Hb, Hl, He, Href, Ha. cbv zeta.
  set (row := set_days_overdue _ _).
  unfold library_book.recompute_available_copies,
    library_member.recompute_current_borrowed.
  rewrite !run_modify_bind.
  set (env1 := set_records <[fresh (dom (records env)) := row]> env).
  set (env2 := library_book.available_copies_recomputed b env1).
  set (env3 := library_member.current_borrowed_recomputed m env2).
  assert (Hrow : records env3 !! fresh (dom (records env)) = Some row)
    by apply lookup_insert_eq.
  assert (Hcheck :
    library_member._check_status_change_borrowing_limit [m] env3
    = (env3, inr tt)).
  { apply (run_check_status_change_holds m env3
             (Member.set_current_borrowed
                (library_member._compute_current_borrowed env2 m) member)).
    { unfold env3, library_member.current_borrowed_recomputed. simpl.
      by rewrite lookup_alter_eq, Hmember. }
    destruct Hstatus as [Hactive|Hle]; [by left|right]. simpl.
    rewrite (compute_current_borrowed_records env1 env2 m) by done.
    rewrite compute_current_borrowed_count. unfold env1.
    rewrite count_status_insert_new by apply not_elem_of_dom, is_fresh.
    simpl. destruct (decide (default borrowed (v_status v) = borrowed));
      destruct (decide (_ ∧ _)); try tauto; lia. }
  rewrite run_bind, (run_check_actual_return_date _ _ _ Hrow). simpl.
  rewrite run_bind, (run_check_return_date _ _ _ Hrow). simpl.
  rewrite (proj2 (Z.leb_gt _ _) Hlt). by rewrite run_bind, Hcheck.
Qed.
(** [create], when nothing refuses the loan. *)
Lemma run_create today next_by_code v env m b l e member book :
  v_member_id v = Some m → v_book_id v = Some b →
  v_librarian_id v = Some l → v_expected_return_date v = Some e →
  v_status v = None → v_actual_return_date v = None →
  members env !! m = Some member → books env !! b = Some book →
  l ∈ librarians env →
  Z.of_nat (count_status env m borrowed) < Member.max_borrow_limit member →
  1 ≤ Book.available_copies book →
  default today (v_borrow_date v) < e →
  Member.member_status member = active
  ∨ Z.of_nat (count_status env m borrowed) + (if e <? today then 0 else 1)
    ≤ 5 →
  create today next_by_code v env
  = (library_member.current_borrowed_recomputed m
       (library_member.current_borrowed_recomputed m
          (library_book.available_copies_recomputed b
             (set_records
                <[fresh (dom (records env))
                  := new_loan today next_by_code v m b l e]> env))),
     inr (fresh (dom (records env)))).
Proof.
  intros Hm Hb Hl He Hs Ha Hmember Hbook Hlib Hcount Hcopies Hlt Hstatus.
  unfold create. cbv zeta. set (v1 := if decide _ then _ else v).
  assert (v_member_id v1 = Some m ∧ v_book_id v1 = Some b
          ∧ v_librarian_id v1 = Some l ∧ v_expected_return_date v1 = Some e
          ∧ v_status v1 = None ∧ v_actual_return_date v1 = None
          ∧ v_borrow_date v1 = v_borrow_date v
          ∧ v_days_overdue v1 = v_days_overdue v
          ∧ v_fine_amount v1 = v_fine_amount v
          ∧ v_fine_per_day v1 = v_fine_per_day v
          ∧ default "New" (v_sequence v1)
            = if decide (default "" (v_sequence v) = ""
                         ∨ v_sequence v = Some "New")
              then or_New next_by_code else default "New" (v_sequence v))
    as (Hm1 & Hb1 & Hl1 & He1 & Hs1 & Ha1 & Hbd1 & Hd1 & Hf1 & Hp1 & Hseq1).
  { unfold v1. by destruct (decide _). }
  clearbody v1. rewrite Hm1, Hb1, He1.
  rewrite run_bind, run_ask_bind, Hmember. cbv zeta.
  rewrite count_borrowed_count.
  rewrite (proj2 (Z.leb_gt _ _) Hcount), run_ret. cbv beta iota.
  rewrite run_bind, run_ask_bind, Hbook.
  rewrite (proj2 (Z.ltb_ge _ _) Hcopies), run_ret. cbv beta iota.
  set (v2 := if e <? today then set_v_status overdue v1 else v1).
  assert (v_member_id v2 = Some m ∧ v_book_id v2 = Some b
          ∧ v_librarian_id v2 = Some l ∧ v_expected_return_date v2 = Some e
          ∧ default borrowed (v_status v2)
            = (if e <? today then overdue else borrowed)
          ∧ v_actual_return_date v2 = None
          ∧ v_borrow_date v2 = v_borrow_date v
          ∧ v_days_overdue v2 = v_days_overdue v
          ∧ v_fine_amount v2 = v_fine_amount v
          ∧ v_fine_per_day v2 = v_fine_per_day v
          ∧ v_sequence v2 = v_sequence v1)
    as (Hm2 & Hb2 & Hl2 & He2 & Hs2 & Ha2 & Hbd2 & Hd2 & Hf2 & Hp2 & Hseq2).
  { unfold v2. destruct (e <? today); simpl; by rewrite ?Hs1. }
  clearbody v2. rewrite run_bind.
  rewrite (run_orm_create today v2 env m b l e member) by
    (first [done | by rewrite Hbd2
           | unfold references_exist; rewrite Hm2, Hb2, Hl2; simpl;
             rewrite Hmember, Hbook;
             by rewrite !bool_decide_eq_true_2 by (done || by eexists)
           | rewrite Hs2; destruct Hstatus as [?|Hle]; [by left|right];
             by destruct (e <? today)]).
  rewrite Hs2, Hbd2, Hd2, Hf2, Hp2, Hseq2, Hseq1.
  set (row := set_days_overdue _ _).
  assert (row = new_loan today next_by_code v m b l e) as ->.
  { unfold row, new_loan, set_days_overdue, _compute_days_overdue. simpl.
    destruct (Z.ltb_spec e today); simpl.
    - by rewrite Z.max_r by lia.
    - by rewrite Z.max_l by lia. }
  rewrite run_ask_bind. simpl. rewrite lookup_insert_eq.
  unfold library_member.recompute_current_borrowed.
  by rewrite run_modify_bind.
Qed.
End record_create.

(** X11: in a state the calls reach, a loan that nothing refuses (the
    member is below the limit, and is active or holds at most five
    borrowed books with the loan, which the constraint on the status of
    the member asks when the count is recomputed; a copy of the book is
    available, the librarian exists, the loan is due after the day it is
    made) is recorded: the record is new, it is overdue from the start when the
    expected return date is already past and borrowed otherwise, the book
    has one copy less available, and the member has one borrowed book
    more unless the record is overdue from the start; nothing else
    changes. *)
Theorem create_takes_a_copy today next_by_code v env m b l e member book :
  reachable env →
  BorrowingRecord.v_member_id v = Some m →
  BorrowingRecord.v_book_id v = Some b →
  BorrowingRecord.v_librarian_id v = Some l →
  BorrowingRecord.v_expected_return_date v = Some e →
  BorrowingRecord.v_status v = None →
  BorrowingRecord.v_actual_return_date v = None →
  members env !! m = Some member →
  books env !! b = Some book →
  l ∈ librarians env →
  Member.current_borrowed member < Member.max_borrow_limit member →
  1 ≤ Book.available_copies book →
  default today (BorrowingRecord.v_borrow_date v) < e →
  Member.member_status member = active
  ∨ Member.current_borrowed member + (if e <? today then 0 else 1) ≤ 5 →
  ∃ env' id,
    library_borrowing_record.create today next_by_code v env = (env', inr id)
    ∧ records env !! id = None
    ∧ records env'
      = <[id := new_loan today next_by_code v m b l e]> (records env)
    ∧ books env'
      = <[b := Book.set_available_copies (Book.available_copies book - 1)
                 book]> (books env)
    ∧ members env'
      = <[m := Member.set_current_borrowed
                 (Member.current_borrowed member
                  + (if e <? today then 0 else 1)) member]> (members env)
    ∧ librarians env' = librarians env.
Proof.
  intros Hreach Hm Hb Hl He Hs Ha Hmember Hbook Hlib Hlimit Hcopies Hlt
    Hstatus.
  destruct (reachable_computed env Hreach) as [Hbooks Hmembers].
  pose proof (Hbooks b book (not_elem_of_empty _) Hbook) as Hav.
  pose proof (Hmembers m member (not_elem_of_empty _) Hmember) as Hcb.
  rewrite compute_available_copies_count in Hav.
  rewrite compute_current_borrowed_count in Hcb.
  set (id := fresh (dom (records env))).
  assert (Hnew : records env !! id = None).
  { apply not_elem_of_dom, is_fresh. }
  set (row := new_loan today next_by_code v m b l e).
  set (env1 := set_records <[id := row]> env).
  assert (Hcopy : library_book._compute_available_copies env1 b book
                  = Book.available_copies book - 1).
  { rewrite compute_available_copies_count.
    assert (unavailable_count env1 b = S (unavailable_count env b)) as ->.
    { unfold unavailable_count, env1. simpl.
      apply size_filter_insert_new; [done|]. simpl. split; [done|].
      destruct (e <? today); auto. }
    lia. }
  assert (Hborrowed : ∀ env2, records env2 = records env1 →
    library_member._compute_current_borrowed env2 m
    = Member.current_borrowed member + (if e <? today then 0 else 1)).
  { intros env2 Hrecs.
    rewrite (compute_current_borrowed_records env1 env2 m Hrecs).
    rewrite compute_current_borrowed_count, Hcb.
    unfold count_status, env1. simpl. destruct (e <? today) eqn:Hpast.
    - rewrite size_filter_insert; [lia|]. rewrite Hnew. simpl.
      rewrite Hpast. by intros [_ ?].
    - rewrite size_filter_insert_new; [lia|done|]. simpl.
      by rewrite Hpast. }
  exists (library_member.current_borrowed_recomputed m
            (library_member.current_borrowed_recomputed m
               (library_book.available_copies_recomputed b env1))), id.
  split.
  { apply (run_create today next_by_code v env m b l e member book);
      try done; by rewrite <-Hcb. }
  split; [done|]. split; [done|]. split.
  - simpl. rewrite (alter_lookup _ _ _ _ Hbook). by rewrite Hcopy.
  - split; [|done]. simpl.
    rewrite (alter_lookup _ _ _ _ Hmember), !Hborrowed by done.
    by rewrite alter_insert_eq.
Qed.

(** A pending member with five borrowed books and the limit 10 is below
    the limit, and copies of the book are available; the sixth loan is
    refused all the same, by the constraint on the status of the member,
    once the loan is counted, and the call leaves the database as it
    was. *)
Lemma sixth_loan_of_pending_member_refused :
  reachable demo_env_pending_five
  ∧ members demo_env_pending_five !! 1%positive
    = Some demo_member_pending_five
  ∧ (library_borrowing_record.create 102 (Some "BR") demo_loan
       demo_env_pending_five).2
    = inl (ValidationError
             (library_member.status_change_message
                (Member.set_current_borrowed 6 demo_member_pending_five)
                "Pending"))
  ∧ call 102 (Record_create (Some "BR") demo_loan) demo_env_pending_five
    = demo_env_pending_five.
Proof.
  split; [apply reachable_calls; constructor|].
  split; [|split]; vm_compute; reflexivity.
Qed.

(** In the demo library: a second loan of the book to the member. *)
Lemma create_takes_a_copy_witness :
  ∃ env' id,
    library_borrowing_record.create 101 (Some "BR0002") demo_second_loan
      demo_env
    = (env', inr id)
    ∧ records demo_env !! id = None
    ∧ records env'
      = <[id := new_loan 101 (Some "BR0002") demo_second_loan 1 1 1 111]>
          (records demo_env)
    ∧ books env'
      = <[1%positive :=
            Book.set_available_copies (Book.available_copies demo_book_row - 1)
              demo_book_row]> (books demo_env)
    ∧ members env'
      = <[1%positive :=
            Member.set_current_borrowed
              (Member.current_borrowed demo_member_row
               + (if 111 <? 101 then 0 else 1)) demo_member_row]>
          (members demo_env)
    ∧ librarians env' = librarians demo_env.
Proof.
  apply (create_takes_a_copy 101 (Some "BR0002") demo_second_loan demo_env
           1 1 1 111 demo_member_row demo_book_row).
  - apply demo_env_reachable.
  - reflexivity.
  - reflexivity.
  - reflexivity.
  - reflexivity.
  - reflexivity.
  - reflexivity.
  - vm_compute. reflexivity.
  - vm_compute. reflexivity.
  - vm_compute. reflexivity.
  - vm_compute. reflexivity.
  - vm_compute. discriminate.
  - vm_compute. reflexivity.
  - left. reflexivity.
Defined.

(** ** library.borrowing.record: the status sweep *)

Section status_sweep.
Import BorrowingRecord library_borrowing_record.

Lemma for_each_for_fold {A} (l : list A) (body : A → M unit) env :
  for_each l body env = for_fold l tt (λ _ x, body x) env.
Proof.
  revert env. induction l as [|x l IH]; intros env; [done|]. simpl.
  rewrite !run_bind. destruct (body x env) as [env' [e|[]]]; [done|].
  apply IH.
Qed.

(** A loop that writes [g r] to each row [r] it visits writes it to
    every row of the recordset, once. *)
Lemma for_each_rows (g : t → t) (body : positive → M unit) :
  (∀ r, g (g r) = g r) →
  (∀ id env r, records env !! id = Some r →
     ∃ env',
       body id env = (env', inr tt)
       ∧ records env' = <[id := g r]> (records env)) →
  ∀ l env,
    (∀ id, id ∈ l → is_Some (records env !! id)) →
    ∃ env',
      for_each l body env = (env', inr tt)
      ∧ ∀ k, records env' !! k
             = if decide (k ∈ l) then g <$> records env !! k
               else records env !! k.
Proof.
  intros Hg Hbody l env Hl.
  destruct (for_fold_rows g (λ _ x, body x) Hg
              (λ _ id env r Hr,
                 match Hbody id env r Hr with
                 | ex_intro _ env' H => ex_intro _ env' (ex_intro _ tt H)
                 end) l tt env Hl) as (env' & [] & Hrun & Hrecs).
  exists env'. by rewrite for_each_for_fold.
Qed.

(** The members of the records recomputed: the records stay. *)
Lemma run_recompute_members_of l env :
  (∀ id, id ∈ l → is_Some (records env !! id)) →
  ∃ env',
    for_each l recompute_member_of env = (env', inr tt)
    ∧ records env' = records env.
Proof.
  revert env. induction l as [|id l IH]; intros env Hl; [by exists env|].
  destruct (Hl id) as [r Hr]; [by left|].
  rewrite run_for_each_cons, (run_recompute_member_of id env r Hr).
  destruct (IH (library_member.current_borrowed_recomputed (member_id r) env))
    as (env' & Hrun & Hrecs).
  { intros k Hk. apply Hl. by right. }
  by exists env'.
Qed.

Lemma written_status_idemp today s r :
  written today (vals_status s) (written today (vals_status s) r)
  = written today (vals_status s) r.
Proof. by destruct r. Qed.

Lemma written_marked_overdue today r :
  past_due borrowed today 1 r = true →
  written today (vals_status overdue) r = marked_overdue today r.
Proof.
  unfold past_due. intros [_ Hlt]%andb_true_iff.
  unfold written, marked_overdue, _compute_days_overdue. simpl.
  by rewrite Hlt.
Qed.

(** [write] of a status to a recordset never raises, and what it does to
    the records. *)
Lemma run_write_status_rows today s l env :
  (∀ id, id ∈ l → is_Some (records env !! id)) →
  ∃ env',
    write today l (vals_status s) env = (env', inr true)
    ∧ (∀ k, records env' !! k
            = if decide (k ∈ l)
              then written today (vals_status s) <$> records env !! k
              else records env !! k)
    ∧ librarians env' = librarians env
    ∧ (l = [] → env' = env).
Proof.
  intros Hl. unfold write, orm_write.
  destruct (for_each_rows (written today (vals_status s))
              (orm_write_row today (vals_status s))
              (written_status_idemp today s)) with (l := l) (env := env)
    as (env1 & Hrun1 & Hrecs1); [|done|].
  { intros id env0 r Hr.
    destruct (orm_write_row_ok today (vals_status s) id env0 r Hr)
      as (env' & Hrun & Hrecs & _); [done|by apply dates_accepted_no_date|].
    by exists env'. }
  rewrite !run_bind, Hrun1. cbv beta iota. rewrite run_ret. cbv beta iota.
  rewrite run_bind. simpl.
  destruct (run_recompute_members_of l env1) as (env2 & Hrun2 & Hrecs2).
  { intros id Hid. rewrite Hrecs1, decide_True by done.
    destruct (Hl id Hid) as [r ->]. by eexists. }
  rewrite Hrun2. exists env2. split; [done|].
  split; [intros k; by rewrite Hrecs2|].
  assert (librarians env1 = librarians env ∧ (l = [] → env1 = env))
    as [Hlib1 Hnil1].
  { clear Hrecs1 Hrun2 Hrecs2 env2. revert env env1 Hl Hrun1.
    induction l as [|id l IH]; intros env env1 Hl Hrun1.
    { by injection Hrun1 as <-. }
    rewrite run_for_each_cons in Hrun1.
    destruct (Hl id) as [r Hr]; [by left|].
    destruct (orm_write_row_ok today (vals_status s) id env r Hr)
      as (env' & Hrun & Hrecs & Hlib & _);
      [done|by apply dates_accepted_no_date|].
    rewrite Hrun in Hrun1. split; [|done]. rewrite <-Hlib.
    apply (IH env' env1); [|done].
    intros k Hk. rewrite Hrecs.
    destruct (decide (k = id)) as [->|Hne].
    - rewrite lookup_insert_eq. by eexists.
    - rewrite lookup_insert_ne by done. apply Hl. by right. }
  assert (librarians env2 = librarians env1 ∧ (l = [] → env2 = env1))
    as [Hlib2 Hnil2].
  { clear Hrecs1 Hrun1 Hrecs2 Hlib1 Hnil1 Hl. revert env1 env2 Hrun2.
    induction l as [|id l IH]; intros env1 env2 Hrun2.
    { by injection Hrun2 as <-. }
    split; [|done]. rewrite run_for_each_cons in Hrun2.
    unfold recompute_member_of in Hrun2 at 1.
    rewrite run_ask_bind in Hrun2.
    destruct (records env1 !! id) as [r|]; [|done].
    unfold library_member.recompute_current_borrowed, modify in Hrun2.
    by destruct (IH _ env2 Hrun2) as [-> _]. }
  split; [by rewrite Hlib2|]. intros Hnil. by rewrite Hnil2, Hnil1.
Qed.
End status_sweep.

(** X12: [update_overdue_records] never raises. It marks overdue the
    borrowed records that are past due, with the days they are late, and
    leaves their fine, and every other record, as they are. After it no
    record is borrowed and past due, and a second run on the same day
    changes nothing. *)
Theorem update_overdue_records_marks today env :
  ∃ env',
    library_borrowing_record.update_overdue_records today env
    = (env', inr true)
    ∧ records env' = sweep_status today <$> records env
    ∧ librarians env' = librarians env
    ∧ (∀ id r, records env' !! id = Some r →
         ¬ (BorrowingRecord.status r = borrowed
            ∧ BorrowingRecord.expected_return_date r < today))
    ∧ library_borrowing_record.update_overdue_records today env'
      = (env', inr true).
Proof.
  unfold library_borrowing_record.update_overdue_records.
  rewrite run_ask_bind. cbv zeta.
  destruct (run_write_status_rows today overdue
              (search by_borrow_date_desc
                 (library_borrowing_record.past_due borrowed today)
                 (records env)) env)
    as (env' & Hrun & Hrecs & Hlib & _).
  { intros id Hid. apply elem_of_search in Hid as (r & Hr & _).
    by rewrite Hr. }
  exists env'. rewrite run_bind, Hrun, run_ret.
  assert (Hswept : records env' = sweep_status today <$> records env).
  { apply map_eq. intros k. rewrite Hrecs, lookup_swept, !lookup_fmap.
    destruct (records env !! k) as [r|]; [|done]. simpl. f_equal.
    unfold sweep_status.
    destruct (library_borrowing_record.past_due borrowed today 1 r) eqn:Hp;
      [|done].
    by apply written_marked_overdue. }
  assert (Hnone : ∀ id r, records env' !! id = Some r →
    library_borrowing_record.past_due borrowed today id r = false).
  { intros id r'. rewrite Hswept, lookup_fmap.
    destruct (records env !! id) as [r|]; [|done]. simpl. intros [= <-].
    unfold sweep_status.
    destruct (library_borrowing_record.past_due borrowed today 1 r) eqn:Hp;
      done. }
  split; [done|]. split; [done|]. split; [done|]. split.
  - intros id r Hr [Hs Hlt]. specialize (Hnone id r Hr).
    unfold library_borrowing_record.past_due in Hnone.
    rewrite bool_decide_eq_true_2, (proj2 (Z.ltb_lt _ _) Hlt) in Hnone by done.
    done.
  - rewrite run_ask_bind. cbv zeta. unfold search.
    rewrite (search_rows_nil _ _ _ Hnone). simpl.
    destruct (run_write_status_rows today overdue [] env')
      as (env2 & Hrun2 & _ & _ & Hsame).
    { intros id Hid. by apply elem_of_nil in Hid. }
    rewrite run_bind, Hrun2, run_ret. by rewrite Hsame.
Qed.

(** ** The fine that the daily sweep charges *)

Section fine_charged.
Import BorrowingRecord library_borrowing_record.

Lemma fine_due_past_due today r :
  expected_return_date r < today →
  days_late today r = today - expected_return_date r
  ∧ fine_due today r
    = int_mul_float (today - expected_return_date r) (fine_per_day r).
Proof.
  intros Hlt. unfold fine_due, days_late. rewrite Z.max_r by lia.
  split; [done|]. by rewrite (proj2 (Z.eqb_neq _ _)) by lia.
Qed.

(** What the two loops of the sweep do to a record that is out and past
    due, and to any other record. *)
Lemma swept_charged today r :
  status r ≠ returned → expected_return_date r < today →
  ∃ fine,
    sweep_overdue today (sweep_borrowed today r) = charged today fine r
    ∧ (fine = fine_due today r
       ∨ PrimFloat.eqb fine (fine_due today r) = true)
    ∧ (status r = borrowed → fine = fine_due today r).
Proof.
  intros Hs Hlt. destruct (fine_due_past_due today r Hlt) as [Hdays Hfine].
  unfold charged. rewrite Hdays, Hfine. clear Hdays Hfine.
  destruct r as [seq m b l bd e a s d f p]. simpl in *.
  unfold sweep_overdue, sweep_borrowed, past_due. simpl.
  rewrite (proj2 (Z.ltb_lt _ _) Hlt).
  destruct s; [|done|]; simpl; rewrite ?(proj2 (Z.ltb_lt _ _) Hlt); simpl.
  - exists (int_mul_float (today - e) p). split; [|by auto].
    unfold fine_updated, turned_overdue. simpl.
    by destruct (fine_changed today _).
  - unfold fine_updated.
    destruct (fine_changed today _) eqn:Hc; simpl.
    + exists (int_mul_float (today - e) p). by auto.
    + exists f. unfold fine_changed, float_ne, int_ne in Hc. simpl in Hc.
      apply orb_false_iff in Hc as [Hf Hd].
      apply negb_false_iff in Hf, Hd. apply Z.eqb_eq in Hd. subst d.
      split; [done|]. split; [by right|done].
Qed.

Lemma swept_untouched today r :
  status r = returned ∨ today ≤ expected_return_date r →
  sweep_overdue today (sweep_borrowed today r) = r.
Proof.
  intros Hr. unfold sweep_overdue, sweep_borrowed, past_due.
  destruct Hr as [Hs|Hle].
  - rewrite Hs. simpl. by rewrite Hs.
  - rewrite (proj2 (Z.ltb_ge _ _) Hle), !andb_false_r.
    by rewrite (proj2 (Z.ltb_ge _ _) Hle), !andb_false_r.
Qed.
End fine_charged.

(** X13: [cron_calculate_overdue_fines] never raises and returns True.
    After it, every record that was out (borrowed or overdue) and past
    due is overdue, with the days it is late and with the fine that a
    return on that day would compute: the days late times the rate of the
    record (for a record that was already overdue with a fine equal to
    it as floats, the fine it had). A returned record, and a record that
    is not past due, is left as it is; no record is added or deleted. *)
Theorem cron_calculate_overdue_fines_charges today env :
  ∃ env',
    library_borrowing_record.cron_calculate_overdue_fines today env
    = (env', inr true)
    ∧ (∀ id, records env !! id = None → records env' !! id = None)
    ∧ (∀ id r, records env !! id = Some r →
         (BorrowingRecord.status r = returned
          ∨ today ≤ BorrowingRecord.expected_return_date r →
          records env' !! id = Some r)
         ∧ (BorrowingRecord.status r ≠ returned →
            BorrowingRecord.expected_return_date r < today →
            ∃ fine,
              records env' !! id = Some (charged today fine r)
              ∧ (fine = fine_due today r
                 ∨ PrimFloat.eqb fine (fine_due today r) = true)
              ∧ (BorrowingRecord.status r = borrowed →
                 fine = fine_due today r))).
Proof.
  destruct (run_cron_body today env) as (env' & totals & Hrun & Hrecs).
  exists env'. split.
  { unfold library_borrowing_record.cron_calculate_overdue_fines, try_except.
    by rewrite run_bind, Hrun. }
  split.
  - intros id Hid. by rewrite Hrecs, !lookup_fmap, Hid.
  - intros id r Hr. rewrite Hrecs, !lookup_fmap, Hr. simpl. split.
    + intros Hcase. by rewrite swept_untouched.
    + intros Hs Hlt.
      destruct (swept_charged today r Hs Hlt) as (fine & -> & Hfine).
      by exists fine.
Qed.

(** ** library.member: the statistics and their search methods *)

Section member_statistics.
Import library_member.
Variable sum : list float → float.

Lemma statistics_count env id s :
  Z.of_nat
    (length (filter (λ b : positive * BorrowingRecord.t,
                       BorrowingRecord.status b.2 = s)
               (borrowing_ids env id)))
  = Z.of_nat (count_status env id s).
Proof.
  unfold borrowing_ids, count_status.
  rewrite length_filter_search_rows. do 2 f_equal.
  apply map_filter_ext. intros i r _. simpl.
  rewrite bool_decide_eq_true. tauto.
Qed.

(** Every record has one of the three statuses. *)
Lemma length_by_status (l : list (positive * BorrowingRecord.t)) :
  length l
  = (length (filter (λ b, BorrowingRecord.status b.2 = borrowed) l)
     + length (filter (λ b, BorrowingRecord.status b.2 = overdue) l)
     + length (filter (λ b, BorrowingRecord.status b.2 = returned) l))%nat.
Proof.
  induction l as [|b l IH]; [done|]. rewrite !filter_cons. simpl.
  destruct (BorrowingRecord.status b.2); simpl; lia.
Qed.

Lemma total_books_borrowed_count env id :
  total_books_borrowed (_compute_statistics sum env id)
  = Z.of_nat (count_status env id borrowed + count_status env id overdue
              + count_status env id returned).
Proof.
  unfold _compute_statistics. simpl.
  rewrite (length_by_status (borrowing_ids env id)), !Nat2Z.inj_add.
  by rewrite !statistics_count.
Qed.

Lemma elem_of_all_members env id :
  id ∈ search by_id (λ _ _, true) (members env)
  ↔ is_Some (members env !! id).
Proof.
  rewrite elem_of_search. split.
  - intros (x & Hx & _). by exists x.
  - intros [x Hx]. by exists x.
Qed.

(** The chain of tests on [operator]. *)
Lemma elem_of_compared (stat : positive → Z) l operator value id :
  id ∈ (if decide (operator = "=") then filter (λ m, stat m = value) l
        else if decide (operator = ">") then filter (λ m, value < stat m) l
        else if decide (operator = "<") then filter (λ m, stat m < value) l
        else if decide (operator = ">=")
        then filter (λ m, value ≤ stat m) l
        else if decide (operator = "<=")
        then filter (λ m, stat m ≤ value) l
        else [])
  ↔ id ∈ l ∧ compares operator (stat id) value.
Proof.
  unfold compares.
  repeat (destruct (decide _) as [->|?]);
    rewrite ?list_elem_of_filter, ?elem_of_nil; intuition congruence.
Qed.

Lemma elem_of_compared_float (stat : positive → float) l operator value id :
  id ∈ (if decide (operator = "=")
        then filter (λ m, Is_true (PrimFloat.eqb (stat m) value)) l
        else if decide (operator = ">")
        then filter (λ m, Is_true (PrimFloat.ltb value (stat m))) l
        else if decide (operator = "<")
        then filter (λ m, Is_true (PrimFloat.ltb (stat m) value)) l
        else if decide (operator = ">=")
        then filter (λ m, Is_true (PrimFloat.leb value (stat m))) l
        else if decide (operator = "<=")
        then filter (λ m, Is_true (PrimFloat.leb (stat m) value)) l
        else [])
  ↔ id ∈ l ∧ compares_float operator (stat id) value.
Proof.
  unfold compares_float.
  repeat (destruct (decide _) as [->|?]);
    rewrite ?list_elem_of_filter, ?elem_of_nil, ?Is_true_true;
    intuition congruence.
Qed.

Lemma elem_of_search_overdue_books_count env operator value id :
  id ∈ _search_overdue_books_count sum env operator value
  ↔ is_Some (members env !! id)
    ∧ compares operator (Z.of_nat (count_status env id overdue)) value.
Proof.
  unfold _search_overdue_books_count. cbv zeta.
  rewrite elem_of_compared, elem_of_all_members.
  unfold _compute_statistics. simpl. by rewrite statistics_count.
Qed.
End member_statistics.

(** X14: the statistics of a member add up: [overdue_books_count] and
    [returned_books_count] are the numbers of overdue and of returned
    records of the member, and [total_books_borrowed] is their sum with
    the number of borrowed records, which in every state the calls reach
    is the stored [current_borrowed]. *)
Theorem statistics_add_up sum env id :
  let s := library_member._compute_statistics sum env id in
  library_member.overdue_books_count s
  = Z.of_nat (count_status env id overdue)
  ∧ library_member.returned_books_count s
    = Z.of_nat (count_status env id returned)
  ∧ library_member.total_books_borrowed s
    = Z.of_nat (count_status env id borrowed)
      + library_member.overdue_books_count s
      + library_member.returned_books_count s
  ∧ (∀ member, reachable env → members env !! id = Some member →
       library_member.total_books_borrowed s
       = Member.current_borrowed member
         + library_member.overdue_books_count s
         + library_member.returned_books_count s).
Proof.
  cbv zeta.
  assert (Hover : library_member.overdue_books_count
                    (library_member._compute_statistics sum env id)
                  = Z.of_nat (count_status env id overdue))
    by apply statistics_count.
  assert (Hret : library_member.returned_books_count
                   (library_member._compute_statistics sum env id)
                 = Z.of_nat (count_status env id returned))
    by apply statistics_count.
  assert (Htotal : library_member.total_books_borrowed
                     (library_member._compute_statistics sum env id)
                   = Z.of_nat (count_status env id borrowed)
                     + Z.of_nat (count_status env id overdue)
                     + Z.of_nat (count_status env id returned)).
  { rewrite total_books_borrowed_count. lia. }
  rewrite Hover, Hret, Htotal. repeat split.
  intros member Hreach Hmember.
  pose proof (proj2 (reachable_computed env Hreach) id member
                (not_elem_of_empty _) Hmember) as Hcb.
  rewrite compute_current_borrowed_count in Hcb. by rewrite Hcb.
Qed.

(** X15: the search methods of the statistics of a member answer the
    operators =, >, <, >= and <=: the members they return are the members
    whose statistic compares so with the value. For any other operator
    (as != or in) they return no member. *)
Theorem search_statistics sum env operator id :
  (∀ value,
     id ∈ library_member._search_total_books_borrowed sum env operator value
     ↔ is_Some (members env !! id)
       ∧ compares operator
           (Z.of_nat (count_status env id borrowed
                      + count_status env id overdue
                      + count_status env id returned)) value)
  ∧ (∀ value,
       id ∈ library_member._search_overdue_books_count sum env operator value
       ↔ is_Some (members env !! id)
         ∧ compares operator (Z.of_nat (count_status env id overdue)) value)
  ∧ (∀ value,
       id ∈ library_member._search_returned_books_count sum env operator value
       ↔ is_Some (members env !! id)
         ∧ compares operator (Z.of_nat (count_status env id returned)) value)
  ∧ (∀ value,
       id ∈ library_member._search_total_fines sum env operator value
       ↔ is_Some (members env !! id)
         ∧ compares_float operator
             (library_member.total_fines
                (library_member._compute_statistics sum env id)) value)
  ∧ (operator ∉ ["="; ">"; "<"; ">="; "<="] →
     ∀ value value',
       library_member._search_total_books_borrowed sum env operator value = []
       ∧ library_member._search_overdue_books_count sum env operator value
         = []
       ∧ library_member._search_returned_books_count sum env operator value
         = []
       ∧ library_member._search_total_fines sum env operator value' = []).
Proof.
  split; [|split; [|split; [|split]]].
  - intros value. unfold library_member._search_total_books_borrowed.
    cbv zeta. rewrite elem_of_compared, elem_of_all_members.
    by rewrite total_books_borrowed_count.
  - intros value. apply elem_of_search_overdue_books_count.
  - intros value. unfold library_member._search_returned_books_count.
    cbv zeta. rewrite elem_of_compared, elem_of_all_members.
    unfold library_member._compute_statistics. simpl.
    by rewrite statistics_count.
  - intros value. unfold library_member._search_total_fines.
    cbv zeta. by rewrite elem_of_compared_float, elem_of_all_members.
  - intros Hop value value'.
    unfold library_member._search_total_books_borrowed,
      library_member._search_overdue_books_count,
      library_member._search_returned_books_count,
      library_member._search_total_fines. cbv zeta.
    repeat (destruct (decide _) as [->|?];
            [destruct Hop; set_solver by idtac|]).
    done.
Qed.

(** X16: [cron_review_member_status] returns True and leaves the
    database as it is. The members it reports for attention are the
    active members with at least three overdue records, and they are
    among the active members with an overdue record that it counts. *)
Theorem review_reports_three_overdue sum env id :
  library_member.cron_review_member_status sum env = (env, inr true)
  ∧ (id ∈ library_member.members_with_overdue
            (library_member.review_member_status sum env)
     ↔ ∃ member, members env !! id = Some member
         ∧ Member.member_status member = active
         ∧ (1 ≤ count_status env id overdue)%nat)
  ∧ (id ∈ library_member.high_overdue_members
            (library_member.review_member_status sum env)
     ↔ ∃ member, members env !! id = Some member
         ∧ Member.member_status member = active
         ∧ (3 ≤ count_status env id overdue)%nat).
Proof.
  split; [done|].
  assert (Hwith :
    id ∈ library_member.members_with_overdue
           (library_member.review_member_status sum env)
    ↔ ∃ member, members env !! id = Some member
        ∧ Member.member_status member = active
        ∧ (1 ≤ count_status env id overdue)%nat).
  { unfold library_member.review_member_status. simpl.
    rewrite elem_of_search. split.
    - intros (member & Hmember & Hd). exists member. split; [done|].
      apply andb_true_iff in Hd as [Hover Hactive].
      apply bool_decide_eq_true in Hover, Hactive. split; [done|].
      apply elem_of_search_overdue_books_count in Hover as [_ Hc].
      unfold compares in Hc. intuition (try discriminate). lia.
    - intros (member & Hmember & Hactive & Hover). exists member.
      split; [done|]. apply andb_true_iff.
      split; apply bool_decide_eq_true; [|done].
      apply elem_of_search_overdue_books_count. split; [by eexists|].
      unfold compares. right. left. split; [done|]. lia. }
  split; [exact Hwith|].
  pose proof (statistics_count env id overdue) as Hcount.
  unfold library_member.review_member_status in *. simpl in *.
  rewrite list_elem_of_filter, Hwith, Hcount.
  split.
  - intros (Hthree & member & Hmember & Hactive & _). exists member.
    repeat split; [done..|lia].
  - intros (member & Hmember & Hactive & Hthree). split; [lia|].
    exists member. repeat split; [done..|lia].
Qed.

(** ** library.borrowing.record: a loan returned *)

Lemma size_filter_insert_drop {A} (P : positive * A → Prop)
    `{!∀ x, Decision (P x)} (m : gmap positive A) i x y :
  m !! i = Some y → P (i, y) → ¬ P (i, x) →
  S (size (filter P (<[i := x]> m))) = size (filter P m).
Proof.
  intros Hi Hy Hx. rewrite map_filter_insert_False, map_filter_delete by done.
  assert (filter P m !! i = Some y) as Hin
    by by apply map_lookup_filter_Some.
  rewrite map_size_delete, Hin.
  assert (size (filter P m) ≠ 0%nat); [|lia].
  intros Hempty. apply map_size_empty_inv in Hempty.
  by rewrite Hempty in Hin.
Qed.

Section record_return.
Import BorrowingRecord library_borrowing_record.

(** [write] of values that give a status and no reference, to one
    record: the stored fields of its book and of its member are
    recomputed. *)
Lemma run_write_one_status today v id env old :
  records env !! id = Some old →
  v_member_id v = None → v_book_id v = None → v_librarian_id v = None →
  is_Some (v_status v) →
  dates_accepted v (written today v old) →
  write today [id] v env
  = (library_member.current_borrowed_recomputed (member_id old)
       (library_member.current_borrowed_recomputed (member_id old)
          (library_member.current_borrowed_recomputed (member_id old)
             (library_book.available_copies_recomputed (book_id old)
                (library_book.available_copies_recomputed (book_id old)
                   (set_records <[id := written today v old]> env))))),
     inr true).
Proof.
  intros Hold Hm Hb Hl Hs [Hact Hexp].
  set (new := written today v old) in *.
  set (env1 := set_records <[id := new]> env).
  set (env3 := library_book.available_copies_recomputed (book_id old)
                 (library_book.available_copies_recomputed (book_id old)
                    env1)).
  set (env5 := library_member.current_borrowed_recomputed (member_id old)
                 (library_member.current_borrowed_recomputed (member_id old)
                    env3)).
  assert (Hnew : records env5 !! id = Some new) by apply lookup_insert_eq.
  assert (Hrow : orm_write_row today v id env = (env5, inr tt)).
  { unfold orm_write_row. rewrite run_ask_bind, Hold.
    assert (references_exist env v = true) as ->.
    { unfold references_exist. by rewrite Hm, Hb, Hl. }
    cbv zeta. fold new.
    assert (book_id new = book_id old) as ->.
    { unfold new. by rewrite written_book_id, Hb. }
    assert (member_id new = member_id old) as ->.
    { unfold new. by rewrite written_member_id, Hm. }
    rewrite (bool_decide_eq_true_2 _ Hs). simpl orb.
    rewrite run_modify_bind. fold env1. rewrite run_bind.
    change (when true
              (library_book.recompute_available_copies (book_id old);;
               library_book.recompute_available_copies (book_id old)) env1)
      with (env3, inr tt : Exception + ()).
    cbv beta iota. rewrite run_bind.
    change (when true
              (library_member.recompute_current_borrowed (member_id old);;
               library_member.recompute_current_borrowed (member_id old))
              env3)
      with (env5, inr tt : Exception + ()).
    cbv beta iota. rewrite run_bind.
    assert (when (bool_decide (is_Some (v_actual_return_date v))
                  || bool_decide (is_Some (v_borrow_date v)))
              (_check_actual_return_date [id]) env5 = (env5, inr tt)) as ->.
    { destruct (bool_decide (is_Some (v_actual_return_date v)) || _)
        eqn:Hc; [|reflexivity]. simpl.
      rewrite (run_check_actual_return_date _ _ _ Hnew).
      destruct (actual_return_date new) as [a|] eqn:Ha; [|done].
      apply orb_true_iff in Hc. rewrite !bool_decide_eq_true in Hc.
      specialize (Hact Hc a eq_refl).
      by rewrite (proj2 (Z.ltb_ge _ _) Hact). }
    cbv beta iota.
    destruct (bool_decide (is_Some (v_expected_return_date v)) || _)
      eqn:Hc; [|reflexivity]. simpl.
    rewrite (run_check_return_date _ _ _ Hnew).
    apply orb_true_iff in Hc. rewrite !bool_decide_eq_true in Hc.
    specialize (Hexp Hc).
    by rewrite (proj2 (Z.leb_gt _ _) Hexp). }
  unfold write, orm_write.
  rewrite run_bind, run_bind, run_for_each_one, Hrow. cbv beta iota.
  rewrite run_ret. cbv beta iota.
  rewrite run_bind, (bool_decide_eq_true_2 _ Hs). unfold when.
  rewrite run_for_each_one, (run_recompute_member_of id env5 new Hnew).
  cbv beta iota. rewrite run_ret. unfold new.
  by rewrite written_member_id, Hm.
Qed.
(** [action_return_book], when nothing refuses the return. *)
Lemma run_action_return_book today id env r :
  records env !! id = Some r →
  status r ≠ returned →
  borrow_date r ≤ today →
  action_return_book today id env
  = (library_member.current_borrowed_recomputed (member_id r)
       (library_member.current_borrowed_recomputed (member_id r)
          (library_member.current_borrowed_recomputed (member_id r)
             (library_book.available_copies_recomputed (book_id r)
                (library_book.available_copies_recomputed (book_id r)
                   (set_records <[id := returned_on today r]> env))))),
     inr (display_notification "Book Returned"
            ("Book returned successfully. Fine: RM "
             +:+ format_2f (fine_due today r))
            "success" false)).
Proof.
  intros Hr Hs Hb. unfold action_return_book.
  rewrite run_ask_bind, Hr, bool_decide_eq_false_2 by done. cbv zeta.
  set (fine := if expected_return_date r <? today then _ else _).
  assert (Hw : written today (vals_return today fine) r
               = returned_on today r) by apply written_return.
  rewrite run_bind.
  rewrite (run_write_one_status today (vals_return today fine) id env r);
    [|done|done|done|done|by eexists|].
  - cbv beta iota. rewrite run_ret, Hw. do 5 f_equal.
    injection Hw as _ Hfine. by rewrite Hfine.
  - rewrite Hw. split; [|intros [[? H]|[? H]]; discriminate H].
    intros _ actual [= <-]. done.
Qed.
End record_return.

(** X17: in a state the calls reach, a record that is out (borrowed or
    overdue) and is returned on or after the day it was borrowed gives
    its copy back: the book has one copy more available (when no more
    copies were out than the book has), and the member has one borrowed
    book less if the record was borrowed, and as many if it was overdue;
    nothing else changes. *)
Theorem return_gives_back_copy today env id r member book :
  reachable env →
  records env !! id = Some r →
  BorrowingRecord.status r ≠ returned →
  BorrowingRecord.borrow_date r ≤ today →
  members env !! BorrowingRecord.member_id r = Some member →
  books env !! BorrowingRecord.book_id r = Some book →
  ∃ env' a,
    library_borrowing_record.action_return_book today id env = (env', inr a)
    ∧ records env' = <[id := returned_on today r]> (records env)
    ∧ books env'
      = <[BorrowingRecord.book_id r :=
            Book.set_available_copies
              (Z.max 0
                 (Book.total_copies book
                  - Z.of_nat (unavailable_count env (BorrowingRecord.book_id r))
                  + 1)) book]> (books env)
    ∧ (Z.of_nat (unavailable_count env (BorrowingRecord.book_id r))
       ≤ Book.total_copies book →
       Z.max 0
         (Book.total_copies book
          - Z.of_nat (unavailable_count env (BorrowingRecord.book_id r)) + 1)
       = Book.available_copies book + 1)
    ∧ members env'
      = <[BorrowingRecord.member_id r :=
            Member.set_current_borrowed
              (Member.current_borrowed member
               - (if decide (BorrowingRecord.status r = borrowed)
                  then 1 else 0)) member]> (members env)
    ∧ librarians env' = librarians env.
Proof.
  intros Hreach Hr Hs Hb Hmember Hbook.
  destruct (reachable_computed env Hreach) as [Hbooks Hmembers].
  pose proof (Hbooks _ book (not_elem_of_empty _) Hbook) as Hav.
  pose proof (Hmembers _ member (not_elem_of_empty _) Hmember) as Hcb.
  rewrite compute_available_copies_count in Hav.
  rewrite compute_current_borrowed_count in Hcb.
  set (b := BorrowingRecord.book_id r) in *.
  set (m := BorrowingRecord.member_id r) in *.
  set (env1 := set_records <[id := returned_on today r]> env).
  assert (Hout : S (unavailable_count env1 b) = unavailable_count env b).
  { unfold unavailable_count, env1. simpl.
    apply (size_filter_insert_drop _ _ _ _ r); [done|..]; simpl.
    - split; [done|]. destruct (BorrowingRecord.status r); auto. done.
    - intros [_ [?|?]]; discriminate. }
  assert (Hcopy : ∀ env2 book', records env2 = records env1 →
    Book.total_copies book' = Book.total_copies book →
    library_book._compute_available_copies env2 b book'
    = Z.max 0 (Book.total_copies book - Z.of_nat (unavailable_count env b)
               + 1)).
  { intros env2 book' Hrecs Htotal.
    rewrite (compute_available_copies_records env1 env2 b book' Hrecs).
    rewrite compute_available_copies_count, Htotal. lia. }
  assert (Hborrowed : ∀ env2, records env2 = records env1 →
    library_member._compute_current_borrowed env2 m
    = Member.current_borrowed member
      - (if decide (BorrowingRecord.status r = borrowed) then 1 else 0)).
  { intros env2 Hrecs.
    rewrite (compute_current_borrowed_records env1 env2 m Hrecs).
    rewrite compute_current_borrowed_count, Hcb.
    unfold count_status, env1. simpl.
    destruct (decide (BorrowingRecord.status r = borrowed)) as [Hbor|Hbor].
    - rewrite <-(size_filter_insert_drop _ (records env) id
                   (returned_on today r) r); [lia|done|done|].
      simpl. by intros [_ ?].
    - rewrite size_filter_insert; [lia|]. rewrite Hr. simpl.
      split; intros [_ ?]; done. }
  eexists _, _. split.
  { by apply (run_action_return_book today id env r). }
  fold b m env1. split; [done|]. split; [|split; [|split; [|done]]].
  - simpl. rewrite (alter_lookup _ _ _ _ Hbook), alter_insert_eq.
    rewrite !Hcopy by done. done.
  - intros Hle. lia.
  - simpl. rewrite (alter_lookup _ _ _ _ Hmember), !alter_insert_eq.
    by rewrite !Hborrowed by done.
Qed.

(** In the demo library: the loan returned on day 113. *)
Lemma return_gives_back_copy_witness :
  ∃ env' a,
    library_borrowing_record.action_return_book 113 1 demo_env = (env', inr a)
    ∧ records env' = <[1%positive := returned_on 113 demo_record]>
                       (records demo_env)
    ∧ books env'
      = <[BorrowingRecord.book_id demo_record :=
            Book.set_available_copies
              (Z.max 0
                 (Book.total_copies demo_book_row
                  - Z.of_nat
                      (unavailable_count demo_env
                         (BorrowingRecord.book_id demo_record))
                  + 1)) demo_book_row]> (books demo_env)
    ∧ (Z.of_nat
         (unavailable_count demo_env (BorrowingRecord.book_id demo_record))
       ≤ Book.total_copies demo_book_row →
       Z.max 0
         (Book.total_copies demo_book_row
          - Z.of_nat
              (unavailable_count demo_env
                 (BorrowingRecord.book_id demo_record)) + 1)
       = Book.available_copies demo_book_row + 1)
    ∧ members env'
      = <[BorrowingRecord.member_id demo_record :=
            Member.set_current_borrowed
              (Member.current_borrowed demo_member_row
               - (if decide (BorrowingRecord.status demo_record = borrowed)
                  then 1 else 0)) demo_member_row]> (members demo_env)
    ∧ librarians env' = librarians demo_env.
Proof.
  apply (return_gives_back_copy 113 demo_env 1 demo_record demo_member_row
           demo_book_row).
  - apply demo_env_reachable.
  - vm_compute. reflexivity.
  - discriminate.
  - vm_compute. discriminate.
  - vm_compute. reflexivity.
  - vm_compute. reflexivity.
Defined.

(** ** library.book: the ISBN of another book *)

(** X18: a book is not created with the ISBN of an existing book, and
    the ISBN of an existing book is not written to another book: the row
    violates UNIQUE(isbn), the call raises the error of the database (not
    the message of [_check_isbn_unique]), and the database is left as it
    is. *)
Theorem isbn_of_another_book_refused v env j other :
  books env !! j = Some other →
  Book.v_isbn v = Some (Book.isbn other) →
  (is_Some (Book.v_title v) → is_Some (Book.v_author v) →
   library_book.create v env = (env, inl (IntegrityError "unique_isbn")))
  ∧ (∀ id, id ≠ j → is_Some (books env !! id) →
       library_book.write [id] v env
       = (env, inl (IntegrityError "unique_isbn"))).
Proof.
  intros Hj Hv. split.
  - intros [t Ht] [a Ha]. unfold library_book.create.
    rewrite run_ask_bind, Ht, Ha, Hv. cbv zeta.
    rewrite (unique_violation_true Book.isbn _ _ _ j other);
      [done|done| |done].
    intros ->. apply (is_fresh (dom (books env))), elem_of_dom. by eexists.
  - intros id Hne [book Hbook]. unfold library_book.write.
    rewrite run_bind, run_for_each_one. unfold library_book.write_row.
    rewrite run_ask_bind, Hbook. cbv zeta.
    rewrite bool_decide_eq_true_2 by (rewrite Hv; by eexists).
    rewrite (unique_violation_true Book.isbn _ _ _ j other); [done|done|..].
    + by intros ->.
    + unfold Book.apply. simpl. by rewrite Hv.
Qed.

(** In the demo library: a second book with the ISBN of the first; and
    in the library with two books, the ISBN of the first written to the
    second. *)
Lemma isbn_of_another_book_refused_witness :
  library_book.create demo_book_same_isbn demo_env
  = (demo_env, inl (IntegrityError "unique_isbn"))
  ∧ library_book.write [2%positive] demo_book_same_isbn demo_env_two_books
    = (demo_env_two_books, inl (IntegrityError "unique_isbn")).
Proof.
  split.
  - refine (proj1 (isbn_of_another_book_refused demo_book_same_isbn demo_env
                     1 demo_book_row _ _) _ _).
    + vm_compute. reflexivity.
    + reflexivity.
    + by eexists.
    + by eexists.
  - refine (proj2 (isbn_of_another_book_refused demo_book_same_isbn
                     demo_env_two_books 1 demo_book_row _ _) 2%positive _ _).
    + vm_compute. reflexivity.
    + reflexivity.
    + discriminate.
    + vm_compute. by eexists.
Defined.

(** ** library.member: the limit that the form shows *)

(** X19: a successful write that sets the status of a member stores the
    row that [_onchange_member_status] computes from the row with the
    values applied: the limit that the form shows when the status is
    changed is the limit that [write] stores. The other members are left
    as they are. *)
Theorem write_as_onchange v id env env' record b :
  members env !! id = Some record →
  is_Some (Member.v_member_status v) →
  library_member.write [id] v env = (env', inr b) →
  members env'
  = <[id := library_member._onchange_member_status (Member.apply v record)]>
      (members env).
Proof.
  intros Hr Hs. unfold library_member.write, library_member.orm_write.
  rewrite !run_bind, run_for_each_one.
  destruct (library_member.orm_write_row v id env) as [env1 [e|[]]] eqn:Hrow;
    [discriminate|].
  apply (orm_write_row_members v id env env1 record Hr) in Hrow.
  rewrite run_ret. cbv beta iota.
  rewrite run_bind, bool_decide_eq_true_2 by done.
  unfold when. rewrite run_for_each_one.
  assert (Hnew : members env1 !! id = Some (Member.apply v record)).
  { subst env1. apply lookup_insert_eq. }
  rewrite (run_write_limit_of_status id env1 _ Hnew). cbv beta iota.
  rewrite run_ret. intros [= <- _]. subst env1. simpl.
  rewrite insert_insert_eq. f_equal.
  unfold library_member._onchange_member_status.
  simpl (Member.member_status (Member.apply v record)).
  by destruct (default _ _).
Qed.

(** In the demo library: the member made pending. *)
Lemma write_as_onchange_witness :
  members demo_env_pending
  = <[1%positive :=
        library_member._onchange_member_status
          (Member.apply (vals_member_status pending) demo_member_row)]>
      (members demo_env).
Proof.
  apply (write_as_onchange (vals_member_status pending) 1 demo_env
           demo_env_pending demo_member_row true).
  - vm_compute. reflexivity.
  - by eexists.
  - vm_compute. reflexivity.
Defined.

(** ** The borrowing records refer to rows that exist *)

Section references.
Import BorrowingRecord library_borrowing_record.

Local Abbreviation any := (λ (_ : Exception) (_ : Env), True).

Lemma references_hold_grow env env' :
  (∀ i, is_Some (books env !! i) → is_Some (books env' !! i)) →
  (∀ i, is_Some (members env !! i) → is_Some (members env' !! i)) →
  (∀ i, i ∈ librarians env → i ∈ librarians env') →
  records env' = records env →
  references_hold env → references_hold env'.
Proof.
  intros Hb Hm Hl Hr Hold id r. rewrite Hr. intros Hid.
  destruct (Hold id r Hid) as (? & ? & ?). auto.
Qed.

Lemma references_hold_shape env env' :
  shape env' = shape env → records env' = records env →
  references_hold env → references_hold env'.
Proof.
  unfold shape. intros [= Hb Hm Hl] Hr.
  apply references_hold_grow; [| |by rewrite Hl|done]; intros i.
  - by rewrite <-!elem_of_dom, Hb.
  - by rewrite <-!elem_of_dom, Hm.
Qed.

Lemma triple_references_keeps {A} (m : M A) :
  keeps shape m → keeps records m →
  triple references_hold m (λ _, references_hold) any.
Proof.
  intros Hs Hr env Hold. specialize (Hs env). specialize (Hr env).
  destruct (m env) as [env' [e|a]]; [done|].
  by apply (references_hold_shape env).
Qed.

Lemma shape_available_copies_recomputed b env :
  shape (library_book.available_copies_recomputed b env) = shape env.
Proof. unfold shape. simpl. by rewrite dom_alter_L. Qed.

Lemma shape_current_borrowed_recomputed m env :
  shape (library_member.current_borrowed_recomputed m env) = shape env.
Proof. unfold shape. simpl. by rewrite dom_alter_L. Qed.

Lemma shape_write_book id book book' env :
  books env !! id = Some book →
  shape (set_books <[id := book']> env) = shape env.
Proof.
  intros Hbook. unfold shape. simpl.
  rewrite dom_insert_lookup_L; [done|by eexists].
Qed.

Lemma shape_write_member id record record' env :
  members env !! id = Some record →
  shape (set_members <[id := record']> env) = shape env.
Proof.
  intros Hrecord. unfold shape. simpl.
  rewrite dom_insert_lookup_L; [done|by eexists].
Qed.

(** *** library.book, library.member and library.librarian *)

Lemma triple_references_book_create v :
  triple references_hold (library_book.create v) (λ _, references_hold) any.
Proof.
  unfold library_book.create. apply triple_ask_bind. intros env Hold.
  destruct (Book.v_title v) as [t|]; [|by apply triple_raise].
  destruct (Book.v_author v) as [a|]; [|by apply triple_raise].
  destruct (Book.v_isbn v) as [i|]; [|by apply triple_raise].
  cbv zeta. destruct (unique_violation _ _ _ _); [by apply triple_raise|].
  apply (triple_bind _ (λ _, references_hold)).
  - apply triple_modify. intros ? ->.
    apply (references_hold_grow env); try done. simpl. intros j Hj.
    apply lookup_insert_is_Some'. by right.
  - intros _. unfold library_book.recompute_available_copies,
      library_book._check_isbn_unique, library_book._check_isbn_unique_row.
    apply triple_references_keeps; solve [auto 100 using shape_available_copies_recomputed,
      shape_current_borrowed_recomputed with keeps].
Qed.

Lemma triple_references_book_write self v :
  triple references_hold (library_book.write self v)
    (λ _, references_hold) any.
Proof.
  unfold library_book.write.
  apply (triple_bind _ (λ _, references_hold));
    [|intros _; by apply triple_ret].
  apply triple_for_each. intros id _. unfold library_book.write_row.
  apply triple_ask_bind. intros env Hold.
  destruct (books env !! id) as [book|] eqn:Hbook; [|by apply triple_raise].
  cbv zeta. destruct (_ && _); [by apply triple_raise|].
  apply (triple_bind _ (λ _, references_hold)).
  - apply triple_modify. intros ? ->.
    apply (references_hold_shape env); [|done|done].
    by apply (shape_write_book id book).
  - intros _. unfold library_book.recompute_available_copies,
      library_book._check_isbn_unique, library_book._check_isbn_unique_row.
    apply triple_references_keeps; solve [auto 100 using shape_available_copies_recomputed,
      shape_current_borrowed_recomputed with keeps].
Qed.

Lemma triple_references_book_unlink self :
  triple references_hold (library_book.unlink self)
    (λ _, references_hold) any.
Proof.
  unfold library_book.unlink.
  apply (triple_bind _ (λ _, references_hold));
    [|intros _; by apply triple_ret].
  apply triple_for_each. intros id _. unfold library_book.unlink_row.
  apply triple_ask_bind. intros env Hold.
  destruct (bool_decide _) eqn:Hnone; [|by apply triple_raise].
  apply bool_decide_eq_true in Hnone.
  apply triple_modify. intros ? -> k r Hk.
  destruct (Hold k r Hk) as (Hm & Hb & Hl). split; [done|]. split; [|done].
  simpl. rewrite lookup_delete_ne; [done|]. intros ->.
  assert ((k, r) ∈ library_book.borrowing_record_ids env (book_id r)) as Hin.
  { apply elem_of_search_rows. split; [done|]. by apply bool_decide_eq_true. }
  rewrite Hnone in Hin. by apply elem_of_nil in Hin.
Qed.

Lemma triple_references_member_orm_write self v :
  triple references_hold (library_member.orm_write self v)
    (λ _, references_hold) any.
Proof.
  unfold library_member.orm_write.
  apply (triple_bind _ (λ _, references_hold));
    [|intros _; by apply triple_ret].
  apply triple_for_each. intros id _. unfold library_member.orm_write_row.
  apply triple_ask_bind. intros env Hold.
  destruct (members env !! id) as [record|] eqn:Hrecord;
    [|by apply triple_raise].
  cbv zeta. destruct (_ && _); [by apply triple_raise|].
  apply (triple_bind _ (λ _, references_hold)).
  - apply triple_modify. intros ? ->.
    apply (references_hold_shape env); [|done|done].
    by apply (shape_write_member id record).
  - intros _. unfold library_member._check_phone_unique,
      library_member._check_phone_unique_row,
      library_member._check_status_change_borrowing_limit,
      library_member._check_status_change_borrowing_limit_row.
    apply triple_references_keeps; solve [auto 100 using shape_available_copies_recomputed,
      shape_current_borrowed_recomputed with keeps].
Qed.

Lemma triple_references_member_write self v :
  triple references_hold (library_member.write self v)
    (λ _, references_hold) any.
Proof.
  unfold library_member.write.
  apply (triple_bind _ (λ _, references_hold));
    [apply triple_references_member_orm_write|].
  intros result.
  apply (triple_bind _ (λ _, references_hold));
    [|intros _; by apply triple_ret].
  apply triple_when; [|done]. intros _.
  apply triple_for_each. intros id _.
  unfold library_member.write_limit_of_status.
  apply triple_ask_bind. intros env Hold.
  destruct (members env !! id) as [record|]; [|by apply triple_raise].
  apply (triple_conseq _ references_hold _ (λ _, references_hold) _ any);
    [|by intros ? ->|done..].
  destruct (Member.member_status record);
    (apply (triple_bind _ (λ _, references_hold));
     [apply triple_references_member_orm_write
     |intros _; by apply triple_ret]).
Qed.

Lemma triple_references_member_create today next_by_code v :
  triple references_hold (library_member.create today next_by_code v)
    (λ _, references_hold) any.
Proof.
  unfold library_member.create. cbv zeta.
  set (v1 := if decide _ then _ else v).
  set (v2 := match Member.v_member_status v1 with
             | Some _ => _ | None => _ end).
  clearbody v2. clear v1. unfold library_member.orm_create.
  apply triple_ask_bind. intros env Hold.
  destruct (Member.v_name v2) as [n|]; [|by apply triple_raise].
  destruct (Member.v_email v2) as [e|]; [|by apply triple_raise].
  destruct (Member.v_phone v2) as [p|]; [|by apply triple_raise].
  cbv zeta. destruct (unique_violation _ _ _ _); [by apply triple_raise|].
  apply (triple_bind _ (λ _, references_hold)).
  - apply triple_modify. intros ? ->.
    apply (references_hold_grow env); try done. simpl. intros j Hj.
    apply lookup_insert_is_Some'. by right.
  - intros _. unfold library_member.recompute_current_borrowed,
      library_member._check_phone_unique,
      library_member._check_phone_unique_row,
      library_member._check_status_change_borrowing_limit,
      library_member._check_status_change_borrowing_limit_row.
    apply triple_references_keeps; solve [auto 100 using shape_available_copies_recomputed,
      shape_current_borrowed_recomputed with keeps].
Qed.

Lemma triple_references_member_unlink self :
  triple references_hold (library_member.unlink self)
    (λ _, references_hold) any.
Proof.
  unfold library_member.unlink.
  apply (triple_bind _ (λ _, references_hold));
    [|intros _; by apply triple_ret].
  apply triple_for_each. intros id _. unfold library_member.unlink_row.
  apply triple_ask_bind. intros env Hold.
  destruct (bool_decide _) eqn:Hnone; [|by apply triple_raise].
  apply bool_decide_eq_true in Hnone.
  apply triple_modify. intros ? -> k r Hk.
  destruct (Hold k r Hk) as (Hm & Hb & Hl). split; [|done].
  simpl. rewrite lookup_delete_ne; [done|]. intros ->.
  assert ((k, r) ∈ library_member.borrowing_ids env (member_id r)) as Hin.
  { apply elem_of_search_rows. split; [done|]. by apply bool_decide_eq_true. }
  rewrite Hnone in Hin. by apply elem_of_nil in Hin.
Qed.

Lemma triple_references_librarian_create :
  triple references_hold library_librarian.create
    (λ _, references_hold) any.
Proof.
  unfold library_librarian.create. apply triple_ask_bind. intros env Hold.
  cbv zeta. apply (triple_bind _ (λ _, references_hold));
    [|intros _; by apply triple_ret].
  apply triple_modify. intros ? ->.
  apply (references_hold_grow env); try done. simpl. intros j Hj.
  apply elem_of_union. by right.
Qed.
(** *** library.borrowing.record *)

Lemma row_references_shape env env' r :
  shape env' = shape env →
  is_Some (members env !! member_id r)
  ∧ is_Some (books env !! book_id r) ∧ librarian_id r ∈ librarians env →
  is_Some (members env' !! member_id r)
  ∧ is_Some (books env' !! book_id r) ∧ librarian_id r ∈ librarians env'.
Proof.
  unfold shape. intros [= Hb Hm Hl]. rewrite <-!elem_of_dom.
  by rewrite Hb, Hm, Hl.
Qed.

(** The references of a row after a write are those of the values, which
    exist, and otherwise those of the row as it was. *)
Lemma written_references today v env old :
  references_exist env v = true →
  is_Some (members env !! member_id old)
  ∧ is_Some (books env !! book_id old) ∧ librarian_id old ∈ librarians env →
  is_Some (members env !! member_id (written today v old))
  ∧ is_Some (books env !! book_id (written today v old))
  ∧ librarian_id (written today v old) ∈ librarians env.
Proof.
  unfold references_exist. intros Href (Hm & Hb & Hl).
  apply andb_true_iff in Href as [Href Hl'].
  apply andb_true_iff in Href as [Hm' Hb'].
  assert (librarian_id (written today v old)
          = default (librarian_id old) (v_librarian_id v)) as ->.
  { unfold written. by destruct (_ && _). }
  rewrite written_member_id, written_book_id.
  destruct (v_member_id v), (v_book_id v), (v_librarian_id v); simpl in *;
    rewrite ?bool_decide_eq_true in *; done.
Qed.

Lemma keeps_shape_orm_write_row today v id :
  keeps shape (orm_write_row today v id).
Proof.
  unfold orm_write_row, library_book.recompute_available_copies,
    library_member.recompute_current_borrowed,
    _check_actual_return_date, _check_actual_return_date_row,
    _check_return_date, _check_return_date_row.
  solve [auto 100 using shape_available_copies_recomputed,
      shape_current_borrowed_recomputed with keeps].
Qed.

Lemma triple_references_write today self v :
  triple references_hold (write today self v) (λ _, references_hold) any.
Proof.
  unfold write, orm_write.
  apply (triple_bind _ (λ _, references_hold)).
  - apply (triple_bind _ (λ _, references_hold));
      [|intros _; by apply triple_ret].
    apply triple_for_each. intros id _ env Hold.
    pose proof (keeps_shape_orm_write_row today v id env) as Hshape.
    destruct (orm_write_row today v id env) as [env' [e|[]]] eqn:Hrun;
      [done|].
    apply orm_write_row_inv in Hrun as (old & Hid & Href & _ & Hrecs).
    simpl in Hshape. intros k r. rewrite Hrecs.
    destruct (decide (k = id)) as [->|Hne].
    + rewrite lookup_insert_eq. intros [= <-].
      apply (row_references_shape env); [done|].
      apply written_references; [done|]. by apply (Hold id).
    + rewrite lookup_insert_ne by done. intros Hk.
      apply (row_references_shape env); [done|]. by apply (Hold k).
  - intros result. unfold recompute_member_of,
      library_member.recompute_current_borrowed.
    apply triple_references_keeps; solve [auto 100 using shape_available_copies_recomputed,
      shape_current_borrowed_recomputed with keeps].
Qed.

Lemma triple_references_create today next_by_code v :
  triple references_hold (create today next_by_code v)
    (λ _, references_hold) any.
Proof.
  unfold create. cbv zeta. set (v1 := if decide _ then _ else v).
  clearbody v1.
  apply (triple_bind _ (λ _, references_hold)).
  { apply triple_references_keeps; solve [auto 100 using shape_available_copies_recomputed,
      shape_current_borrowed_recomputed with keeps]. }
  intros _. apply (triple_bind _ (λ _, references_hold)).
  { apply triple_references_keeps; solve [auto 100 using shape_available_copies_recomputed,
      shape_current_borrowed_recomputed with keeps]. }
  intros _. set (v2 := match v_expected_return_date v1 with
                       | Some _ => _ | None => _ end).
  clearbody v2. apply (triple_bind _ (λ _, references_hold)).
  - intros env Hold.
    destruct (orm_create today v2 env) as [env' [e|id]] eqn:Hrun; [done|].
    apply orm_create_inv in Hrun
      as (m & b & l & e & Hm & Hb & Hl & _ & Href & -> & _ & ->).
    unfold references_exist in Href. rewrite Hm, Hb, Hl in Href.
    simpl in Href. apply andb_true_iff in Href as [Href Hl'].
    apply andb_true_iff in Href as [Hm' Hb'].
    apply bool_decide_eq_true in Hm', Hb', Hl'.
    set (row := set_days_overdue _ _).
    set (env' := library_member.current_borrowed_recomputed m _).
    assert (Hshape : shape env' = shape env).
    { unfold env'. by rewrite shape_current_borrowed_recomputed,
        shape_available_copies_recomputed. }
    assert (Hrecs : records env'
                    = <[fresh (dom (records env)) := row]> (records env))
      by done.
    clearbody env'. intros k r. rewrite Hrecs.
    destruct (decide (k = fresh (dom (records env)))) as [->|Hne].
    + rewrite lookup_insert_eq. intros [= <-].
      by apply (row_references_shape env).
    + rewrite lookup_insert_ne by done. intros Hk.
      apply (row_references_shape env); [done|]. by apply (Hold k).
  - intros record. unfold library_member.recompute_current_borrowed.
    apply triple_references_keeps; solve [auto 100 using shape_available_copies_recomputed,
      shape_current_borrowed_recomputed with keeps].
Qed.

Lemma triple_references_unlink self :
  triple references_hold (unlink self) (λ _, references_hold) any.
Proof.
  unfold unlink. apply (triple_bind _ (λ _, references_hold)).
  { apply triple_references_keeps;
      apply keeps_read_only, read_only_unlink_check. }
  intros _. unfold orm_unlink.
  apply (triple_bind _ (λ _, references_hold));
    [|intros _; by apply triple_ret].
  apply triple_for_each. intros id _. unfold orm_unlink_row.
  apply triple_ask_bind. intros env Hold.
  destruct (records env !! id) as [record|];
    [|by apply triple_ret; intros ? ->].
  apply (triple_bind _ (λ _, references_hold)).
  - apply triple_modify. intros ? -> k r. simpl.
    rewrite lookup_delete_Some. intros [_ Hk]. by apply (Hold k).
  - intros _. unfold library_book.recompute_available_copies,
      library_member.recompute_current_borrowed.
    apply triple_references_keeps; solve [auto 100 using shape_available_copies_recomputed,
      shape_current_borrowed_recomputed with keeps].
Qed.

Lemma triple_references_action_return_book today id :
  triple references_hold (action_return_book today id)
    (λ _, references_hold) any.
Proof.
  unfold action_return_book. apply triple_ask_bind. intros env Hold.
  apply (triple_conseq _ references_hold _ (λ _, references_hold) _ any);
    [|by intros ? ->|done..].
  destruct (records env !! id) as [self|]; [|by apply triple_raise].
  destruct (bool_decide _); [by apply triple_raise|]. cbv zeta.
  apply (triple_bind _ (λ _, references_hold));
    [apply triple_references_write|].
  intros _. by apply triple_ret.
Qed.

Lemma triple_references_update_overdue_records today :
  triple references_hold (update_overdue_records today)
    (λ _, references_hold) any.
Proof.
  unfold update_overdue_records. apply triple_ask_bind. intros env Hold.
  apply (triple_conseq _ references_hold _ (λ _, references_hold) _ any);
    [|by intros ? ->|done..].
  cbv zeta. apply (triple_bind _ (λ _, references_hold));
    [apply triple_references_write|].
  intros _. by apply triple_ret.
Qed.

(** The fine sweep leaves the references of a record as they are. *)
Lemma swept_references today r :
  let r' := sweep_overdue today (sweep_borrowed today r) in
  member_id r' = member_id r ∧ book_id r' = book_id r
  ∧ librarian_id r' = librarian_id r.
Proof.
  unfold sweep_overdue, sweep_borrowed, fine_updated, turned_overdue.
  destruct (past_due borrowed today 1 r);
    destruct (past_due overdue today 1 _); try done;
    by destruct (fine_changed today _).
Qed.

Lemma triple_references_cron_calculate_overdue_fines today :
  triple references_hold (cron_calculate_overdue_fines today)
    (λ _, references_hold) any.
Proof.
  intros env Hold.
  pose proof (keeps_cron_calculate_overdue_fines shape (λ _ _, eq_refl)
                shape_available_copies_recomputed
                shape_current_borrowed_recomputed today env) as Hshape.
  unfold cron_calculate_overdue_fines, try_except in *.
  rewrite run_bind in *.
  destruct (run_cron_body today env) as (env' & totals & Hrun & Hrecs).
  rewrite Hrun in *. rewrite run_ret in *. simpl in Hshape.
  intros k r'. rewrite Hrecs, !lookup_fmap.
  destruct (records env !! k) as [r|] eqn:Hr; [|done]. simpl.
  intros [= <-]. destruct (swept_references today r) as (-> & -> & ->).
  apply (row_references_shape env); [done|]. by apply (Hold k).
Qed.

Lemma reachable_references env : reachable env → references_hold env.
Proof.
  apply reachable_triple; [done|]. intros today op.
  destruct op; unfold run;
    (apply (triple_bind _ (λ _, references_hold));
     [|intros _; by apply triple_ret]).
  - apply triple_references_book_create.
  - apply triple_references_book_write.
  - apply triple_references_book_unlink.
  - apply triple_references_member_create.
  - apply triple_references_member_write.
  - apply triple_references_member_unlink.
  - apply triple_references_librarian_create.
  - apply triple_references_create.
  - apply triple_references_write.
  - apply triple_references_unlink.
  - apply triple_references_action_return_book.
  - apply triple_references_keeps; apply keeps_action_extend_due_date.
  - apply triple_references_update_overdue_records.
  - apply triple_references_cron_calculate_overdue_fines.
Qed.
End references.

(** X20: in every state the calls reach, every borrowing record refers
    to a member, a book and a librarian that exist: a member and a book
    that a record refers to are not deleted, whatever the status of the
    record. *)
Theorem record_references_exist env id r :
  reachable env →
  records env !! id = Some r →
  is_Some (members env !! BorrowingRecord.member_id r)
  ∧ is_Some (books env !! BorrowingRecord.book_id r)
  ∧ BorrowingRecord.librarian_id r ∈ librarians env.
Proof. intros Hreach Hr. by apply (reachable_references env Hreach id). Qed.

(** In the demo library. *)
Lemma record_references_exist_witness :
  is_Some (members demo_env !! BorrowingRecord.member_id demo_record)
  ∧ is_Some (books demo_env !! BorrowingRecord.book_id demo_record)
  ∧ BorrowingRecord.librarian_id demo_record ∈ librarians demo_env.
Proof.
  apply (record_references_exist demo_env 1 demo_record).
  - apply demo_env_reachable.
  - vm_compute. reflexivity.
Defined.

(** ** A loan made, returned and deleted *)

Section round_trip.
Import BorrowingRecord library_borrowing_record.

(** [unlink] of one returned record. *)
Lemma run_unlink_returned id env r :
  records env !! id = Some r →
  status r = returned →
  unlink [id] env
  = (library_member.current_borrowed_recomputed (member_id r)
       (library_book.available_copies_recomputed (book_id r)
          (set_records (delete id) env)),
     inr true).
Proof.
  intros Hr Hs. unfold unlink.
  rewrite run_bind, run_for_each_one, (run_unlink_check _ _ _ Hr).
  rewrite bool_decide_eq_false_2
    by (rewrite Hs, !elem_of_cons, elem_of_nil;
        intros [?|[?|[]]]; discriminate).
  cbv beta iota. unfold orm_unlink.
  rewrite run_bind, run_for_each_one. unfold orm_unlink_row.
  by rewrite run_ask_bind, Hr.
Qed.

(** The stored field of a book, recomputed in a state whose records
    count for the book as those of a state [env0] where the field was
    right, is the field of [env0]; and so for a member. *)
Lemma books_recomputed_last env env0 b book book' :
  computed_except ∅ ∅ env0 →
  books env0 !! b = Some book →
  books env = <[b := book']> (books env0) →
  (∀ n, Book.set_available_copies n book'
        = Book.set_available_copies n book) →
  unavailable_count env b = unavailable_count env0 b →
  books (library_book.available_copies_recomputed b env) = books env0.
Proof.
  intros [Hbooks _] Hbook Hb Hf Hout.
  pose proof (Hbooks b book (not_elem_of_empty _) Hbook) as Hav.
  rewrite compute_available_copies_count in Hav. simpl.
  rewrite Hb, alter_insert_eq, Hf, compute_available_copies_count.
  assert (Book.total_copies book' = Book.total_copies book) as ->.
  { by injection (Hf 0). }
  rewrite Hout, <-Hav. apply insert_id.
  rewrite Hbook. f_equal. by destruct book.
Qed.

Lemma members_recomputed_last env env0 m member member' :
  computed_except ∅ ∅ env0 →
  members env0 !! m = Some member →
  members env = <[m := member']> (members env0) →
  (∀ n, Member.set_current_borrowed n member'
        = Member.set_current_borrowed n member) →
  count_status env m borrowed = count_status env0 m borrowed →
  members (library_member.current_borrowed_recomputed m env) = members env0.
Proof.
  intros [_ Hmembers] Hmember Hm Hg Hcount.
  pose proof (Hmembers m member (not_elem_of_empty _) Hmember) as Hcb.
  rewrite compute_current_borrowed_count in Hcb. simpl.
  rewrite Hm, alter_insert_eq, Hg.
  rewrite compute_current_borrowed_count, Hcount, <-Hcb. apply insert_id.
  rewrite Hmember. f_equal. by destruct member.
Qed.

(** A record that is not out, inserted as a new row, does not count. *)
Lemma counts_with_returned env env0 id r b m :
  records env0 !! id = None →
  records env = <[id := r]> (records env0) →
  status r = returned →
  unavailable_count env b = unavailable_count env0 b
  ∧ count_status env m borrowed = count_status env0 m borrowed.
Proof.
  intros Hnew Hrecs Hs. unfold unavailable_count, count_status.
  rewrite Hrecs. split; apply size_filter_insert; rewrite Hnew; simpl;
    rewrite Hs.
  - intros [_ [?|?]]; discriminate.
  - by intros [_ ?].
Qed.

Lemma counts_with_records env env0 b m :
  records env = records env0 →
  unavailable_count env b = unavailable_count env0 b
  ∧ count_status env m borrowed = count_status env0 m borrowed.
Proof. unfold unavailable_count, count_status. by intros ->. Qed.
End round_trip.

(** X21: in a state the calls reach, a loan that nothing refuses (the
    member is below the limit, and is active or holds at most five
    borrowed books with the loan), once returned (on a day not before it
    was made), leaves the books and the members as they were before the
    loan; and once the returned record is deleted, each of the four
    tables holds the rows it held before the loan. The sequences that
    number the records and hand out their ids are not part of the state:
    they have moved on. *)
Theorem loan_round_trip today today' next_by_code v env m b l e member book :
  reachable env →
  BorrowingRecord.v_member_id v = Some m →
  BorrowingRecord.v_book_id v = Some b →
  BorrowingRecord.v_librarian_id v = Some l →
  BorrowingRecord.v_expected_return_date v = Some e →
  BorrowingRecord.v_status v = None →
  BorrowingRecord.v_actual_return_date v = None →
  members env !! m = Some member →
  books env !! b = Some book →
  l ∈ librarians env →
  Member.current_borrowed member < Member.max_borrow_limit member →
  1 ≤ Book.available_copies book →
  default today (BorrowingRecord.v_borrow_date v) < e →
  default today (BorrowingRecord.v_borrow_date v) ≤ today' →
  Member.member_status member = active
  ∨ Member.current_borrowed member + (if e <? today then 0 else 1) ≤ 5 →
  ∃ env1 id env2 a env3,
    library_borrowing_record.create today next_by_code v env = (env1, inr id)
    ∧ library_borrowing_record.action_return_book today' id env1
      = (env2, inr a)
    ∧ books env2 = books env
    ∧ members env2 = members env
    ∧ library_borrowing_record.unlink [id] env2 = (env3, inr true)
    ∧ books env3 = books env
    ∧ members env3 = members env
    ∧ librarians env3 = librarians env
    ∧ records env3 = records env.
Proof.
  intros Hreach Hm Hb Hl He Hs Ha Hmember Hbook Hlib Hlimit Hcopies Hlt Hle
    Hstatus.
  pose proof (reachable_computed env Hreach) as Hcomputed.
  assert (Hcb : Member.current_borrowed member
                = Z.of_nat (count_status env m borrowed)).
  { rewrite <-compute_current_borrowed_count.
    by apply (proj2 Hcomputed m member). }
  set (id := fresh (dom (records env))).
  assert (Hnew : records env !! id = None) by apply not_elem_of_dom, is_fresh.
  set (loan := new_loan today next_by_code v m b l e).
  set (env1 := library_member.current_borrowed_recomputed m
                 (library_member.current_borrowed_recomputed m
                    (library_book.available_copies_recomputed b
                       (set_records <[id := loan]> env)))).
  assert (Hcreate : library_borrowing_record.create today next_by_code v env
                    = (env1, inr id)).
  { apply (run_create today next_by_code v env m b l e member book);
      try done; by rewrite <-Hcb. }
  assert (Hloan : records env1 !! id = Some loan) by apply lookup_insert_eq.
  set (back := returned_on today' loan).
  set (envR := set_records <[id := back]> env1).
  set (env2 := library_member.current_borrowed_recomputed m
                 (library_member.current_borrowed_recomputed m
                    (library_member.current_borrowed_recomputed m
                       (library_book.available_copies_recomputed b
                          (library_book.available_copies_recomputed b
                             envR))))).
  assert (Hreturn :
    library_borrowing_record.action_return_book today' id env1
    = (env2, inr (display_notification "Book Returned"
                    ("Book returned successfully. Fine: RM "
                     +:+ format_2f (fine_due today' loan))
                    "success" false))).
  { apply (run_action_return_book today' id env1 loan Hloan); [|done].
    unfold loan, new_loan. simpl. by destruct (e <? today). }
  assert (HrecsR : records envR = <[id := back]> (records env)).
  { unfold envR, env1. simpl. by rewrite insert_insert_eq. }
  assert (Hback : BorrowingRecord.status back = returned) by done.
  assert (Hbooks2 : books env2 = books env).
  { change (books env2)
      with (books (library_book.available_copies_recomputed b
                     (library_book.available_copies_recomputed b envR))).
    eapply (books_recomputed_last _ env b book _ Hcomputed Hbook).
    - simpl. rewrite (alter_lookup _ _ _ _ Hbook), alter_insert_eq.
      reflexivity.
    - done.
    - by apply (counts_with_returned _ env id back b m). }
  assert (Hmembers2 : members env2 = members env).
  { set (w1 := library_member.current_borrowed_recomputed m
                 (library_book.available_copies_recomputed b
                    (library_book.available_copies_recomputed b envR))).
    set (w2 := library_member.current_borrowed_recomputed m w1).
    assert (H1 : members w1 = members env).
    { eapply (members_recomputed_last _ env m member _ Hcomputed Hmember).
      - simpl. rewrite (alter_lookup _ _ _ _ Hmember), alter_insert_eq.
        reflexivity.
      - done.
      - by apply (counts_with_returned _ env id back b m). }
    assert (H2 : members w2 = members env).
    { apply (members_recomputed_last w1 env m member member Hcomputed
               Hmember); [|done|].
      - rewrite H1. symmetry. by apply insert_id.
      - by apply (counts_with_returned _ env id back b m). }
    apply (members_recomputed_last w2 env m member member Hcomputed
             Hmember); [|done|].
    - rewrite H2. symmetry. by apply insert_id.
    - by apply (counts_with_returned _ env id back b m). }
  exists env1, id, env2. eexists. eexists. split; [exact Hcreate|].
  split; [exact Hreturn|]. split; [exact Hbooks2|]. split; [exact Hmembers2|].
  split.
  { apply (run_unlink_returned id env2 back); [apply lookup_insert_eq|done]. }
  set (envD := set_records (delete id) env2).
  assert (HrecsD : records envD = records env).
  { unfold envD. simpl. rewrite !delete_insert_eq. by apply delete_id. }
  split; [|split; [|split]].
  - change (books (library_book.available_copies_recomputed b envD)
            = books env).
    apply (books_recomputed_last envD env b book book Hcomputed Hbook);
      [|done|].
    + change (books envD) with (books env2). rewrite Hbooks2. symmetry.
      by apply insert_id.
    + by apply counts_with_records.
  - apply (members_recomputed_last _ env m member member Hcomputed Hmember);
      [|done|].
    + change (members env2 = <[m := member]> (members env)).
      rewrite Hmembers2. symmetry. by apply insert_id.
    + by apply counts_with_records.
  - done.
  - exact HrecsD.
Qed.

(** In the demo library: a second loan of the book to the member, made
    on day 101, returned on day 105 and then deleted. *)
Lemma loan_round_trip_witness :
  ∃ env1 id env2 a env3,
    library_borrowing_record.create 101 (Some "BR0002") demo_second_loan
      demo_env
    = (env1, inr id)
    ∧ library_borrowing_record.action_return_book 105 id env1 = (env2, inr a)
    ∧ books env2 = books demo_env
    ∧ members env2 = members demo_env
    ∧ library_borrowing_record.unlink [id] env2 = (env3, inr true)
    ∧ books env3 = books demo_env
    ∧ members env3 = members demo_env
    ∧ librarians env3 = librarians demo_env
    ∧ records env3 = records demo_env.
Proof.
  apply (loan_round_trip 101 105 (Some "BR0002") demo_second_loan demo_env
           1 1 1 111 demo_member_row demo_book_row).
  - apply demo_env_reachable.
  - reflexivity.
  - reflexivity.
  - reflexivity.
  - reflexivity.
  - reflexivity.
  - reflexivity.
  - vm_compute. reflexivity.
  - vm_compute. reflexivity.
  - vm_compute. reflexivity.
  - vm_compute. reflexivity.
  - vm_compute. discriminate.
  - vm_compute. reflexivity.
  - vm_compute. discriminate.
  - left. reflexivity.
Defined.
